(** * VOICE-CMD: the command interpretation and security-gating pipeline

    A shallow embedding of the core of the VOICE-CMD backend:

    - [security.js]     : [isCommandSafe], [isPathSafe]           (Module [Security])
    - [commandParser]   : [parseCommand]                          (Module [CommandParser])
    - [fileOps.js]      : class [FileOperations]                  (Module [FileOps])
    - [commandUtils.js] : [executeShellCommand], [executeCommand] (Module [CommandUtils],
                          and [CommandUtilsLegacy] for its earlier revision)
    - the modules wired together as the server runs them          (Module [Backend])

    JavaScript strings are modelled as [string] (a sequence of bytes, the
    UTF-8 encoding of the text).  White space, letter case and the
    character classes of the regular expressions are modelled on the ASCII
    characters, where they are those of JavaScript; on a text with other
    characters (U+00A0 is white space in JavaScript, U+2028 ends a line,
    Greek letters have a case) the built-ins below and the code part ways,
    and a statement that depends on them is made for ASCII text
    ([SpecWords.ascii_text]).  The built-ins the code calls ([trim],
    [toLowerCase], [includes], [split], regular expressions, Node's [path],
    [fs] and [child_process]) are modelled first, each in a module of its
    own, then the repository's functions on top of them.  The properties
    follow the definitions, one module of facts per module of code. *)

From Stdlib Require Import String Ascii List Bool Arith Lia ZArith.
From stdpp Require Import base option gmap strings pretty.
Import ListNotations.
Open Scope string_scope.

Set Default Proof Using "Type".

(** ** JavaScript string built-ins *)

Module JsString.

(** Line feed and the double quote, which a string literal cannot hold. *)
Definition nl : string := String "010"%char "".
Definition dq : string := String "034"%char "".

(** [WhiteSpace] and [LineTerminator] code points below 128:
    TAB, LF, VT, FF, CR and SPACE.  JavaScript has more of them above 127
    (U+00A0, U+FEFF, U+2028, U+2029, the space separators); this
    definition, and [trim] on top of it, is that of JavaScript on ASCII
    text only. *)
Definition is_space (c : ascii) : bool :=
  let n := nat_of_ascii c in
  ((9 <=? n)%nat && (n <=? 13)%nat) || (n =? 32)%nat.

Definition lower_char (c : ascii) : ascii :=
  let n := nat_of_ascii c in
  if ((65 <=? n)%nat && (n <=? 90)%nat) then ascii_of_nat (n + 32) else c.

(** [String.prototype.toLowerCase], on ASCII text: the letters A to Z.
    JavaScript also maps the letters above 127. *)
Fixpoint toLowerCase (s : string) : string :=
  match s with
  | "" => ""
  | String c s' => String (lower_char c) (toLowerCase s')
  end.

Fixpoint trimStart (s : string) : string :=
  match s with
  | "" => ""
  | String c s' => if is_space c then trimStart s' else s
  end.

Fixpoint trimEnd (s : string) : string :=
  match s with
  | "" => ""
  | String c s' =>
      match trimEnd s' with
      | "" => if is_space c then "" else String c ""
      | r => String c r
      end
  end.

(** [String.prototype.trim], on ASCII text. *)
Definition trim (s : string) : string := trimEnd (trimStart s).

(** [s.startsWith(p)] *)
Fixpoint startsWith (s p : string) {struct p} : bool :=
  match p, s with
  | "", _ => true
  | String _ _, "" => false
  | String a p', String b s' => Ascii.eqb a b && startsWith s' p'
  end.

(** [s.includes(t)] *)
Fixpoint includes (s t : string) : bool :=
  startsWith s t ||
  match s with
  | "" => false
  | String _ s' => includes s' t
  end.

Fixpoint last_char (s : string) : option ascii :=
  match s with
  | "" => None
  | String c "" => Some c
  | String _ s' => last_char s'
  end.

(** [s.endsWith(p)] for a one-character [p]. *)
Definition endsWithChar (s : string) (c : ascii) : bool :=
  match last_char s with
  | Some d => Ascii.eqb c d
  | None => false
  end.

(** [s.split(sep)] for a one-character separator: never empty. *)
Fixpoint split (sep : ascii) (s : string) : list string :=
  match s with
  | "" => [""]
  | String c s' =>
      if Ascii.eqb c sep then "" :: split sep s'
      else match split sep s' with
           | [] => [String c ""]
           | w :: ws => String c w :: ws
           end
  end.

(** [s.split(sep)[0]] *)
Definition split_head (sep : ascii) (s : string) : string :=
  match split sep s with
  | [] => ""
  | w :: _ => w
  end.

(** [xs.join(sep)] *)
Fixpoint join (sep : string) (xs : list string) : string :=
  match xs with
  | [] => ""
  | [x] => x
  | x :: rest => x ++ sep ++ join sep rest
  end.

(** [xs.includes(x)] on an array of strings. *)
Definition array_includes (xs : list string) (x : string) : bool :=
  existsb (String.eqb x) xs.

(** The text of [s] consumed when [rest] is what remains of it. *)
Fixpoint take (n : nat) (s : string) : string :=
  match n, s with
  | S n', String c s' => String c (take n' s')
  | _, _ => ""
  end.

(** [s.slice(n)] *)
Fixpoint slice_from (n : nat) (s : string) : string :=
  match n, s with
  | S n', String _ s' => slice_from n' s'
  | _, _ => s
  end.

End JsString.

(** ** JavaScript regular expressions

    The fragment the repository's patterns use, with the backtracking
    semantics of [RegExp.prototype.exec]: ordered alternation, greedy and
    lazy quantifiers, capture groups, the [i] flag, leftmost match. *)

Module JsRegExp.
Import JsString.

(** The classes are those of JavaScript on ASCII text: above 127 the dot
    also stops at U+2028 and U+2029, and white space has more members. *)
Inductive cclass :=
| CAny                       (* .      : anything but LF and CR *)
| CSpace                     (* \s *)
| CNonSpace                  (* \S *)
| CDigit                     (* [0-9] *)
| CSet (cs : list ascii).    (* [...] *)

Definition in_class (cl : cclass) (c : ascii) : bool :=
  match cl with
  | CAny => negb ((nat_of_ascii c =? 10)%nat || (nat_of_ascii c =? 13)%nat)
  | CSpace => is_space c
  | CNonSpace => negb (is_space c)
  | CDigit => ((48 <=? nat_of_ascii c)%nat && (nat_of_ascii c <=? 57)%nat)
  | CSet cs => existsb (Ascii.eqb c) cs
  end.

Inductive regex :=
| REps
| RChar (c : ascii)
| RClass (cl : cclass)
| RSeq (r1 r2 : regex)
| RAlt (r1 r2 : regex)
| RStar (greedy : bool) (r : regex)
| RGroup (i : nat) (r : regex).

(** Capture groups that took part in the match, latest first. *)
Definition captures := list (nat * string).

Fixpoint get_cap (i : nat) (caps : captures) : option string :=
  match caps with
  | [] => None
  | (j, v) :: rest => if (i =? j)%nat then Some v else get_cap i rest
  end.

Definition char_eq (icase : bool) (c d : ascii) : bool :=
  if icase then Ascii.eqb (lower_char c) (lower_char d) else Ascii.eqb c d.

Definition orelse {A} (x y : option A) : option A :=
  match x with
  | Some a => Some a
  | None => y
  end.

(** [rmatch icase r s caps k]: match [r] at the head of [s], then hand the
    rest of the input to the continuation [k]; [None] makes the matcher
    backtrack.  An iteration of a quantifier has to consume input, as in
    ECMAScript, so the length of the input bounds the iterations. *)
Fixpoint rmatch (icase : bool) (r : regex) (s : string) (caps : captures)
    (k : string -> captures -> option captures) {struct r} : option captures :=
  match r with
  | REps => k s caps
  | RChar c =>
      match s with
      | String d s' => if char_eq icase c d then k s' caps else None
      | "" => None
      end
  | RClass cl =>
      match s with
      | String d s' => if in_class cl d then k s' caps else None
      | "" => None
      end
  | RSeq r1 r2 =>
      rmatch icase r1 s caps (fun s' caps' => rmatch icase r2 s' caps' k)
  | RAlt r1 r2 =>
      orelse (rmatch icase r1 s caps k) (rmatch icase r2 s caps k)
  | RGroup i r1 =>
      rmatch icase r1 s caps (fun s' caps' =>
        k s' ((i, take (String.length s - String.length s') s) :: caps'))
  | RStar greedy r1 =>
      (fix loop (fuel : nat) (s : string) (caps : captures) {struct fuel}
         : option captures :=
         match fuel with
         | O => k s caps
         | S fuel' =>
             let more :=
               rmatch icase r1 s caps (fun s' caps' =>
                 if (String.length s' <? String.length s)%nat
                 then loop fuel' s' caps' else None) in
             if greedy then orelse more (k s caps)
             else orelse (k s caps) more
         end) (String.length s) s caps
  end.

(** [re.exec(s)]: the leftmost match, [None] for JavaScript's [null]. *)
Fixpoint exec (icase : bool) (r : regex) (s : string) : option captures :=
  match rmatch icase r s [] (fun _ caps => Some caps) with
  | Some caps => Some caps
  | None =>
      match s with
      | "" => None
      | String _ s' => exec icase r s'
      end
  end.

(** A regular-expression literal: its source text, as [toString] prints it,
    its [i] flag and its syntax tree. *)
Record RegExp := mkRegExp {
  re_source : string;
  re_icase : bool;
  re_tree : regex
}.

(** [re.test(s)] and [s.match(re)] (no [g] flag). *)
Definition test (re : RegExp) (s : string) : bool :=
  match exec (re_icase re) (re_tree re) s with
  | Some _ => true
  | None => false
  end.

Definition match_ (s : string) (re : RegExp) : option captures :=
  exec (re_icase re) (re_tree re) s.

(** [re.toString()], which a template literal calls. *)
Definition toString (re : RegExp) : string :=
  "/" ++ re_source re ++ "/" ++ (if re_icase re then "i" else "").

(** Building blocks for the syntax trees. *)
Fixpoint lit (s : string) : regex :=
  match s with
  | "" => REps
  | String c "" => RChar c
  | String c s' => RSeq (RChar c) (lit s')
  end.

Fixpoint seq (rs : list regex) : regex :=
  match rs with
  | [] => REps
  | [r] => r
  | r :: rest => RSeq r (seq rest)
  end.

Definition plus (r : regex) : regex := RSeq r (RStar true r).       (* r+  *)
Definition plus_lazy (r : regex) : regex := RSeq r (RStar false r). (* r+? *)
Definition star (r : regex) : regex := RStar true r.                (* r*  *)
Definition opt (r : regex) : regex := RAlt r REps.                  (* r?  *)
Definition ws1 : regex := plus (RClass CSpace).                     (* \s+ *)
Definition any1 : regex := plus (RClass CAny).                      (* .+  *)
Definition nonws1 : regex := plus (RClass CNonSpace).               (* \S+ *)

End JsRegExp.

(** ** JavaScript values, as far as the guards of the code look at them

    [JObject] stands for an object that a template literal prints as
    [[object Object]].  A value that cannot be printed (a symbol, an object
    whose [toString] is no function) is not among these values: on such an
    input [executeCommand] fails in its first statement, the log of the
    command, and answers [E_SYSTEM_ERROR]. *)

Module JsValue.

Inductive JsValue :=
| JUndefined
| JNull
| JBool (b : bool)
| JNumber (n : Z)
| JString (s : string)
| JObject.

(** [ToBoolean]: what [!v] negates. *)
Definition truthy (v : JsValue) : bool :=
  match v with
  | JUndefined | JNull => false
  | JBool b => b
  | JNumber n => negb (n =? 0)%Z
  | JString s => negb (String.eqb s "")
  | JObject => true
  end.


End JsValue.

(** ** JavaScript objects used as maps *)

Module JsObject.
Import JsString.

(** The own properties of an ordinary object whose keys are strings, in
    property order: the array indices first, in ascending order, then the
    other keys in the order they were created. *)
Definition object (A : Type) : Type := list (string * A).

Definition is_digit (c : ascii) : bool :=
  (48 <=? nat_of_ascii c)%nat && (nat_of_ascii c <=? 57)%nat.

Fixpoint digits_value (acc : N) (s : string) : option N :=
  match s with
  | "" => Some acc
  | String c s' =>
      if is_digit c
      then digits_value (acc * 10 + N.of_nat (nat_of_ascii c - 48)) s'
      else None
  end.

(** An array index: the canonical decimal text of an integer below
    [2^32 - 1]. *)
Definition array_index (k : string) : option N :=
  match k with
  | "" => None
  | String c rest =>
      if Ascii.eqb c "0" && negb (String.eqb rest "") then None
      else
        match digits_value 0 k with
        | Some n => if (n <? 4294967295)%N then Some n else None
        | None => None
        end
  end.

Fixpoint get_own {A} (k : string) (o : object A) : option A :=
  match o with
  | [] => None
  | (k', a) :: o' => if String.eqb k k' then Some a else get_own k o'
  end.

(** The properties an ordinary object inherits from [Object.prototype]. *)
Definition prototype_properties : list string := [
  "constructor"; "__defineGetter__"; "__defineSetter__"; "hasOwnProperty";
  "__lookupGetter__"; "__lookupSetter__"; "isPrototypeOf";
  "propertyIsEnumerable"; "toString"; "valueOf"; "__proto__";
  "toLocaleString"
].

(** What [o[k]] finds: an own property, a property of the prototype (a
    function or the prototype itself, truthy and without the properties
    the code reads from it), or nothing ([undefined]). *)
Inductive Property (A : Type) :=
| Own (a : A)
| Inherited
| Absent.
Arguments Own {A} a.
Arguments Inherited {A}.
Arguments Absent {A}.

(** [o[k]] *)
Definition get {A} (k : string) (o : object A) : Property A :=
  match get_own k o with
  | Some a => Own a
  | None => if array_includes prototype_properties k then Inherited else Absent
  end.

Fixpoint replace {A} (k : string) (a : A) (o : object A) : object A :=
  match o with
  | [] => []
  | (k', a') :: o' =>
      if String.eqb k k' then (k', a) :: o' else (k', a') :: replace k a o'
  end.

Fixpoint insert_index {A} (n : N) (k : string) (a : A) (o : object A)
  : object A :=
  match o with
  | [] => [(k, a)]
  | (k', a') :: o' =>
      match array_index k' with
      | Some m =>
          if (n <? m)%N then (k, a) :: o
          else (k', a') :: insert_index n k a o'
      | None => (k, a) :: o
      end
  end.

(** [o[k] = a].  Without an own property of that name, an assignment to
    [__proto__] runs the setter of [Object.prototype]: it changes the
    prototype of [o] and creates no property. *)
Definition set {A} (k : string) (a : A) (o : object A) : object A :=
  match get_own k o with
  | Some _ => replace k a o
  | None =>
      if String.eqb k "__proto__" then o
      else
        match array_index k with
        | Some n => insert_index n k a o
        | None => (o ++ [(k, a)])%list
        end
  end.

(** [Object.keys(o)] and [Object.entries(o)] *)
Definition keys {A} (o : object A) : list string := map fst o.
Definition entries {A} (o : object A) : list (string * A) := o.

End JsObject.

(** ** Node's [path] module, POSIX flavour *)

Module NodePath.
Import JsString.

Definition isAbsolute (p : string) : bool := startsWith p "/".

(** The non-empty pieces between the separators. *)
Definition segments (p : string) : list string :=
  List.filter (fun seg => negb (String.eqb seg "")) (split "/"%char p).

(** [normalizeString]: [acc] is the stack of segments kept so far, the
    last one first.  A [..] pops a segment; at the top, or on top of
    another [..], it is kept only when [allowAboveRoot]. *)
Fixpoint normalize_segments (allowAboveRoot : bool) (acc segs : list string)
  : list string :=
  match segs with
  | [] => rev acc
  | seg :: rest =>
      if String.eqb seg "." then normalize_segments allowAboveRoot acc rest
      else if String.eqb seg ".." then
        match acc with
        | top :: acc' =>
            if String.eqb top ".."
            then normalize_segments allowAboveRoot
                   (if allowAboveRoot then ".." :: acc else acc) rest
            else normalize_segments allowAboveRoot acc' rest
        | [] =>
            normalize_segments allowAboveRoot
              (if allowAboveRoot then [".."] else []) rest
        end
      else normalize_segments allowAboveRoot (seg :: acc) rest
  end.

Definition normalizeString (p : string) (allowAboveRoot : bool) : string :=
  join "/" (normalize_segments allowAboveRoot [] (segments p)).

(** The loop of [path.resolve], from the last argument to the first and
    then the working directory, until an absolute path is reached. *)
Fixpoint resolve_loop (args_rev : list string) (resolvedPath : string)
  : string * bool :=
  match args_rev with
  | [] => (resolvedPath, false)
  | p :: rest =>
      if String.eqb p "" then resolve_loop rest resolvedPath
      else
        let resolvedPath' := p ++ "/" ++ resolvedPath in
        if isAbsolute p then (resolvedPath', true)
        else resolve_loop rest resolvedPath'
  end.

(** [path.resolve(...args)] in a process whose working directory is [cwd]. *)
Definition resolve (cwd : string) (args : list string) : string :=
  let '(resolvedPath, resolvedAbsolute) := resolve_loop (rev args ++ [cwd]) "" in
  let normalized := normalizeString resolvedPath (negb resolvedAbsolute) in
  if resolvedAbsolute then "/" ++ normalized
  else if String.eqb normalized "" then "." else normalized.

(** [path.normalize(p)] *)
Definition normalize (p : string) : string :=
  if String.eqb p "" then "."
  else
    let absolute := isAbsolute p in
    let trailingSeparator := endsWithChar p "/"%char in
    let q := normalizeString p (negb absolute) in
    if String.eqb q "" then
      (if absolute then "/" else if trailingSeparator then "./" else ".")
    else
      let q' := if trailingSeparator then q ++ "/" else q in
      if absolute then "/" ++ q' else q'.

(** [path.join(...args)] *)
Definition join_paths (args : list string) : string :=
  match List.filter (fun a => negb (String.eqb a "")) args with
  | [] => "."
  | parts => normalize (join "/" parts)
  end.

(** [path.dirname(p)] on the paths [resolve] returns: absolute, normalized,
    without a trailing separator. *)
Definition dirname (p : string) : string :=
  "/" ++ join "/" (removelast (segments p)).

End NodePath.

(** ** security.js *)

Module Security.
Import JsString JsRegExp JsValue.

Definition allowedCommands : list string := [
  (* File operations *)
  "mkdir"; "touch"; "ls"; "cp"; "mv"; "cat"; "head"; "tail"; "grep"; "find";
  "chmod"; "chown"; "tar"; "zip"; "unzip"; "gzip"; "gunzip";
  (* Text editing *)
  "nano"; "vim"; "vi"; "emacs";
  (* System info *)
  "pwd"; "whoami"; "uname"; "df"; "du"; "free"; "uptime"; "ps"; "top"; "htop";
  (* Network *)
  "ping"; "curl"; "wget"; "ssh"; "scp";
  (* Development *)
  "git"; "npm"; "node"; "python"; "python3"; "gcc"; "g++"; "make";
  (* Utilities *)
  "echo"; "date"; "cal"; "which"; "whereis"; "man"; "info"; "help"
].

Definition blockedCommands : list string := [
  (* Dangerous system commands *)
  "rm -rf"; "rm -r"; "rm -f"; "shutdown"; "reboot"; "halt"; "poweroff";
  "init 0"; "init 6"; "systemctl poweroff"; "systemctl reboot";
  (* Dangerous file operations *)
  "chmod 777 /"; "chmod 777 /etc"; "chmod 777 /root"; "chmod 777 /home";
  "chown root:"; "chown root /"; "chown root /etc";
  (* Process killing *)
  "kill -9 1"; "killall"; "pkill -f systemd"; "killall systemd";
  (* Network attacks *)
  "nmap"; "nmap -sS"; "nmap -O"; "netcat"; "nc -l"; "nc -e";
  (* File system damage *)
  "dd if=/dev/zero"; "dd of=/dev/sda"; "mkfs"; "fdisk"; "parted";
  "format"; "wipefs"; "badblocks";
  (* Privilege escalation *)
  "sudo su"; "sudo -i"; "su -"; "su root"; "passwd root";
  (* Dangerous redirects *)
  "> /dev/sda"; "> /etc/passwd"; "> /etc/shadow"; ">> /etc/passwd";
  (* Script execution *)
  "bash -c"; "sh -c"; "eval"; "exec"; "source /dev/stdin"
].

(** The regular-expression denylist; none of them has the [i] flag. *)
Definition blockedPatterns : list RegExp := [
  mkRegExp "rm\s+-rf?\s+\/" false
    (seq [lit "rm"; ws1; lit "-r"; opt (RChar "f"); ws1; lit "/"]);
  mkRegExp "chmod\s+777\s+\/" false
    (seq [lit "chmod"; ws1; lit "777"; ws1; lit "/"]);
  mkRegExp "chown\s+root\s+\/" false
    (seq [lit "chown"; ws1; lit "root"; ws1; lit "/"]);
  mkRegExp "dd\s+if=.*of=\/dev" false
    (seq [lit "dd"; ws1; lit "if="; star (RClass CAny); lit "of=/dev"]);
  mkRegExp "sudo\s+(su|passwd|visudo)" false
    (seq [lit "sudo"; ws1;
          RGroup 1 (RAlt (lit "su") (RAlt (lit "passwd") (lit "visudo")))]);
  mkRegExp "kill\s+-9\s+[0-9]+" false
    (seq [lit "kill"; ws1; lit "-9"; ws1; plus (RClass CDigit)]);
  mkRegExp ">.*\/etc\/(passwd|shadow|hosts)" false
    (seq [lit ">"; star (RClass CAny); lit "/etc/";
          RGroup 1 (RAlt (lit "passwd") (RAlt (lit "shadow") (lit "hosts")))]);
  mkRegExp ("bash\s+-c\s+['" ++ dq ++ "]") false
    (seq [lit "bash"; ws1; lit "-c"; ws1; RClass (CSet ["'"%char; "034"%char])]);
  mkRegExp "eval\s+" false (seq [lit "eval"; ws1]);
  mkRegExp "exec\s+" false (seq [lit "exec"; ws1]);
  mkRegExp "source\s+\/dev\/stdin" false
    (seq [lit "source"; ws1; lit "/dev/stdin"])
].

(** What [isCommandSafe] returns; [pattern] and [suggestion] are the
    properties only some of its branches set. *)
Record CommandVerdict := mkCommandVerdict {
  safe : bool;
  reason : string;
  blocked : bool;
  pattern : option string;
  suggestion : option string
}.

(** The chaining and the substitution test of [isCommandSafe]. *)
Definition has_chaining (trimmedCommand : string) : bool :=
  includes trimmedCommand "&&" || includes trimmedCommand "||"
  || includes trimmedCommand ";".

Definition has_substitution (trimmedCommand : string) : bool :=
  includes trimmedCommand "$(" || includes trimmedCommand "`".

(** The two denylist loops: the first entry that hits, if any. *)
Definition blocked_literal (trimmedCommand : string) : option string :=
  List.find (fun blocked => includes trimmedCommand (toLowerCase blocked))
    blockedCommands.

Definition blocked_regexp (command : string) : option RegExp :=
  List.find (fun pattern => test pattern command) blockedPatterns.

Definition isCommandSafe (command : JsValue) : CommandVerdict :=
  match command with
  | JString cmd =>
      if negb (truthy command) then
        mkCommandVerdict false "Invalid command format" true None None
      else
        let trimmedCommand := toLowerCase (trim cmd) in
        (* Check against blocked commands *)
        match blocked_literal trimmedCommand with
        | Some blocked =>
            mkCommandVerdict false
              ("Command contains blocked pattern: " ++ dq ++ blocked ++ dq)
              true (Some blocked) None
        | None =>
            (* Check against blocked regex patterns *)
            match blocked_regexp cmd with
            | Some pattern =>
                mkCommandVerdict false
                  ("Command matches blocked pattern: " ++ toString pattern)
                  true (Some (toString pattern)) None
            | None =>
                (* Extract base command (first word) *)
                let baseCommand := split_head " "%char trimmedCommand in
                if negb (array_includes allowedCommands baseCommand) then
                  mkCommandVerdict false
                    ("Command " ++ dq ++ baseCommand ++ dq ++ " not in allowlist")
                    true None
                    (Some ("Try one of these: "
                           ++ join ", " (firstn 5 allowedCommands) ++ "..."))
                else if has_chaining trimmedCommand then
                  mkCommandVerdict false
                    "Command chaining not allowed for security" true None None
                else if has_substitution trimmedCommand then
                  mkCommandVerdict false
                    "Command substitution not allowed for security" true None None
                else
                  mkCommandVerdict true "Command is safe" false None None
            end
        end
  | _ => mkCommandVerdict false "Invalid command format" true None None
  end.

(** What [isPathSafe] returns. *)
Record PathVerdict := mkPathVerdict {
  path_safe : bool;
  path_reason : string;
  path_blocked : bool;
  resolvedPath : option string;
  projectRoot : option string
}.

Section Process.
(** [os.homedir()] and [process.cwd()] of the running server. *)
Variables (homedir cwd : string).

Definition PROJECT_ROOT : string :=
  NodePath.join_paths [homedir; "Desktop"; "VOICE-CMD"].

(** [path.resolve] does not throw on strings, so the [catch] branch of
    the source is not reachable from here. *)
Definition isPathSafe (userPath : JsValue) : PathVerdict :=
  match userPath with
  | JString p =>
      if negb (truthy userPath) then
        mkPathVerdict false "Invalid path format" true None None
      else
        let resolved := NodePath.resolve cwd [PROJECT_ROOT; p] in
        let isWithinProject := startsWith resolved PROJECT_ROOT in
        if negb isWithinProject then
          mkPathVerdict false
            ("Path " ++ dq ++ p ++ dq ++ " is outside project directory")
            true (Some resolved) (Some PROJECT_ROOT)
        else
          mkPathVerdict true "Path is within project boundaries" false
            (Some resolved) None
  | _ => mkPathVerdict false "Invalid path format" true None None
  end.
End Process.

End Security.

(** ** security.js: the audit log and its statistics *)

Module SecurityLog.
Import JsString JsRegExp.

Definition LOG_FILE (homedir : string) : string :=
  NodePath.join_paths [Security.PROJECT_ROOT homedir; "logs"; "security.log"].

(** What [logCommand] records: the time, and its three arguments. *)
Record LogEntry := mkLogEntry {
  timestamp : string;
  command : string;
  status : string;
  reason : string
}.

(** The line written for an entry. *)
Definition logLine (logEntry : LogEntry) : string :=
  timestamp logEntry ++ " | " ++ status logEntry ++ " | " ++ command logEntry
  ++ " | " ++ reason logEntry ++ nl.

(** [logCommand(command, status, reason)] at the time [timestamp], on
    the log file ([None]: there is none yet).  When [appendFileSync]
    throws, the error is caught and the log stays as it is. *)
Definition logCommand (appendFails : bool) (timestamp command status reason : string)
    (log : option string) : option string :=
  let logEntry := mkLogEntry timestamp command status reason in
  if appendFails then log
  else
    Some (match log with
          | Some text => text
          | None => ""
          end ++ logLine logEntry).

Record SecurityStats := mkSecurityStats {
  totalCommands : nat;
  blockedCommands : nat;
  successfulCommands : nat;
  errorCommands : nat;
  lastActivity : option string;
  logFile : option string
}.

Definition digit : regex := RClass CDigit.

(** [^(\d{4}-\d{2}-\d{2}T\d{2}:\d{2}:\d{2}\.\d{3}Z)] without its anchor. *)
Definition timestampPattern : regex :=
  RGroup 1
    (seq [digit; digit; digit; digit; lit "-"; digit; digit; lit "-";
          digit; digit; lit "T"; digit; digit; lit ":"; digit; digit; lit ":";
          digit; digit; lit "."; digit; digit; digit; lit "Z"]).

(** [line.match(re)] for an expression anchored at the start. *)
Definition match_at_start (r : regex) (line : string) : option captures :=
  rmatch false r line [] (fun _ caps => Some caps).

(** [logContent.trim().split('\n').filter(line => line.trim())] *)
Definition log_lines (logContent : string) : list string :=
  List.filter (fun line => negb (String.eqb (trim line) ""))
    (split "010"%char (trim logContent)).

(** The body of the loop over the lines: the three counters and the last
    time stamp seen. *)
Definition count_line (counts : nat * nat * nat * option string) (line : string)
  : nat * nat * nat * option string :=
  let '(blockedCount, successCount, errorCount, lastActivity) := counts in
  let '(blockedCount, successCount, errorCount) :=
    if includes line "| BLOCKED |" then (S blockedCount, successCount, errorCount)
    else if includes line "| SUCCESS |" then (blockedCount, S successCount, errorCount)
    else if includes line "| ERROR |" then (blockedCount, successCount, S errorCount)
    else (blockedCount, successCount, errorCount) in
  (* Extract timestamp from first part of line *)
  let lastActivity :=
    match match_at_start timestampPattern line with
    | Some timestampMatch => get_cap 1 timestampMatch
    | None => lastActivity
    end in
  (blockedCount, successCount, errorCount, lastActivity).

(** [getSecurityStats()]: the statistics, or the [error] text when the
    log is there and cannot be read. *)
Definition getSecurityStats (homedir : string) (readError : option string)
    (log : option string) : SecurityStats + string :=
  match log with
  | None => inl (mkSecurityStats 0 0 0 0 None None)
  | Some logContent =>
      match readError with
      | Some message => inr ("Failed to read security stats: " ++ message)
      | None =>
          let lines := log_lines logContent in
          let '(blockedCount, successCount, errorCount, lastActivity) :=
            fold_left count_line lines (0, 0, 0, None) in
          inl (mkSecurityStats (List.length lines) blockedCount successCount
                 errorCount lastActivity (Some (LOG_FILE homedir)))
      end
  end.

(** [getAllowedCommands()] and [getBlockedCommands()]: copies of the
    lists. *)
Definition getAllowedCommands : list string := Security.allowedCommands.
Definition getBlockedCommands : list string := Security.blockedCommands.

End SecurityLog.

(** ** commandParser.js *)

Module CommandParser.
Import JsString JsRegExp JsValue.

(** The object [parseCommand] returns, a variant tagged by its [type]
    property: ["error"], ["memoryOp"], ["fileOp"] or ["shell"].  The last
    constructor stands for an object with any other tag, which
    [parseCommand] never returns and [executeCommand] still provides for. *)
Inductive ParseResult :=
| ParseError (error : string)
| MemoryOp (fn : string) (args : list string) (originalInput : string)
| FileOp (fn : string) (args : list string) (originalInput : string)
| Shell (command : string) (originalInput : string)
| OtherType (type : string).

Definition type (r : ParseResult) : string :=
  match r with
  | ParseError _ => "error"
  | MemoryOp _ _ _ => "memoryOp"
  | FileOp _ _ _ => "fileOp"
  | Shell _ _ => "shell"
  | OtherType t => t
  end.

(** A row of a pattern table; [p_type] is the constructor its [type]
    property selects. *)
Record Pattern := mkPattern {
  p_regex : RegExp;
  p_type : string -> list string -> string -> ParseResult;
  p_fn : string;
  p_args : captures -> list string
}.

(** [match[i]]: in every pattern below each group takes part in any
    match, so the default is never used. *)
Definition group (i : nat) (m : captures) : string :=
  match get_cap i m with
  | Some v => v
  | None => ""
  end.

Definition memoryOpPatterns : list Pattern := [
  mkPattern
    (mkRegExp "remember\s+(.+?)\s+is\s+(.+)" true
       (seq [lit "remember"; ws1; RGroup 1 (plus_lazy (RClass CAny)); ws1;
             lit "is"; ws1; RGroup 2 any1]))
    MemoryOp "saveMemory"
    (fun m => [trim (group 1 m); trim (group 2 m)]);
  mkPattern
    (mkRegExp "remember\s+(.+)" true (seq [lit "remember"; ws1; RGroup 1 any1]))
    MemoryOp "saveMemory"
    (fun m => [trim (group 1 m); "true"]);
  mkPattern
    (mkRegExp "recall\s+(.+)" true (seq [lit "recall"; ws1; RGroup 1 any1]))
    MemoryOp "getMemory"
    (fun m => [trim (group 1 m)]);
  mkPattern
    (mkRegExp "show\s+memory" true (seq [lit "show"; ws1; lit "memory"]))
    MemoryOp "getAllMemory" (fun _ => []);
  mkPattern
    (mkRegExp "clear\s+memory" true (seq [lit "clear"; ws1; lit "memory"]))
    MemoryOp "clearMemory" (fun _ => []);
  mkPattern
    (mkRegExp "search\s+memory\s+(.+)" true
       (seq [lit "search"; ws1; lit "memory"; ws1; RGroup 1 any1]))
    MemoryOp "searchMemory"
    (fun m => [trim (group 1 m)]);
  mkPattern
    (mkRegExp "memory\s+stats" true (seq [lit "memory"; ws1; lit "stats"]))
    MemoryOp "getMemoryStats" (fun _ => []);
  mkPattern
    (mkRegExp "command\s+history" true (seq [lit "command"; ws1; lit "history"]))
    MemoryOp "getCommandHistory" (fun _ => [])
].

Definition fileOpPatterns : list Pattern := [
  mkPattern
    (mkRegExp "create\s+file\s+(\S+)" true
       (seq [lit "create"; ws1; lit "file"; ws1; RGroup 1 nonws1]))
    FileOp "createFile" (fun m => [group 1 m]);
  mkPattern
    (mkRegExp "create\s+a\s+file\s+(\S+)" true
       (seq [lit "create"; ws1; lit "a"; ws1; lit "file"; ws1; RGroup 1 nonws1]))
    FileOp "createFile" (fun m => [group 1 m]);
  mkPattern
    (mkRegExp "create\s+directory\s+(\S+)" true
       (seq [lit "create"; ws1; lit "directory"; ws1; RGroup 1 nonws1]))
    FileOp "createDirectory" (fun m => [group 1 m]);
  mkPattern
    (mkRegExp "create\s+a\s+directory\s+(\S+)" true
       (seq [lit "create"; ws1; lit "a"; ws1; lit "directory"; ws1;
             RGroup 1 nonws1]))
    FileOp "createDirectory" (fun m => [group 1 m]);
  mkPattern
    (mkRegExp "make\s+directory\s+(\S+)" true
       (seq [lit "make"; ws1; lit "directory"; ws1; RGroup 1 nonws1]))
    FileOp "createDirectory" (fun m => [group 1 m]);
  mkPattern
    (mkRegExp "mkdir\s+(\S+)" true (seq [lit "mkdir"; ws1; RGroup 1 nonws1]))
    FileOp "createDirectory" (fun m => [group 1 m]);
  mkPattern
    (mkRegExp "delete\s+file\s+(\S+)" true
       (seq [lit "delete"; ws1; lit "file"; ws1; RGroup 1 nonws1]))
    FileOp "deleteFile" (fun m => [group 1 m]);
  mkPattern
    (mkRegExp "copy\s+file\s+(\S+)\s+to\s+(\S+)" true
       (seq [lit "copy"; ws1; lit "file"; ws1; RGroup 1 nonws1; ws1;
             lit "to"; ws1; RGroup 2 nonws1]))
    FileOp "copyFile" (fun m => [group 1 m; group 2 m]);
  mkPattern
    (mkRegExp "move\s+file\s+(\S+)\s+to\s+(\S+)" true
       (seq [lit "move"; ws1; lit "file"; ws1; RGroup 1 nonws1; ws1;
             lit "to"; ws1; RGroup 2 nonws1]))
    FileOp "moveFile" (fun m => [group 1 m; group 2 m]);
  mkPattern
    (mkRegExp "list\s+files" true (seq [lit "list"; ws1; lit "files"]))
    FileOp "listFiles" (fun _ => [])
].

Definition shellCommands : list string := [
  "ls"; "pwd"; "cd"; "mkdir"; "touch"; "rm"; "cp"; "mv"; "ps"; "kill";
  "nano"; "cat"; "grep"; "find"; "which"; "whoami"; "uname"; "df";
  "free"; "uptime"; "ping"; "curl"; "wget"
].

(** The loop over a pattern table: the first row whose expression matches
    [input] makes the result. *)
Fixpoint first_match (patterns : list Pattern) (input : string)
  : option ParseResult :=
  match patterns with
  | [] => None
  | pattern :: rest =>
      match match_ input (p_regex pattern) with
      | Some m =>
          Some (p_type pattern (p_fn pattern) (p_args pattern m) input)
      | None => first_match rest input
      end
  end.

Definition parseCommand (input : JsValue) : ParseResult :=
  match input with
  | JString inp =>
      if negb (truthy input) then
        ParseError "Invalid input: command must be a non-empty string"
      else
        let trimmedInput := toLowerCase (trim inp) in
        (* Check for memory operation patterns first *)
        match first_match memoryOpPatterns inp with
        | Some r => r
        | None =>
            (* Check for file operation patterns *)
            match first_match fileOpPatterns inp with
            | Some r => r
            | None =>
                (* Check for direct shell commands *)
                let firstWord := split_head " "%char trimmedInput in
                if array_includes shellCommands firstWord
                then Shell inp inp
                else
                  (* No pattern matched - treat as shell command *)
                  Shell inp inp
            end
        end
  | _ => ParseError "Invalid input: command must be a non-empty string"
  end.

End CommandParser.

(** ** Node's [fs/promises], as far as [FileOperations] uses it

    The file system is a finite map from absolute, normalized paths to
    nodes; the root directory is always there.  A call either succeeds or
    rejects with an error object. *)

Module NodeFs.
Import JsString.

Inductive node :=
| File (content : string)
| Directory.

Record FsError := mkFsError {
  err_code : string;
  err_message : string
}.

Definition errno (code description syscall path : string) : FsError :=
  mkFsError code
    (code ++ ": " ++ description ++ ", " ++ syscall ++ " '" ++ path ++ "'").

Definition ENOENT := errno "ENOENT" "no such file or directory".
Definition ENOTDIR := errno "ENOTDIR" "not a directory".
Definition EISDIR := errno "EISDIR" "illegal operation on a directory".
Definition EEXIST := errno "EEXIST" "file already exists".
Definition ENOTEMPTY := errno "ENOTEMPTY" "directory not empty".
Definition EINVAL := errno "EINVAL" "invalid argument".
Definition EBUSY := errno "EBUSY" "resource busy or locked".

Definition lookup_node (st : gmap string node) (p : string) : option node :=
  if String.eqb p "/" then Some Directory else st !! p.

Definition isDirectory (n : node) : bool :=
  match n with
  | Directory => true
  | File _ => false
  end.

(** [fs.access(p)] *)
Definition access (st : gmap string node) (p : string) : FsError + unit :=
  match lookup_node st p with
  | Some _ => inr tt
  | None => inl (ENOENT "access" p)
  end.

(** [fs.stat(p)] *)
Definition stat (st : gmap string node) (p : string) : FsError + node :=
  match lookup_node st p with
  | Some n => inr n
  | None => inl (ENOENT "stat" p)
  end.

(** [fs.mkdir(p, { recursive: true })]: walks down from the root and
    creates what is missing; the directories made before an error stay. *)
Fixpoint mkdir_walk (st : gmap string node) (p cur : string)
    (segs : list string) : option FsError * gmap string node :=
  match segs with
  | [] => (None, st)
  | seg :: rest =>
      let next := cur ++ "/" ++ seg in
      match lookup_node st next with
      | Some Directory => mkdir_walk st p next rest
      | Some (File _) =>
          (Some (match rest with
                 | [] => EEXIST "mkdir" p
                 | _ => ENOTDIR "mkdir" p
                 end), st)
      | None => mkdir_walk (<[next := Directory]> st) p next rest
      end
  end.

Definition mkdir_recursive (st : gmap string node) (p : string)
  : option FsError * gmap string node :=
  mkdir_walk st p "" (NodePath.segments p).

(** [fs.writeFile(p, data)] *)
Definition writeFile (st : gmap string node) (p data : string)
  : option FsError * gmap string node :=
  match lookup_node st (NodePath.dirname p) with
  | Some Directory =>
      match lookup_node st p with
      | Some Directory => (Some (EISDIR "open" p), st)
      | _ => (None, <[p := File data]> st)
      end
  | Some (File _) => (Some (ENOTDIR "open" p), st)
  | None => (Some (ENOENT "open" p), st)
  end.

(** [fs.unlink(p)] *)
Definition unlink (st : gmap string node) (p : string)
  : option FsError * gmap string node :=
  match lookup_node st p with
  | Some (File _) => (None, delete p st)
  | Some Directory => (Some (EISDIR "unlink" p), st)
  | None => (Some (ENOENT "unlink" p), st)
  end.

(** [fs.copyFile(src, dest)] *)
Definition copyFile (st : gmap string node) (src dest : string)
  : option FsError * gmap string node :=
  let arrow := src ++ "' -> '" ++ dest in
  match lookup_node st src with
  | Some (File content) =>
      match lookup_node st (NodePath.dirname dest) with
      | Some Directory =>
          match lookup_node st dest with
          | Some Directory => (Some (EISDIR "copyfile" arrow), st)
          | _ => (None, <[dest := File content]> st)
          end
      | Some (File _) => (Some (ENOTDIR "copyfile" arrow), st)
      | None => (Some (ENOENT "copyfile" arrow), st)
      end
  | Some Directory => (Some (EISDIR "copyfile" arrow), st)
  | None => (Some (ENOENT "copyfile" arrow), st)
  end.

(** [p] is [dir] or lies below it. *)
Definition in_subtree (dir p : string) : bool :=
  String.eqb p dir || startsWith p (dir ++ "/").

Definition has_children (st : gmap string node) (dir : string) : bool :=
  bool_decide (filter (fun kv => Is_true (startsWith kv.1 (dir ++ "/"))) st ≠ ∅).

(** The map after the subtree at [old] has moved to [new]. *)
Definition move_subtree (st : gmap string node) (old new : string)
  : gmap string node :=
  let moved := filter (fun kv => Is_true (in_subtree old kv.1)) st in
  let kept := filter (fun kv => ¬ Is_true (in_subtree old kv.1)) st in
  kmap (fun p => new ++ slice_from (String.length old) p) moved ∪ kept.

(** [fs.rename(old, new)] *)
Definition rename (st : gmap string node) (old new : string)
  : option FsError * gmap string node :=
  let arrow := old ++ "' -> '" ++ new in
  match lookup_node st old with
  | None => (Some (ENOENT "rename" arrow), st)
  | Some (File content) =>
      match lookup_node st (NodePath.dirname new) with
      | Some Directory =>
          match lookup_node st new with
          | Some Directory => (Some (EISDIR "rename" arrow), st)
          | _ => (None, <[new := File content]> (delete old st))
          end
      | Some (File _) => (Some (ENOTDIR "rename" arrow), st)
      | None => (Some (ENOENT "rename" arrow), st)
      end
  | Some Directory =>
      if String.eqb old "/" then (Some (EBUSY "rename" arrow), st)
      else if String.eqb old new then (None, st)
      else if in_subtree old new then (Some (EINVAL "rename" arrow), st)
      else
        match lookup_node st (NodePath.dirname new) with
        | Some Directory =>
            match lookup_node st new with
            | Some (File _) => (Some (ENOTDIR "rename" arrow), st)
            | Some Directory =>
                if has_children st new
                then (Some (ENOTEMPTY "rename" arrow), st)
                else (None, move_subtree st old new)
            | None => (None, move_subtree st old new)
            end
        | Some (File _) => (Some (ENOTDIR "rename" arrow), st)
        | None => (Some (ENOENT "rename" arrow), st)
        end
  end.

(** [fs.readdir(dir, { withFileTypes: true })]: the entries right below
    [dir], each with its name. *)
Definition readdir (st : gmap string node) (dir : string)
  : FsError + list (string * node) :=
  match lookup_node st dir with
  | Some Directory =>
      let prefix := if String.eqb dir "/" then "/" else dir ++ "/" in
      inr (omap (fun kv : string * node =>
             let name := slice_from (String.length prefix) kv.1 in
             if startsWith kv.1 prefix && negb (String.eqb name "")
                && negb (includes name "/")
             then Some (name, kv.2) else None)
           (map_to_list st))
  | Some (File _) => inl (ENOTDIR "scandir" dir)
  | None => inl (ENOENT "scandir" dir)
  end.

End NodeFs.

(** ** fileOps.js: class [FileOperations] *)

Module FileOps.
Import JsString NodeFs.

(** An entry of the listing [listFiles] returns. *)
Record FileEntry := mkFileEntry {
  name : string;
  entry_type : string;
  size : nat;
  modified : string
}.

(** The result object of an operation: the three properties every caller
    reads, the string-valued ones that differ from branch to branch, and
    the listing. *)
Record OpResult := mkOpResult {
  action : string;
  result : string;
  success : bool;
  props : list (string * string);
  files : list FileEntry
}.

(** [array.sort(compare)]: a stable sort. *)
Fixpoint sort_insert {A} (compare : A -> A -> Z) (x : A) (l : list A) : list A :=
  match l with
  | [] => [x]
  | y :: l' =>
      if (compare x y <=? 0)%Z then x :: l
      else y :: sort_insert compare x l'
  end.

Definition sort {A} (compare : A -> A -> Z) (l : list A) : list A :=
  foldr (sort_insert compare) [] l.

Section Instance.
(** [this.workingDir] and the process's working directory; what [stat]
    reports and the map does not hold (size of a directory, date of the
    last change); the collation of [localeCompare]. *)
Variables (workingDir cwd : string).
Variable dirSize : nat.
Variable mtimeDate : string -> string.
Variable localeCompare : string -> string -> Z.

Definition createDirectory (dirname : string) (st : gmap string node)
  : OpResult * gmap string node :=
  let dirPath := NodePath.resolve cwd [workingDir; dirname] in
  let create :=
    (* Create the directory *)
    match mkdir_recursive st dirPath with
    | (None, st') =>
        (mkOpResult "Create Directory"
           ("Directory '" ++ dirname ++ "' created successfully ✅") true
           [("dirname", dirname); ("dirPath", dirPath)] [], st')
    | (Some error, st') =>
        (mkOpResult "Create Directory"
           ("Failed to create directory '" ++ dirname ++ "': "
            ++ err_message error ++ " ❌") false
           [("error", err_message error); ("dirname", dirname)] [], st')
    end in
  (* Check if directory already exists *)
  match stat st dirPath with
  | inr stats =>
      if isDirectory stats then
        (mkOpResult "Create Directory"
           ("Directory '" ++ dirname ++ "' already exists ❌") false
           [("dirname", dirname); ("dirPath", dirPath)] [], st)
      else create
  | inl _ => create   (* Directory doesn't exist, proceed with creation *)
  end.

Definition createFile (filename : string) (st : gmap string node)
  : OpResult * gmap string node :=
  let filePath := NodePath.resolve cwd [workingDir; filename] in
  (* Check if file already exists *)
  match access st filePath with
  | inr _ =>
      (mkOpResult "Create File"
         ("File '" ++ filename ++ "' already exists ❌") false
         [("filename", filename); ("filePath", filePath)] [], st)
  | inl _ =>
      (* Create the file *)
      match writeFile st filePath "" with
      | (None, st') =>
          (mkOpResult "Create File"
             ("File '" ++ filename ++ "' created successfully ✅") true
             [("filename", filename); ("filePath", filePath)] [], st')
      | (Some error, st') =>
          (mkOpResult "Create File"
             ("Error creating file '" ++ filename ++ "': "
              ++ err_message error ++ " ❌") false
             [("filename", filename); ("error", err_message error)] [], st')
      end
  end.

Definition deleteFile (filename : string) (st : gmap string node)
  : OpResult * gmap string node :=
  let filePath := NodePath.resolve cwd [workingDir; filename] in
  let caught (error : FsError) :=
    mkOpResult "Delete File"
      ("Error deleting file '" ++ filename ++ "': "
       ++ err_message error ++ " ❌") false
      [("filename", filename); ("error", err_message error)] [] in
  (* Check if file exists *)
  match access st filePath with
  | inl _ =>
      (mkOpResult "Delete File"
         ("File '" ++ filename ++ "' not found ❌") false
         [("filename", filename); ("filePath", filePath)] [], st)
  | inr _ =>
      (* Get file stats to determine if it's a file or directory *)
      match stat st filePath with
      | inl error => (caught error, st)
      | inr stats =>
          if isDirectory stats then
            (mkOpResult "Delete File"
               ("'" ++ filename ++ "' is a directory, not a file ❌") false
               [("filename", filename); ("filePath", filePath)] [], st)
          else
            (* Delete the file *)
            match unlink st filePath with
            | (None, st') =>
                (mkOpResult "Delete File"
                   ("File '" ++ filename ++ "' deleted successfully ✅") true
                   [("filename", filename); ("filePath", filePath)] [], st')
            | (Some error, st') => (caught error, st')
            end
      end
  end.

Definition copyFile (sourceFilename destFilename : string)
    (st : gmap string node) : OpResult * gmap string node :=
  let sourcePath := NodePath.resolve cwd [workingDir; sourceFilename] in
  let destPath := NodePath.resolve cwd [workingDir; destFilename] in
  let names := [("sourceFilename", sourceFilename);
                ("destFilename", destFilename)] in
  let paths := [("sourcePath", sourcePath); ("destPath", destPath)] in
  let caught (error : FsError) :=
    mkOpResult "Copy File"
      ("Error copying file '" ++ sourceFilename ++ "' to '" ++ destFilename
       ++ "': " ++ err_message error ++ " ❌") false
      (names ++ [("error", err_message error)]) [] in
  (* Check if source file exists *)
  match access st sourcePath with
  | inl _ =>
      (mkOpResult "Copy File"
         ("Source file '" ++ sourceFilename ++ "' not found ❌") false
         (names ++ paths) [], st)
  | inr _ =>
      (* Check if source is a file *)
      match stat st sourcePath with
      | inl error => (caught error, st)
      | inr sourceStats =>
          if isDirectory sourceStats then
            (mkOpResult "Copy File"
               ("'" ++ sourceFilename ++ "' is a directory, not a file ❌")
               false (names ++ paths) [], st)
          else
            (* Check if destination already exists *)
            match access st destPath with
            | inr _ =>
                (mkOpResult "Copy File"
                   ("Destination file '" ++ destFilename
                    ++ "' already exists ❌") false (names ++ paths) [], st)
            | inl _ =>
                (* Copy the file *)
                match NodeFs.copyFile st sourcePath destPath with
                | (None, st') =>
                    (mkOpResult "Copy File"
                       ("File '" ++ sourceFilename ++ "' copied to '"
                        ++ destFilename ++ "' successfully ✅") true
                       (names ++ paths) [], st')
                | (Some error, st') => (caught error, st')
                end
            end
      end
  end.

Definition moveFile (sourceFilename destPath : string)
    (st : gmap string node) : OpResult * gmap string node :=
  let sourceFilePath := NodePath.resolve cwd [workingDir; sourceFilename] in
  let names := [("sourceFilename", sourceFilename); ("destPath", destPath)] in
  let caught (error : FsError) :=
    mkOpResult "Move File"
      ("Error moving file '" ++ sourceFilename ++ "' to '" ++ destPath
       ++ "': " ++ err_message error ++ " ❌") false
      (names ++ [("error", err_message error)]) [] in
  (* Check if source file exists *)
  match access st sourceFilePath with
  | inl _ =>
      (mkOpResult "Move File"
         ("Source file '" ++ sourceFilename ++ "' not found ❌") false
         (names ++ [("sourceFilePath", sourceFilePath)]) [], st)
  | inr _ =>
      (* Check if source is a file *)
      match stat st sourceFilePath with
      | inl error => (caught error, st)
      | inr sourceStats =>
          if isDirectory sourceStats then
            (mkOpResult "Move File"
               ("'" ++ sourceFilename ++ "' is a directory, not a file ❌")
               false (names ++ [("sourceFilePath", sourceFilePath)]) [], st)
          else
            (* Determine destination path *)
            let destFilePath :=
              if endsWithChar destPath "/"%char || endsWithChar destPath "\"%char
              then (* Destination is a directory, keep original filename *)
                NodePath.resolve cwd [workingDir; destPath; sourceFilename]
              else (* Destination is a filename *)
                NodePath.resolve cwd [workingDir; destPath] in
            let paths := [("sourceFilePath", sourceFilePath);
                          ("destFilePath", destFilePath)] in
            (* Check if destination already exists *)
            match access st destFilePath with
            | inr _ =>
                (mkOpResult "Move File"
                   ("Destination '" ++ destPath ++ "' already exists ❌")
                   false (names ++ paths) [], st)
            | inl _ =>
                (* Ensure destination directory exists; an error of
                   [mkdir] is swallowed *)
                let destDir := NodePath.dirname destFilePath in
                let st1 := snd (mkdir_recursive st destDir) in
                (* Move the file *)
                match rename st1 sourceFilePath destFilePath with
                | (None, st2) =>
                    (mkOpResult "Move File"
                       ("File '" ++ sourceFilename ++ "' moved to '"
                        ++ destPath ++ "' successfully ✅") true
                       (names ++ paths) [], st2)
                | (Some error, st2) => (caught error, st2)
                end
            end
      end
  end.

Definition compare_entries (a b : FileEntry) : Z :=
  if negb (String.eqb (entry_type a) (entry_type b)) then
    (if String.eqb (entry_type a) "directory" then (-1)%Z else 1%Z)
  else localeCompare (name a) (name b).

Definition entry_line (file : FileEntry) : string :=
  let typeIcon := if String.eqb (entry_type file) "directory" then "📁" else "📄" in
  let size_text :=
    if String.eqb (entry_type file) "file"
    then " (" ++ pretty (size file) ++ " bytes)" else "" in
  typeIcon ++ " " ++ name file ++ size_text.

(** [listFiles(dir = ".")]; every entry [readdir] returns exists, so
    the [stat] of the entries does not fail. *)
Definition listFiles (dir : string) (st : gmap string node)
  : OpResult * gmap string node :=
  let targetDir :=
    if String.eqb dir "." then workingDir
    else NodePath.resolve cwd [workingDir; dir] in
  (* Check if directory exists *)
  match access st targetDir with
  | inl _ =>
      (mkOpResult "List Files" ("Directory '" ++ dir ++ "' not found ❌")
         false [("directory", dir); ("targetDir", targetDir)] [], st)
  | inr _ =>
      (* Read directory contents *)
      match readdir st targetDir with
      | inl error =>
          (mkOpResult "List Files"
             ("Error listing files in '" ++ dir ++ "': "
              ++ err_message error ++ " ❌") false
             [("directory", dir); ("error", err_message error)] [], st)
      | inr entries =>
          (* Get detailed information for each file *)
          let fileList :=
            map (fun file : string * node =>
                   let filePath := NodePath.join_paths [targetDir; file.1] in
                   mkFileEntry file.1
                     (if isDirectory file.2 then "directory" else "file")
                     (match file.2 with
                      | File content => String.length content
                      | Directory => dirSize
                      end)
                     (mtimeDate filePath))
                entries in
          (* Sort files: directories first, then files, both alphabetically *)
          let fileList := sort compare_entries fileList in
          (* Format file list for display *)
          let fileListText := join nl (map entry_line fileList) in
          let count (t : string) :=
            List.length (List.filter (fun f => String.eqb (entry_type f) t) fileList) in
          (mkOpResult "List Files"
             ("Found " ++ pretty (List.length fileList) ++ " items in '" ++ dir
              ++ "':" ++ nl ++ fileListText) true
             [("directory", dir); ("targetDir", targetDir);
              ("totalFiles", pretty (count "file"));
              ("totalDirectories", pretty (count "directory"))]
             fileList, st)
      end
  end.

(** [fileOps[fn](...args)]: the method named [fn] applied to the
    arguments; [None] when there is no such method or an argument it
    reads is missing. *)
Definition method (fn : string) (args : list string)
  : option (gmap string node -> OpResult * gmap string node) :=
  if String.eqb fn "createFile" then
    match args with a :: _ => Some (createFile a) | _ => None end
  else if String.eqb fn "createDirectory" then
    match args with a :: _ => Some (createDirectory a) | _ => None end
  else if String.eqb fn "deleteFile" then
    match args with a :: _ => Some (deleteFile a) | _ => None end
  else if String.eqb fn "copyFile" then
    match args with a :: b :: _ => Some (copyFile a b) | _ => None end
  else if String.eqb fn "moveFile" then
    match args with a :: b :: _ => Some (moveFile a b) | _ => None end
  else if String.eqb fn "listFiles" then
    match args with a :: _ => Some (listFiles a) | [] => Some (listFiles ".") end
  else None.

End Instance.

End FileOps.

(** ** Exceptions and state

    A computation runs in a world [W] and either returns a value or throws;
    an [await] of a rejected promise throws as well. *)

Module Effects.

Record JsError := mkJsError { message : string }.

Inductive Outcome (A : Type) :=
| Returned (a : A)
| Thrown (e : JsError).
Arguments Returned {A} a.
Arguments Thrown {A} e.

Definition M (W A : Type) : Type := W -> Outcome A * W.

Definition ret {W A} (a : A) : M W A := fun w => (Returned a, w).

Definition throw {W A} (e : JsError) : M W A := fun w => (Thrown e, w).

Definition bind {W A B} (m : M W A) (k : A -> M W B) : M W B :=
  fun w =>
    match m w with
    | (Returned a, w') => k a w'
    | (Thrown e, w') => (Thrown e, w')
    end.

(** [try { m } catch (error) { handler error }] *)
Definition try_catch {W A} (m : M W A) (handler : JsError -> M W A) : M W A :=
  fun w =>
    match m w with
    | (Returned a, w') => (Returned a, w')
    | (Thrown e, w') => handler e w'
    end.

Module Notations.
Notation "'let*' x ':=' m 'in' k" := (bind m (fun x => k))
  (at level 10, x name, m at level 100, k at level 200).
End Notations.

End Effects.

(** ** commandUtils.js *)

Module CommandUtils.
Import JsString JsValue Effects Effects.Notations.

(** What the shell runner does to the outside: the audit records it hands
    to the logger and its call of [child_process.exec]. *)
Inductive Event :=
| LogSecurity (command status reason : string)
| LogCommand (command status message : string)
| Exec (command cwd : string) (timeout maxBuffer : Z).

Definition is_exec (e : Event) : bool :=
  match e with
  | Exec _ _ _ _ => true
  | _ => false
  end.

(** The [error] argument of the callback of [child_process.exec]:
    [error.code] is an exit status, the name of a system error or absent;
    [error.signal] names the signal that ended the process, if any. *)
Inductive ErrorCode :=
| NoCode
| ExitCode (status : Z)
| SysCode (name : string).

Record ExecError := mkExecError {
  err_code : ErrorCode;
  err_signal : option string;
  err_message : string
}.

(** The three arguments of the callback. *)
Record ExecOutcome := mkExecOutcome {
  exec_error : option ExecError;
  stdout : string;
  stderr : string
}.

(** A call of [child_process.exec(command, options, callback)].  It
    throws when Node refuses the command (a NUL byte in it) or cannot
    start the shell for another reason than [ENOENT], [EACCES], [EAGAIN],
    [EMFILE] and [ENFILE] (a working directory that is no directory is
    [ENOTDIR] and is thrown).  Otherwise it returns and the callback is
    called later: with one of these five system errors, or, once
    [/bin/sh] has run the command, with the exit status or the signal.
    A program that is not installed is an exit status, 127, of the
    shell. *)
Inductive ExecCall :=
| Throws (e : JsError)
| CallsBack (o : ExecOutcome).

Record ShellResult := mkShellResult {
  sh_success : bool;
  output : string;
  sh_blocked : bool;
  sh_code : option string
}.

(** [${v}] in a template literal. *)
Definition template (v : JsValue) : string :=
  match v with
  | JUndefined => "undefined"
  | JNull => "null"
  | JBool b => if b then "true" else "false"
  | JNumber n => pretty n
  | JString s => s
  | JObject => "[object Object]"
  end.

Definition code_is (e : ExecError) (name : string) : bool :=
  match err_code e with
  | SysCode c => String.eqb c name
  | _ => false
  end.

Definition signal_is (e : ExecError) (name : string) : bool :=
  match err_signal e with
  | Some s => String.eqb s name
  | None => false
  end.

(** [a || b] on strings: the empty string is falsy. *)
Definition or_else (a b : string) : string :=
  if String.eqb a "" then b else a.

Section ShellRunner.
(** [os.homedir()], and what [exec] does with a command. *)
Variable homedir : string.
Variable child_process_exec : string -> ExecCall.

Definition WORKING_DIR : string :=
  NodePath.join_paths [homedir; "Desktop"; "VOICE-CMD"].

(** The callback of [exec]. *)
Definition on_exit (command : string) (o : ExecOutcome)
  : ShellResult * list Event :=
  match exec_error o with
  | Some error =>
      (* Determine specific error type and code *)
      let '(errorCode, errorMessage) :=
        if code_is error "ENOENT" then
          ("E_COMMAND_NOT_FOUND",
           "Command not found: " ++ split_head " "%char command)
        else if code_is error "EACCES" then
          ("E_PERMISSION_DENIED", "Permission denied: " ++ err_message error)
        else if signal_is error "SIGTERM" then
          ("E_COMMAND_TIMEOUT", "Command timed out after 10 seconds")
        else if code_is error "ENOTDIR" then
          ("E_INVALID_DIRECTORY", "Invalid directory: " ++ err_message error)
        else
          ("E_COMMAND_FAILED", or_else (stderr o) (err_message error)) in
      (mkShellResult false errorMessage false (Some errorCode),
       [LogCommand command "ERROR" (err_message error)])
  | None =>
      (mkShellResult true
         (or_else (stdout o) "Command executed successfully") false
         (Some "SUCCESS"),
       [LogCommand command "SUCCESS" "Command executed successfully"])
  end.

(** The promise of [executeShellCommand]: the value it resolves to, or
    the error it rejects with when [exec] throws inside its executor, and
    the events on the way, in order.  Only a string gets a safe verdict,
    so anything else takes the blocked branch. *)
Definition executeShellCommand (command : JsValue)
  : Outcome ShellResult * list Event :=
  (* Security check using the security module *)
  let securityCheck := Security.isCommandSafe command in
  match command, Security.safe securityCheck with
  | JString cmd, true =>
      (* Execute the command *)
      let called :=
        [LogCommand cmd "SUCCESS" "Command passed security checks";
         Exec cmd WORKING_DIR 10000 (1024 * 1024)] in
      match child_process_exec cmd with
      | Throws error => (Thrown error, called)
      | CallsBack o =>
          let '(r, evs) := on_exit cmd o in
          (Returned r, (called ++ evs)%list)
      end
  | _, _ =>
      (Returned
         (mkShellResult false
            ("🚫 Command blocked for security: " ++ template command ++ nl
             ++ "Reason: " ++ Security.reason securityCheck
             ++ match Security.suggestion securityCheck with
                | Some suggestion => nl ++ "Suggestion: " ++ suggestion
                | None => ""
                end)
            true None),
       [LogSecurity (template command) "BLOCKED"
          (Security.reason securityCheck)])
  end.

End ShellRunner.

(** *** The memory collaborator ([memory.js]) and [executeMemoryOperation] *)

Record SaveStatus := mkSaveStatus { status : string; status_message : string }.

Inductive MemoryItem :=
| Found (value timestamp : string)
| NotFound (message : string).

Record AllMemory := mkAllMemory {
  userData : list (string * string);
  totalItems : nat
}.

Record SearchItem := mkSearchItem {
  key : string;
  item_value : string;
  item_type : string
}.

Record SearchResults := mkSearchResults {
  count : nat;
  results : list SearchItem
}.

Record MemoryStats := mkMemoryStats {
  totalUserData : nat;
  totalContext : nat;
  totalCommands : nat;
  lastUpdated : string;
  memorySize : nat
}.

Record HistoryEntry := mkHistoryEntry {
  entry_command : string;
  entry_timestamp : string
}.

(** What a branch of [executeCommand], and [executeMemoryOperation],
    work with: [{ action, result, success }]. *)
Record OpResult := mkOpResult {
  op_action : string;
  op_result : string;
  op_success : bool
}.

(** What [addCommandToHistory] is given as the result. *)
Inductive HistoryResult :=
| OfMemoryOp (r : OpResult)
| OfFileOp (r : FileOps.OpResult)
| OfShell (r : ShellResult).

(** The functions of the memory module the executor calls, over the
    state [Mem] they keep. *)
Class MemoryModule (Mem : Type) := {
  saveMemory : string -> string -> M Mem SaveStatus;
  getMemory : string -> M Mem MemoryItem;
  getAllMemory : M Mem AllMemory;
  clearMemory : M Mem SaveStatus;
  searchMemory : string -> M Mem SearchResults;
  getMemoryStats : M Mem MemoryStats;
  getCommandHistory : M Mem (list HistoryEntry);
  addCommandToHistory : JsValue -> HistoryResult -> M Mem unit
}.

(** [args[i]]; an absent argument prints as [undefined]. *)
Definition arg (i : nat) (args : list string) : string :=
  nth i args "undefined".

Fixpoint numbered {A} (i : nat) (l : list A) : list (nat * A) :=
  match l with
  | [] => []
  | x :: l' => (i, x) :: numbered (S i) l'
  end.

Section MemoryOperations.
Context {Mem : Type} `{MemoryModule Mem}.
(** [new Date(t).toLocaleString()] *)
Variable toLocaleString : string -> string.

Definition executeMemoryOperation (operation : string) (args : list string)
  : M Mem OpResult :=
  try_catch
    (if String.eqb operation "saveMemory" then
       let* result := saveMemory (arg 0 args) (arg 1 args) in
       ret (mkOpResult "Save Memory" (status_message result)
              (String.eqb (status result) "success"))
     else if String.eqb operation "getMemory" then
       let* memoryItem := getMemory (arg 0 args) in
       ret (match memoryItem with
            | Found value timestamp =>
                mkOpResult "Recall Memory"
                  (dq ++ arg 0 args ++ dq ++ " = " ++ dq ++ value ++ dq
                   ++ " (saved: " ++ toLocaleString timestamp ++ ")") true
            | NotFound message => mkOpResult "Recall Memory" message false
            end)
     else if String.eqb operation "getAllMemory" then
       let* allMemory := getAllMemory in
       let memoryList :=
         join nl (map (fun kv : string * string =>
                         dq ++ kv.1 ++ dq ++ " = " ++ dq ++ kv.2 ++ dq)
                      (userData allMemory)) in
       ret (mkOpResult "Show Memory"
              ("Memory contains " ++ pretty (totalItems allMemory) ++ " items:"
               ++ nl ++ or_else memoryList "No memories stored") true)
     else if String.eqb operation "clearMemory" then
       let* result := clearMemory in
       ret (mkOpResult "Clear Memory" (status_message result)
              (String.eqb (status result) "success"))
     else if String.eqb operation "searchMemory" then
       let* searchResults := searchMemory (arg 0 args) in
       ret (if (0 <? count searchResults)%nat then
              mkOpResult "Search Memory"
                ("Found " ++ pretty (count searchResults) ++ " matches for "
                 ++ dq ++ arg 0 args ++ dq ++ ":" ++ nl
                 ++ join nl (map (fun item =>
                                    dq ++ key item ++ dq ++ " = " ++ dq
                                    ++ item_value item ++ dq
                                    ++ " (" ++ item_type item ++ ")")
                                 (results searchResults))) true
            else
              mkOpResult "Search Memory"
                ("No matches found for " ++ dq ++ arg 0 args ++ dq) false)
     else if String.eqb operation "getMemoryStats" then
       let* stats := getMemoryStats in
       ret (mkOpResult "Memory Stats"
              ("Memory Statistics:" ++ nl
               ++ "- User Data: " ++ pretty (totalUserData stats) ++ " items" ++ nl
               ++ "- Context: " ++ pretty (totalContext stats) ++ " items" ++ nl
               ++ "- Commands: " ++ pretty (totalCommands stats) ++ " items" ++ nl
               ++ "- Last Updated: " ++ toLocaleString (lastUpdated stats) ++ nl
               ++ "- Memory Size: "
               ++ pretty ((memorySize stats + 512) / 1024)%nat ++ " KB") true)
     else if String.eqb operation "getCommandHistory" then
       let* history := getCommandHistory in
       ret (if (0 <? List.length history)%nat then
              mkOpResult "Command History"
                ("Recent Commands:" ++ nl
                 ++ join nl (map (fun ix : nat * HistoryEntry =>
                                    pretty ix.1 ++ ". " ++ dq
                                    ++ entry_command ix.2 ++ dq ++ " ("
                                    ++ toLocaleString (entry_timestamp ix.2)
                                    ++ ")")
                                 (numbered 1 history))) true
            else
              mkOpResult "Command History" "No command history available" false)
     else
       ret (mkOpResult "Memory Operation"
              ("Unknown memory operation: " ++ operation) false))
    (fun error =>
       ret (mkOpResult "Memory Operation"
              ("Error executing memory operation: " ++ message error) false)).

End MemoryOperations.

(** *** [executeCommand] *)

Record ExecutionResult := mkExecutionResult {
  input : JsValue;
  action : string;
  result : string;
  success : bool;
  blocked : option bool;
  code : option string
}.

Section Executor.
Import CommandParser.
(** The modules [executeCommand] calls into, each free to throw. *)
Context {W : Type}.
Variable parseCommand : JsValue -> M W ParseResult.
Variable executeMemoryOperation : string -> list string -> M W OpResult.
Variable fileOperation : string -> list string -> M W FileOps.OpResult.
Variable executeShellCommand : JsValue -> M W ShellResult.
Variable addCommandToHistory : JsValue -> HistoryResult -> M W unit.

Definition memory_branch (commandText : JsValue) (fn : string)
    (args : list string) : M W ExecutionResult :=
  try_catch
    (let* result := executeMemoryOperation fn args in
     (* Add command to history *)
     let* _ := addCommandToHistory commandText (OfMemoryOp result) in
     ret (mkExecutionResult commandText (op_action result) (op_result result)
            (op_success result) None None))
    (fun error =>
       ret (mkExecutionResult commandText "Memory Operation Error"
              ("Error executing memory operation: " ++ message error)
              false None (Some "E_MEMORY_OPERATION_FAILED"))).

Definition file_branch (commandText : JsValue) (fn : string)
    (args : list string) : M W ExecutionResult :=
  try_catch
    (let* result := fileOperation fn args in
     (* Add command to history *)
     let* _ := addCommandToHistory commandText (OfFileOp result) in
     ret (mkExecutionResult commandText (FileOps.action result)
            (FileOps.result result) (FileOps.success result) None None))
    (fun error =>
       ret (mkExecutionResult commandText "File Operation Error"
              ("Error executing file operation: " ++ message error)
              false None (Some "E_FILE_OPERATION_FAILED"))).

Definition shell_branch (commandText : JsValue) (command : string)
  : M W ExecutionResult :=
  try_catch
    (let* result := executeShellCommand (JString command) in
     (* Add command to history *)
     let* _ := addCommandToHistory commandText (OfShell result) in
     ret (mkExecutionResult commandText "Shell Command" (output result)
            (sh_success result) (Some (sh_blocked result || false)) None))
    (fun error =>
       ret (mkExecutionResult commandText "Shell Command Error"
              ("Error executing shell command: " ++ message error)
              false None (Some "E_SHELL_COMMAND_FAILED"))).

Definition executeCommand (commandText : JsValue) : M W ExecutionResult :=
  try_catch
    ((* Parse the command *)
     let* parseResult := parseCommand commandText in
     match parseResult with
     | ParseError error =>
         ret (mkExecutionResult commandText "Parse Error" error false None
                (Some "E_PARSE_ERROR"))
     | MemoryOp fn args _ => memory_branch commandText fn args
     | FileOp fn args _ => file_branch commandText fn args
     | Shell command _ => shell_branch commandText command
     | OtherType _ =>
         (* Fallback for unknown command types *)
         ret (mkExecutionResult commandText "Unknown Command"
                "Command type not recognized" false None
                (Some "E_UNKNOWN_COMMAND"))
     end)
    (fun error =>
       (* Top-level error handler for executeCommand *)
       ret (mkExecutionResult commandText "System Error"
              ("An unexpected error occurred: " ++ message error)
              false None (Some "E_SYSTEM_ERROR"))).

End Executor.

End CommandUtils.

(** ** memory.js

    The module keeps one JSON file, [memory.json].  A state of that file is
    either a memory of the shape [saveMemoryToFile] writes, with its
    [userData], [commandHistory] and [context], or [None]: a file that is
    missing, cannot be read or does not hold JSON, for which [loadMemory]
    answers the empty structure.  A file that holds JSON of another shape
    ([{}], say, on which [saveMemory] throws) is not among these states:
    the module never writes one, and the statements below are about a
    file that no one else has written.  Keys and values are strings, as
    the executor passes them. *)

Module MemoryJs.
Import JsString JsValue Effects Effects.Notations.

Record Item := mkItem {
  value : string;
  timestamp : string
}.

(** An entry of [commandHistory]: [{ command, result, timestamp }]. *)
Record HistoryEntry := mkHistoryEntry {
  command : JsValue;
  result : CommandUtils.HistoryResult;
  entry_timestamp : string
}.

Record Memory := mkMemory {
  userData : JsObject.object Item;
  commandHistory : list HistoryEntry;
  context : JsObject.object Item;
  lastUpdated : string
}.

(** What the module works on: the memory file, and how often the clock
    has been read so far. *)
Record Disk := mkDisk {
  memoryFile : option Memory;
  clock : nat
}.

(** Where [fs.writeFile(memoryFile, data)] fails.  It opens the file for
    writing, which empties it, writes the text and closes the file; there
    is no temporary file.  A refused open leaves the file as it was; a
    failure while writing (a full disk) leaves a part of the text, which
    is no JSON; a failure of the close leaves the whole text. *)
Inductive WriteStage := OnOpen | OnWrite | OnClose.

Record WriteFailure := mkWriteFailure {
  write_error : JsError;
  write_stage : WriteStage
}.

(** [{ status, message }], with [key] and [value] where [saveMemory] adds
    them. *)
Record Status := mkStatus {
  status : string;
  message : string;
  saved : option (string * string)
}.

(** [{ value, timestamp, found: true }] or [{ found: false, message }] *)
Inductive Lookup :=
| Found (value timestamp : JsValue)
| NotFound (message : string).

Record AllMemory := mkAllMemory {
  all_userData : JsObject.object Item;
  all_commandHistory : list HistoryEntry;
  all_context : JsObject.object Item;
  all_lastUpdated : string;
  totalItems : nat
}.

(** A search result: [{ type, key, value, timestamp }]. *)
Record Hit := mkHit {
  hit_type : string;
  hit_key : string;
  hit_value : string;
  hit_timestamp : string
}.

Record SearchResults := mkSearchResults {
  query : string;
  results : list Hit;
  count : nat
}.

Record Stats := mkStats {
  totalUserData : nat;
  totalContext : nat;
  totalCommands : nat;
  stats_lastUpdated : string;
  memorySize : nat
}.

(** [array.slice(0, limit)] *)
Definition slice_to {A} (limit : Z) (l : list A) : list A :=
  if (limit <? 0)%Z then firstn (Z.to_nat (Z.of_nat (List.length l) + limit)) l
  else firstn (Z.to_nat limit) l.

Section Module.
(** [new Date().toISOString()] at the n-th reading of the clock; how
    [fs.writeFile] fails, if it does; [JSON.stringify(memory).length]. *)
Variable toISOString : nat -> string.
Variable writeError : option WriteFailure.
Variable stringifyLength : Memory -> nat.

Definition now : M Disk string :=
  fun d => (Returned (toISOString (clock d)),
            mkDisk (memoryFile d) (S (clock d))).

Definition readFile : M Disk Memory :=
  fun d =>
    match memoryFile d with
    | Some memory => (Returned memory, d)
    | None =>
        (Thrown (mkJsError "ENOENT: no such file or directory, open 'memory.json'"),
         d)
    end.

Definition writeFile (memory : Memory) : M Disk unit :=
  fun d =>
    match writeError with
    | Some failure =>
        (Thrown (write_error failure),
         match write_stage failure with
         | OnOpen => d
         | OnWrite => mkDisk None (clock d)
         | OnClose => mkDisk (Some memory) (clock d)
         end)
    | None => (Returned tt, mkDisk (Some memory) (clock d))
    end.

(** Helper to load memory from file *)
Definition loadMemory : M Disk Memory :=
  try_catch readFile
    (fun _ =>
       (* If file doesn't exist, return empty object with default structure *)
       let* t := now in
       ret (mkMemory [] [] [] t)).

(** Helper to save memory object back to file *)
Definition saveMemoryToFile (memory : Memory) : M Disk unit :=
  let* t := now in
  writeFile (mkMemory (userData memory) (commandHistory memory)
               (context memory) t).

(** Save a key-value pair into memory *)
Definition saveMemory (key value : string) : M Disk Status :=
  let* memory := loadMemory in
  let* t := now in
  let memory :=
    mkMemory (JsObject.set key (mkItem value t) (userData memory))
      (commandHistory memory) (context memory) (lastUpdated memory) in
  let* _ := saveMemoryToFile memory in
  ret (mkStatus "success"
         ("Memory saved: " ++ dq ++ key ++ dq ++ " = " ++ dq ++ value ++ dq)
         (Some (key, value))).

(** Get a single memory value by key *)
Definition getMemory (key : string) : M Disk Lookup :=
  let* memory := loadMemory in
  ret (match JsObject.get key (userData memory) with
       | JsObject.Own item =>
           Found (JString (MemoryJs.value item)) (JString (MemoryJs.timestamp item))
       | JsObject.Inherited => Found JUndefined JUndefined
       | JsObject.Absent =>
           NotFound ("Memory not found: " ++ dq ++ key ++ dq)
       end).

(** Get all memory *)
Definition getAllMemory : M Disk AllMemory :=
  let* memory := loadMemory in
  ret (mkAllMemory (userData memory) (commandHistory memory) (context memory)
         (lastUpdated memory)
         (List.length (JsObject.keys (userData memory)))).

(** Clear all memory *)
Definition clearMemory : M Disk Status :=
  let* t := now in
  let* _ := saveMemoryToFile (mkMemory [] [] [] t) in
  ret (mkStatus "success" "All memory cleared successfully" None).

(** Add command to history *)
Definition addCommandToHistory (command : JsValue)
    (result : CommandUtils.HistoryResult) : M Disk HistoryEntry :=
  let* memory := loadMemory in
  let* t := now in
  let historyEntry := mkHistoryEntry command result t in
  let history := historyEntry :: commandHistory memory in
  (* Keep only last 10 commands *)
  let history :=
    if (10 <? List.length history)%nat then slice_to 10 history else history in
  let* _ := saveMemoryToFile
              (mkMemory (userData memory) history (context memory)
                 (lastUpdated memory)) in
  ret historyEntry.

(** Get recent command history; [limit] defaults to 5. *)
Definition getCommandHistory (limit : option Z) : M Disk (list HistoryEntry) :=
  let limit := match limit with Some n => n | None => 5%Z end in
  let* memory := loadMemory in
  ret (slice_to limit (commandHistory memory)).

(** Set context information *)
Definition setContext (key value : string) : M Disk Status :=
  let* memory := loadMemory in
  let* t := now in
  let memory :=
    mkMemory (userData memory) (commandHistory memory)
      (JsObject.set key (mkItem value t) (context memory))
      (lastUpdated memory) in
  let* _ := saveMemoryToFile memory in
  ret (mkStatus "success"
         ("Context set: " ++ dq ++ key ++ dq ++ " = " ++ dq ++ value ++ dq)
         None).

(** Get context information *)
Definition getContext (key : string) : M Disk Lookup :=
  let* memory := loadMemory in
  ret (match JsObject.get key (context memory) with
       | JsObject.Own item =>
           Found (JString (MemoryJs.value item)) (JString (MemoryJs.timestamp item))
       | JsObject.Inherited => Found JUndefined JUndefined
       | JsObject.Absent =>
           NotFound ("Context not found: " ++ dq ++ key ++ dq)
       end).

(** The test of [searchMemory] on an entry. *)
Definition matches (query : string) (entry : string * Item) : bool :=
  includes (toLowerCase entry.1) (toLowerCase query)
  || includes (toLowerCase (MemoryJs.value entry.2)) (toLowerCase query).

(** Search memory for partial matches *)
Definition searchMemory (query : string) : M Disk SearchResults :=
  let* memory := loadMemory in
  let hits (type : string) (o : JsObject.object Item) :=
    map (fun entry : string * Item =>
           mkHit type entry.1 (MemoryJs.value entry.2) (MemoryJs.timestamp entry.2))
        (List.filter (matches query) (JsObject.entries o)) in
  let results :=
    (hits "userData" (userData memory) ++ hits "context" (context memory))%list in
  ret (mkSearchResults query results (List.length results)).

(** Get memory statistics *)
Definition getMemoryStats : M Disk Stats :=
  let* memory := loadMemory in
  ret (mkStats (List.length (JsObject.keys (userData memory)))
         (List.length (JsObject.keys (context memory)))
         (List.length (commandHistory memory))
         (lastUpdated memory)
         (stringifyLength memory)).

(** The module as [commandUtils.js] uses it: the properties of the
    results the executor reads.  A value that is [undefined] prints as
    such, and the date made of it is as invalid as the one made of that
    text. *)
Definition exports : CommandUtils.MemoryModule Disk := {|
  CommandUtils.saveMemory := fun key value =>
    let* r := saveMemory key value in
    ret (CommandUtils.mkSaveStatus (status r) (message r));
  CommandUtils.getMemory := fun key =>
    let* r := getMemory key in
    ret (match r with
         | Found v t =>
             CommandUtils.Found (CommandUtils.template v) (CommandUtils.template t)
         | NotFound m => CommandUtils.NotFound m
         end);
  CommandUtils.getAllMemory :=
    let* r := getAllMemory in
    ret (CommandUtils.mkAllMemory
           (map (fun entry : string * Item => (entry.1, MemoryJs.value entry.2))
              (JsObject.entries (all_userData r)))
           (totalItems r));
  CommandUtils.clearMemory :=
    let* r := clearMemory in
    ret (CommandUtils.mkSaveStatus (status r) (message r));
  CommandUtils.searchMemory := fun query =>
    let* r := searchMemory query in
    ret (CommandUtils.mkSearchResults (count r)
           (map (fun h => CommandUtils.mkSearchItem (hit_key h) (hit_value h)
                            (hit_type h))
              (results r)));
  CommandUtils.getMemoryStats :=
    let* r := getMemoryStats in
    ret (CommandUtils.mkMemoryStats (totalUserData r) (totalContext r)
           (totalCommands r) (stats_lastUpdated r) (memorySize r));
  CommandUtils.getCommandHistory :=
    let* history := getCommandHistory None in
    ret (map (fun e => CommandUtils.mkHistoryEntry
                         (CommandUtils.template (command e)) (entry_timestamp e))
           history);
  CommandUtils.addCommandToHistory := fun command result =>
    let* _ := addCommandToHistory command result in
    ret tt
|}.

End Module.

End MemoryJs.

(** ** The backend process: [executeCommand] wired to its modules *)

Module Backend.
Import JsString JsValue Effects NodeFs CommandUtils.

(** The world a command runs in: the files the file operations work on,
    the events the shell runner has emitted so far, and the state of the
    memory module.  The memory file is kept with the memory module and not
    among the files, and what a subprocess does to the files is not
    modelled: what is stated below of the files or of the memory after a
    command is stated for commands whose file operation and subprocess
    leave [memory.json] alone, or is made for memory commands, which run
    neither. *)
Record World (Mem : Type) := mkWorld {
  fs : gmap string node;
  events : list Event;
  memory : Mem
}.
Arguments mkWorld {Mem} fs events memory.
Arguments fs {Mem} w.
Arguments events {Mem} w.
Arguments memory {Mem} w.

Section Process.
Context {Mem : Type} `{MemoryModule Mem}.
Variables (homedir cwd : string).
Variable child_process_exec : string -> ExecCall.
Variable dirSize : nat.
Variable mtimeDate : string -> string.
Variable localeCompare : string -> string -> Z.
Variable toLocaleString : string -> string.

(** A call into the memory module touches its state only. *)
Definition in_memory {A} (m : M Mem A) : M (World Mem) A :=
  fun w =>
    let '(o, mem') := m (memory w) in
    (o, mkWorld (fs w) (events w) mem').

Definition run_parseCommand (commandText : JsValue)
  : M (World Mem) CommandParser.ParseResult :=
  ret (CommandParser.parseCommand commandText).

(** [new FileOperations(WORKING_DIR)[fn](...args)]; calling what is not
    a method is a [TypeError]. *)
Definition run_fileOperation (fn : string) (args : list string)
  : M (World Mem) FileOps.OpResult :=
  fun w =>
    match FileOps.method (WORKING_DIR homedir) cwd dirSize mtimeDate
            localeCompare fn args with
    | Some method =>
        let '(r, st') := method (fs w) in
        (Returned r, mkWorld st' (events w) (memory w))
    | None =>
        (Thrown (mkJsError "fileOps[parseResult.fn] is not a function"), w)
    end.

(** [await executeShellCommand(command)]: a rejected promise throws. *)
Definition run_executeShellCommand (command : JsValue)
  : M (World Mem) ShellResult :=
  fun w =>
    let '(r, evs) := executeShellCommand homedir child_process_exec command in
    (r, mkWorld (fs w) (events w ++ evs) (memory w)).

Definition executeCommand : JsValue -> M (World Mem) ExecutionResult :=
  CommandUtils.executeCommand
    run_parseCommand
    (fun fn args => in_memory (executeMemoryOperation toLocaleString fn args))
    run_fileOperation
    run_executeShellCommand
    (fun commandText r => in_memory (addCommandToHistory commandText r)).

End Process.

End Backend.

(** ** The earlier revision of commandUtils.js

    Its shell runner logs through [security.logCommand] and reports no
    error code; its [executeCommand] has no catch-all around the parser. *)

Module CommandUtilsLegacy.
Import JsString JsValue Effects Effects.Notations CommandUtils.

Section ShellRunner.
Variable homedir : string.
Variable child_process_exec : string -> ExecCall.

Definition executeShellCommand (command : JsValue)
  : Outcome ShellResult * list Event :=
  let securityCheck := Security.isCommandSafe command in
  match command, Security.safe securityCheck with
  | JString cmd, true =>
      let called :=
        [LogSecurity cmd "ALLOWED" "Command passed security checks";
         Exec cmd (WORKING_DIR homedir) 10000 (1024 * 1024)] in
      match child_process_exec cmd with
      | Throws error => (Thrown error, called)
      | CallsBack o =>
          let '(r, ev) :=
            match exec_error o with
            | Some error =>
                (mkShellResult false (or_else (stderr o) (err_message error))
                   false None,
                 LogSecurity cmd "ERROR" (err_message error))
            | None =>
                (mkShellResult true
                   (or_else (stdout o) "Command executed successfully")
                   false None,
                 LogSecurity cmd "SUCCESS" "Command executed successfully")
            end in
          (Returned r, (called ++ [ev])%list)
      end
  | _, _ =>
      (Returned
         (mkShellResult false
            ("🚫 Command blocked for security: " ++ template command ++ nl
             ++ "Reason: " ++ Security.reason securityCheck
             ++ match Security.suggestion securityCheck with
                | Some suggestion => nl ++ "Suggestion: " ++ suggestion
                | None => ""
                end)
            true None),
       [LogSecurity (template command) "BLOCKED"
          (Security.reason securityCheck)])
  end.
End ShellRunner.

Section Executor.
Import CommandParser.
Context {W : Type}.
Variable parseCommand : JsValue -> M W ParseResult.
Variable executeMemoryOperation : string -> list string -> M W OpResult.
Variable fileOperation : string -> list string -> M W FileOps.OpResult.
Variable executeShellCommand : JsValue -> M W ShellResult.
Variable addCommandToHistory : JsValue -> HistoryResult -> M W unit.

Definition executeCommand (commandText : JsValue) : M W ExecutionResult :=
  let* parseResult := parseCommand commandText in
  match parseResult with
  | ParseError error =>
      ret (mkExecutionResult commandText "Parse Error" error false None None)
  | MemoryOp fn args _ =>
      try_catch
        (let* result := executeMemoryOperation fn args in
         let* _ := addCommandToHistory commandText (OfMemoryOp result) in
         ret (mkExecutionResult commandText (op_action result)
                (op_result result) (op_success result) None None))
        (fun error =>
           ret (mkExecutionResult commandText "Memory Operation Error"
                  ("Error executing memory operation: " ++ message error)
                  false None None))
  | FileOp fn args _ =>
      try_catch
        (let* result := fileOperation fn args in
         let* _ := addCommandToHistory commandText (OfFileOp result) in
         ret (mkExecutionResult commandText (FileOps.action result)
                (FileOps.result result) (FileOps.success result) None None))
        (fun error =>
           ret (mkExecutionResult commandText "File Operation Error"
                  ("Error executing file operation: " ++ message error)
                  false None None))
  | Shell command _ =>
      try_catch
        (let* result := executeShellCommand (JString command) in
         let* _ := addCommandToHistory commandText (OfShell result) in
         ret (mkExecutionResult commandText "Shell Command" (output result)
                (sh_success result) None None))
        (fun error =>
           ret (mkExecutionResult commandText "Shell Command Error"
                  ("Error executing shell command: " ++ message error)
                  false None None))
  | OtherType _ =>
      ret (mkExecutionResult commandText "Unknown Command"
             "Command type not recognized" false None None)
  end.
End Executor.

End CommandUtilsLegacy.

(** ** server.js: what [POST /command] makes of a result

    The handler awaits [executeCommand] and derives from the result the
    status it logs, the status it stores in the history and broadcasts,
    and the body of the response. *)

Module Server.
Import JsString CommandUtils.

(** [result.blocked], as a condition. *)
Definition is_blocked (result : ExecutionResult) : bool :=
  match blocked result with
  | Some b => b
  | None => false
  end.

(** [result.success ? 'SUCCESS' : (result.blocked ? 'BLOCKED' : 'ERROR')] *)
Definition logStatus (result : ExecutionResult) : string :=
  if success result then "SUCCESS"
  else if is_blocked result then "BLOCKED" else "ERROR".

(** [result.success ? 'success' : (result.blocked ? 'blocked' : 'error')] *)
Definition historyStatus (result : ExecutionResult) : string :=
  if success result then "success"
  else if is_blocked result then "blocked" else "error".

(** The body of the response: [{ status, message, code, data: { command,
    result, error } }]. *)
Record Response := mkResponse {
  status : string;
  message : string;
  code : string;
  data_command : JsValue.JsValue;
  data_result : option string;
  data_error : option string
}.

(** Determine response status and message with error codes *)
Definition response (commandText : JsValue.JsValue) (result : ExecutionResult)
  : Response :=
  let '(status, message, code) :=
    if is_blocked result then
      ("blocked", "Command blocked by security rules", "E_COMMAND_BLOCKED")
    else if success result then
      ("success",
       or_else (CommandUtils.result result) "Command executed successfully",
       "SUCCESS")
    else
      ("error",
       or_else (CommandUtils.result result) "Command execution failed",
       match CommandUtils.code result with
       | Some c => or_else c "E_COMMAND_FAILED"
       | None => "E_COMMAND_FAILED"
       end) in
  mkResponse status message code commandText
    (if success result then Some (CommandUtils.result result) else None)
    (if success result then None
     else Some (or_else (CommandUtils.result result) "Unknown error")).

End Server.

(** ** Words of the specification

    Notions the specification uses and the code has no function for. *)

Module SpecWords.
Import JsString JsValue.

(** A text of ASCII characters.  On such a text the white space, the
    letter case and the character classes modelled above are those of
    JavaScript. *)
Fixpoint ascii_text (s : string) : bool :=
  match s with
  | "" => true
  | String c s' => (nat_of_ascii c <? 128)%nat && ascii_text s'
  end.





(** A text that neither starts nor ends with white space (and is not
    empty): trimming a command cannot cut into it.  The white space is
    the ASCII one, so this says what it should of an ASCII text. *)
Definition solid (t : string) : bool :=
  match t with
  | "" => false
  | String c _ =>
      negb (is_space c)
      && match last_char t with
         | Some d => negb (is_space d)
         | None => false
         end
  end.

(** The chaining operators and the substitution syntax. *)
Definition chaining_tokens : list string := ["&&"; "||"; ";"; "`"; "$("].

Definition is_nonempty_string (v : JsValue) : bool :=
  match v with
  | JString s => negb (String.eqb s "")
  | _ => false
  end.

(** The components of [p] extend those of [root]: [p] is [root] or lies
    below it in the directory tree. *)
Fixpoint is_prefix_of (xs ys : list string) : bool :=
  match xs, ys with
  | [], _ => true
  | _ :: _, [] => false
  | x :: xs', y :: ys' => String.eqb x y && is_prefix_of xs' ys'
  end.

Definition inside_directory (root p : string) : bool :=
  is_prefix_of (NodePath.segments root) (NodePath.segments p).

(** The rows of a pattern table build results of one tag. *)
Definition rows_tagged (tag : string) (patterns : list CommandParser.Pattern)
  : Prop :=
  Forall (fun p => forall fn args inp,
            CommandParser.type (CommandParser.p_type p fn args inp) = tag)
    patterns.

(** A character occurs in a text. *)
Fixpoint has_char (c : ascii) (s : string) : bool :=
  match s with
  | "" => false
  | String d s' => Ascii.eqb d c || has_char c s'
  end.

(** A path component as [path.resolve] leaves it: not empty, without a
    separator, and neither [.] nor [..]. *)
Definition plain_segment (x : string) : bool :=
  negb (String.eqb x "") && negb (has_char "/"%char x)
  && negb (String.eqb x ".") && negb (String.eqb x "..").

End SpecWords.

(** ** Concrete worlds for the examples *)

Module Scenario.
Import JsString JsValue Effects NodeFs CommandUtils.

Definition homedir : string := "/home/user".
Definition cwd : string := "/srv/voice-cmd/backend".
Definition root : string := "/home/user/Desktop/VOICE-CMD".

(** The sandbox with one file, [a.txt], in its root. *)
Definition sandbox : gmap string node :=
  list_to_map [
    ("/home", Directory);
    ("/home/user", Directory);
    ("/home/user/Desktop", Directory);
    ("/home/user/Desktop/VOICE-CMD", Directory);
    ("/home/user/Desktop/VOICE-CMD/a.txt", File "hello")
  ].

(** Subprocesses that print nothing and exit with status 0. *)
Definition quiet_exec (command : string) : ExecCall :=
  CallsBack (mkExecOutcome None "" "").

(** A machine on which the working directory is a file: the shell cannot
    be started, and [exec] throws the error of the spawn. *)
Definition enotdir_exec (command : string) : ExecCall :=
  Throws (mkJsError "spawn /bin/sh ENOTDIR").

(** A subprocess that is still running after ten seconds: [exec] ends it
    with [SIGTERM] and hands the callback an error without a code. *)
Definition timeout_exec (command : string) : ExecCall :=
  CallsBack
    (mkExecOutcome
       (Some (mkExecError NoCode (Some "SIGTERM")
                ("Command failed: " ++ command ++ nl)))
       "" "").

(** A machine on which the program of the command is not installed:
    [/bin/sh] says so on its standard error and exits with status 127. *)
Definition missing_binary_exec (command : string) : ExecCall :=
  let said :=
    "/bin/sh: 1: " ++ split_head " "%char command ++ ": not found" ++ nl in
  CallsBack
    (mkExecOutcome
       (Some (mkExecError (ExitCode 127) None
                ("Command failed: " ++ command ++ nl ++ said)))
       "" said).

Definition collation (a b : string) : Z :=
  match String.compare a b with
  | Lt => (-1)%Z
  | Eq => 0%Z
  | Gt => 1%Z
  end.

Definition write_failed : JsError :=
  mkJsError "EACCES: permission denied, open 'memory.json'".

(** A memory module without state whose file cannot be written: what reads
    succeeds, what writes throws. *)
#[local] Instance read_only_memory : MemoryModule unit := {|
  saveMemory := fun _ _ => throw write_failed;
  getMemory := fun k => ret (NotFound ("Memory not found: " ++ dq ++ k ++ dq));
  getAllMemory := ret (mkAllMemory [] 0);
  clearMemory := throw write_failed;
  searchMemory := fun _ => ret (mkSearchResults 0 []);
  getMemoryStats := ret (mkMemoryStats 0 0 0 "" 0);
  getCommandHistory := ret [];
  addCommandToHistory := fun _ _ => throw write_failed
|}.

(** A memory module that keeps the commands it is told of. *)
#[local] Instance history_memory : MemoryModule (list JsValue) := {|
  saveMemory := fun k v =>
    ret (mkSaveStatus "success"
           ("Memory saved: " ++ dq ++ k ++ dq ++ " = " ++ dq ++ v ++ dq));
  getMemory := fun k => ret (NotFound ("Memory not found: " ++ dq ++ k ++ dq));
  getAllMemory := ret (mkAllMemory [] 0);
  clearMemory := ret (mkSaveStatus "success" "All memory cleared successfully");
  searchMemory := fun _ => ret (mkSearchResults 0 []);
  getMemoryStats := ret (mkMemoryStats 0 0 0 "" 0);
  getCommandHistory := ret [];
  addCommandToHistory := fun c _ => fun h => (Returned tt, c :: h)
|}.

Definition world0 {Mem} (m : Mem) : Backend.World Mem :=
  Backend.mkWorld sandbox [] m.

(** The backend over [read_only_memory] and over [history_memory]. *)
Definition run_read_only (exec : string -> ExecCall) (commandText : JsValue) :=
  Backend.executeCommand (H := read_only_memory) homedir cwd exec 4096
    (fun _ => "2024-01-01") collation (fun t => t) commandText (world0 tt).

Definition run_with_history (exec : string -> ExecCall) (commandText : JsValue) :=
  Backend.executeCommand (H := history_memory) homedir cwd exec 4096
    (fun _ => "2024-01-01") collation (fun t => t) commandText (world0 []).

End Scenario.

(** ** Notions for the statements about the parser and the memory *)

Module Notions.
Import JsString JsRegExp.

(** The loop of a quantifier, as [rmatch] runs it. *)
Fixpoint star_loop (icase greedy : bool) (r1 : regex)
    (k : string -> captures -> option captures)
    (fuel : nat) (s : string) (caps : captures) {struct fuel}
  : option captures :=
  match fuel with
  | O => k s caps
  | S fuel' =>
      let more :=
        rmatch icase r1 s caps (fun s' caps' =>
          if (String.length s' <? String.length s)%nat
          then star_loop icase greedy r1 k fuel' s' caps' else None) in
      if greedy then orelse more (k s caps)
      else orelse (k s caps) more
  end.

(** Every match of the expression holds a white-space character. *)
Fixpoint needs_space (r : regex) : bool :=
  match r with
  | REps => false
  | RChar c => is_space c
  | RClass CSpace => true
  | RClass _ => false
  | RSeq r1 r2 => needs_space r1 || needs_space r2
  | RAlt r1 r2 => needs_space r1 && needs_space r2
  | RStar _ _ => false
  | RGroup _ r1 => needs_space r1
  end.

Fixpoint all_chars (p : ascii -> bool) (s : string) : bool :=
  match s with
  | "" => true
  | String c s' => p c && all_chars p s'
  end.

(** A text without white space, and a word: such a text that is not
    empty.  The white space is the ASCII one: of a text that is not
    [SpecWords.ascii_text] these say less than their names. *)
Definition spaceless (s : string) : bool :=
  all_chars (fun c => negb (is_space c)) s.

Definition word (s : string) : bool :=
  negb (String.eqb s "") && spaceless s.

(** A text without line terminators: what [.] can match all of (again
    for an ASCII text). *)
Definition one_line (s : string) : bool := all_chars (in_class CAny) s.

(** The memory [loadMemory] returns in a state of the disk: the content
    of the file, or the empty structure dated with the next reading of the
    clock. *)
Definition loaded (toISOString : nat -> string) (d : MemoryJs.Disk)
  : MemoryJs.Memory :=
  match MemoryJs.memoryFile d with
  | Some memory => memory
  | None => MemoryJs.mkMemory [] [] [] (toISOString (MemoryJs.clock d))
  end.

End Notions.

(** * Properties *)

(** ** Facts about the string built-ins *)

Module JsStringFacts.
Import JsString SpecWords.

Lemma append_nil (b : string) : "" ++ b = b.
Proof. reflexivity. Qed.

Lemma append_cons (c : ascii) (a b : string) :
  String c a ++ b = String c (a ++ b).
Proof. reflexivity. Qed.

Lemma append_assoc (a b c : string) : (a ++ b) ++ c = a ++ b ++ c.
Proof.
  induction a as [|x a IH]; [reflexivity|].
  now rewrite !append_cons, IH.
Qed.

Lemma startsWith_app (t b : string) : startsWith (t ++ b) t = true.
Proof.
  induction t as [|c t IH]; [reflexivity|].
  rewrite append_cons. simpl. now rewrite Ascii.eqb_refl, IH.
Qed.

Lemma startsWith_inv (s t : string) :
  startsWith s t = true -> exists b, s = t ++ b.
Proof.
  revert s; induction t as [|c t IH]; intros s Hs.
  - now exists s.
  - destruct s as [|d s]; [discriminate|]. simpl in Hs.
    apply andb_prop in Hs as [Hc Ht].
    apply Ascii.eqb_eq in Hc; subst d.
    destruct (IH _ Ht) as [b ->]. now exists b.
Qed.

Lemma includes_here (s t : string) : startsWith s t = true -> includes s t = true.
Proof. destruct s; simpl; intros ->; reflexivity. Qed.

Lemma includes_cons (c : ascii) (s t : string) :
  includes s t = true -> includes (String c s) t = true.
Proof. simpl; intros ->; apply orb_true_r. Qed.

Lemma includes_app (a t b : string) : includes (a ++ t ++ b) t = true.
Proof.
  induction a as [|c a IH].
  - rewrite append_nil. apply includes_here, startsWith_app.
  - rewrite append_cons. now apply includes_cons.
Qed.

Lemma includes_inv (s t : string) :
  includes s t = true -> exists a b, s = a ++ t ++ b.
Proof.
  induction s as [|c s IH]; simpl; intros Hs.
  - rewrite orb_false_r in Hs.
    destruct (startsWith_inv _ _ Hs) as [b Hb]. exists "", b. exact Hb.
  - apply orb_prop in Hs as [Hs|Hs].
    + destruct (startsWith_inv _ _ Hs) as [b Hb]. exists "", b. exact Hb.
    + destruct (IH Hs) as (a & b & ->). now exists (String c a), b.
Qed.

Lemma includes_app_l (a s t : string) :
  includes s t = true -> includes (a ++ s) t = true.
Proof.
  intros Hs; induction a as [|c a IH]; [exact Hs|].
  rewrite append_cons. now apply includes_cons.
Qed.

Lemma includes_app_r (s b t : string) :
  includes s t = true -> includes (s ++ b) t = true.
Proof.
  intros Hs. destruct (includes_inv _ _ Hs) as (a & b' & ->).
  rewrite !append_assoc. apply includes_app.
Qed.

Lemma toLowerCase_app (a b : string) :
  toLowerCase (a ++ b) = toLowerCase a ++ toLowerCase b.
Proof.
  induction a as [|c a IH]; [reflexivity|].
  rewrite append_cons. simpl. now rewrite IH.
Qed.

Lemma includes_toLowerCase (s t : string) :
  includes s t = true -> includes (toLowerCase s) (toLowerCase t) = true.
Proof.
  intros Hs. destruct (includes_inv _ _ Hs) as (a & b & ->).
  rewrite !toLowerCase_app. apply includes_app.
Qed.

Lemma is_space_lower_char (c : ascii) : is_space (lower_char c) = is_space c.
Proof.
  destruct c as [[] [] [] [] [] [] [] []]; reflexivity.
Qed.

Lemma lower_char_idem (c : ascii) : lower_char (lower_char c) = lower_char c.
Proof.
  destruct c as [[] [] [] [] [] [] [] []]; reflexivity.
Qed.

Lemma toLowerCase_idem (s : string) : toLowerCase (toLowerCase s) = toLowerCase s.
Proof.
  induction s as [|c s IH]; simpl; [reflexivity|].
  now rewrite lower_char_idem, IH.
Qed.

Lemma trimStart_toLowerCase (s : string) :
  trimStart (toLowerCase s) = toLowerCase (trimStart s).
Proof.
  induction s as [|c s IH]; simpl; [reflexivity|].
  rewrite is_space_lower_char. destruct (is_space c); [exact IH | reflexivity].
Qed.

Lemma trimEnd_toLowerCase (s : string) :
  trimEnd (toLowerCase s) = toLowerCase (trimEnd s).
Proof.
  induction s as [|c s IH]; simpl; [reflexivity|].
  rewrite IH, is_space_lower_char.
  destruct (trimEnd s); simpl; [destruct (is_space c)|]; reflexivity.
Qed.

Lemma trim_toLowerCase (s : string) :
  trim (toLowerCase s) = toLowerCase (trim s).
Proof. unfold trim. now rewrite trimStart_toLowerCase, trimEnd_toLowerCase. Qed.

(** Trimming keeps a solid text where it is. *)
Lemma trimStart_keeps (a : string) (c : ascii) (x : string) :
  is_space c = false ->
  exists a', trimStart (a ++ String c x) = a' ++ String c x.
Proof.
  intros Hc; induction a as [|d a IH].
  - exists "". rewrite !append_nil. simpl. now rewrite Hc.
  - rewrite append_cons. simpl.
    destruct (is_space d); [exact IH|]. now exists (String d a).
Qed.

Lemma trimEnd_app_nonempty (u v : string) :
  trimEnd v <> "" -> trimEnd (u ++ v) = u ++ trimEnd v.
Proof.
  intros Hv; induction u as [|c u IH]; [reflexivity|].
  rewrite !append_cons. simpl. rewrite IH.
  destruct (u ++ trimEnd v) eqn:E; [|reflexivity].
  destruct u; [rewrite append_nil in E; contradiction | discriminate].
Qed.

Lemma last_char_cons (c d : ascii) (t : string) :
  last_char (String c (String d t)) = last_char (String d t).
Proof. reflexivity. Qed.

Lemma trimEnd_last_nonspace (t b : string) (d : ascii) :
  last_char t = Some d -> is_space d = false ->
  trimEnd (t ++ b) = t ++ trimEnd b.
Proof.
  intros Hl Hd. induction t as [|c t IH]; [discriminate|].
  destruct t as [|c' t'].
  - rewrite !append_cons, !append_nil. simpl in Hl. injection Hl as ->.
    simpl. rewrite Hd. destruct (trimEnd b); reflexivity.
  - rewrite last_char_cons in Hl. specialize (IH Hl).
    rewrite (append_cons c (String c' t') b).
    change (trimEnd (String c (String c' t' ++ b)))
      with (match trimEnd (String c' t' ++ b) with
            | "" => if is_space c then "" else String c ""
            | r => String c r
            end).
    rewrite IH. reflexivity.
Qed.

Lemma trimEnd_solid (t b : string) :
  solid t = true -> trimEnd (t ++ b) = t ++ trimEnd b.
Proof.
  unfold solid. destruct t as [|c0 t0]; [discriminate|].
  intros H; apply andb_prop in H as [_ H].
  destruct (last_char (String c0 t0)) as [d|] eqn:Hl; [|discriminate].
  apply negb_true_iff in H. exact (trimEnd_last_nonspace _ b d Hl H).
Qed.

Lemma includes_trim (s t : string) :
  solid t = true -> includes s t = true -> includes (trim s) t = true.
Proof.
  intros Ht Hs. destruct (includes_inv _ _ Hs) as (a & b & ->).
  pose proof Ht as Ht'. unfold solid in Ht'.
  destruct t as [|c x]; [discriminate|].
  apply andb_prop in Ht' as [Hc _]. apply negb_true_iff in Hc.
  unfold trim. rewrite append_cons.
  destruct (trimStart_keeps a c (x ++ b) Hc) as [a' ->].
  rewrite <- append_cons.
  assert (E : trimEnd (String c x ++ b) = String c x ++ trimEnd b)
    by (now apply trimEnd_solid).
  rewrite trimEnd_app_nonempty; rewrite E.
  - apply includes_app.
  - rewrite append_cons. discriminate.
Qed.

(** What the policy engine looks at still contains a solid text the
    command contains, whatever the case of the command. *)
Lemma includes_normalized (s t : string) :
  solid t = true ->
  includes (toLowerCase s) t = true ->
  includes (toLowerCase (trim s)) t = true.
Proof.
  intros Ht Hs. rewrite <- trim_toLowerCase. now apply includes_trim.
Qed.

Lemma includes_normalized_same_case (s t : string) :
  solid t = true -> toLowerCase t = t ->
  includes s t = true ->
  includes (toLowerCase (trim s)) t = true.
Proof.
  intros Ht Hl Hs. apply includes_normalized; [exact Ht|].
  rewrite <- Hl. now apply includes_toLowerCase.
Qed.

Lemma array_includes_In (xs : list string) (x : string) :
  array_includes xs x = true <-> In x xs.
Proof.
  unfold array_includes. rewrite existsb_exists. split.
  - intros (y & Hy & E). apply String.eqb_eq in E. now subst.
  - intros Hx. exists x. split; [exact Hx | apply String.eqb_refl].
Qed.




End JsStringFacts.

(** ** The policy engine: [isCommandSafe] *)

Module SecurityFacts.
Import JsString JsRegExp JsValue Security SpecWords JsStringFacts.


Lemma blocked_literal_hit (t b : string) :
  In b blockedCommands -> includes t (toLowerCase b) = true ->
  blocked_literal t <> None.
Proof.
  intros Hb Hi Hnone. unfold blocked_literal in Hnone.
  pose proof (find_none _ _ Hnone b Hb) as H. simpl in H. congruence.
Qed.

Lemma blocked_regexp_hit (cmd : string) (p : RegExp) :
  In p blockedPatterns -> test p cmd = true -> blocked_regexp cmd <> None.
Proof.
  intros Hp Ht Hnone. unfold blocked_regexp in Hnone.
  pose proof (find_none _ _ Hnone p Hp) as H. simpl in H. congruence.
Qed.

Lemma blockedCommands_solid :
  forallb (fun b => solid (toLowerCase b)) blockedCommands = true.
Proof. vm_compute. reflexivity. Qed.

Lemma blockedCommands_entry (b : string) :
  In b blockedCommands -> solid (toLowerCase b) = true.
Proof.
  intros Hb. pose proof blockedCommands_solid as H.
  rewrite forallb_forall in H. exact (H b Hb).
Qed.

(** X29: the literal half of the denylist holds whatever the case of the
    command and the white space around it. *)
Lemma isCommandSafe_literal_blocks (cmd b : string) :
  In b blockedCommands ->
  includes (toLowerCase cmd) (toLowerCase b) = true ->
  safe (isCommandSafe (JString cmd)) = false.
Proof.
  intros Hb Hi. pose proof (blockedCommands_entry b Hb) as Hs.
  assert (Hhit : blocked_literal (toLowerCase (trim cmd)) <> None).
  { apply (blocked_literal_hit _ b Hb). now apply includes_normalized. }
  unfold isCommandSafe. destruct (negb (truthy (JString cmd))); [reflexivity|].
  destruct (blocked_literal (toLowerCase (trim cmd))); [reflexivity|].
  contradiction.
Qed.

(** A command that matches a pattern of the denylist as it is written is
    blocked. *)
Lemma isCommandSafe_pattern_blocks (cmd : string) (p : RegExp) :
  In p blockedPatterns -> test p cmd = true ->
  safe (isCommandSafe (JString cmd)) = false.
Proof.
  intros Hp Ht. pose proof (blocked_regexp_hit cmd p Hp Ht) as Hhit.
  unfold isCommandSafe. destruct (negb (truthy (JString cmd))); [reflexivity|].
  destruct (blocked_literal (toLowerCase (trim cmd))); [reflexivity|].
  destruct (blocked_regexp cmd); [reflexivity | contradiction].
Qed.

(** C4: the pattern half of the denylist depends on letter case.  The
    command [echo kill -9  42] matches the pattern [kill\s+-9\s+[0-9]+] and
    is blocked; written [echo KILL -9  42] it hits no literal, the
    case-sensitive patterns are tested against the command as typed, and
    the verdict is [safe: true]. *)
Theorem isCommandSafe_pattern_case_sensitive :
  let typed := "echo KILL -9  42" in
  toLowerCase typed = "echo kill -9  42"
  /\ (exists p, In p blockedPatterns /\ re_source p = "kill\s+-9\s+[0-9]+"
                /\ test p (toLowerCase typed) = true)
  /\ safe (isCommandSafe (JString (toLowerCase typed))) = false
  /\ blocked_literal (toLowerCase (trim typed)) = None
  /\ blocked_regexp typed = None
  /\ isCommandSafe (JString typed)
     = mkCommandVerdict true "Command is safe" false None None.
Proof.
  cbv zeta. split; [reflexivity|]. split.
  - exists (nth 5 blockedPatterns (mkRegExp "" false REps)).
    split; [|split]; [|reflexivity|vm_compute; reflexivity].
    vm_compute. do 5 right. left. reflexivity.
  - repeat split; vm_compute; reflexivity.
Qed.

Lemma chaining_tokens_solid :
  forallb (fun t => solid t && String.eqb (toLowerCase t) t) chaining_tokens = true.
Proof. vm_compute. reflexivity. Qed.

(** C5: a command that contains [&&], [||], [;], a backtick or [$(] is
    never judged safe, whatever its base command. *)
Theorem isCommandSafe_chaining_blocked (cmd tok : string) :
  In tok chaining_tokens -> includes cmd tok = true ->
  safe (isCommandSafe (JString cmd)) = false.
Proof.
  intros Htok Hi.
  assert (Hn : includes (toLowerCase (trim cmd)) tok = true).
  { pose proof chaining_tokens_solid as H. rewrite forallb_forall in H.
    specialize (H tok Htok). apply andb_prop in H as [H1 H2].
    apply String.eqb_eq in H2. now apply includes_normalized_same_case. }
  unfold isCommandSafe. destruct (negb (truthy (JString cmd))); [reflexivity|].
  destruct (blocked_literal _); [reflexivity|].
  destruct (blocked_regexp _); [reflexivity|].
  destruct (negb (array_includes _ _)); [reflexivity|].
  unfold has_chaining, has_substitution.
  simpl in Htok.
  destruct Htok as [<-|[<-|[<-|[<-|[<-|[]]]]]]; rewrite Hn;
    rewrite ?orb_true_r; simpl;
    repeat match goal with
           | |- context [if ?b then _ else _] => destruct b
           end; reflexivity.
Qed.

Lemma isCommandSafe_chaining_blocked_witness :
  safe (isCommandSafe (JString "ls && rm -rf /")) = false.
Proof.
  apply (isCommandSafe_chaining_blocked "ls && rm -rf /" "&&").
  - simpl. left. reflexivity.
  - vm_compute. reflexivity.
Defined.








(** Only a string that is not empty gets a safe verdict. *)
Lemma isCommandSafe_safe_is_string (command : JsValue) :
  safe (isCommandSafe command) = true -> is_nonempty_string command = true.
Proof.
  destruct command as [| |b|n|cmd|]; try discriminate.
  unfold isCommandSafe. simpl truthy. simpl is_nonempty_string.
  destruct (negb (String.eqb cmd "")); [reflexivity | discriminate].
Qed.

(** C10: [blocked] is the negation of [safe] on every return of
    [isCommandSafe], and each return is one of its seven branches. *)
Theorem isCommandSafe_blocked_is_not_safe (command : JsValue) :
  let v := isCommandSafe command in
  blocked v = negb (safe v)
  /\ ((safe v = true /\ blocked v = false /\ reason v = "Command is safe")
      \/ (safe v = false /\ blocked v = true
          /\ (reason v = "Invalid command format"
              \/ (exists b, In b blockedCommands /\ pattern v = Some b
                    /\ reason v = "Command contains blocked pattern: " ++ dq ++ b ++ dq)
              \/ (exists p, In p blockedPatterns /\ pattern v = Some (toString p)
                    /\ reason v = "Command matches blocked pattern: " ++ toString p)
              \/ (exists base, ~ In base allowedCommands /\ suggestion v <> None
                    /\ reason v = "Command " ++ dq ++ base ++ dq ++ " not in allowlist")
              \/ reason v = "Command chaining not allowed for security"
              \/ reason v = "Command substitution not allowed for security"))).
Proof.
  cbv zeta. unfold isCommandSafe.
  destruct command as [| |b|n|cmd|];
    try (split; [reflexivity | right; repeat split; left; reflexivity]).
  destruct (negb (truthy (JString cmd)));
    [split; [reflexivity | right; repeat split; left; reflexivity]|].
  destruct (blocked_literal _) as [b|] eqn:Hl.
  { split; [reflexivity|]. right. repeat split. right. left.
    exists b. repeat split. unfold blocked_literal in Hl.
    now apply find_some in Hl as [Hl _]. }
  destruct (blocked_regexp _) as [p|] eqn:Hp.
  { split; [reflexivity|]. right. repeat split. right. right. left.
    exists p. repeat split. unfold blocked_regexp in Hp.
    now apply find_some in Hp as [Hp _]. }
  destruct (array_includes _ _) eqn:Hb; cbn [negb].
  2:{ split; [reflexivity|]. right. repeat split. do 3 right. left.
      eexists. repeat split; [|discriminate].
      intros Hin. apply array_includes_In in Hin. congruence. }
  destruct (has_chaining _).
  { split; [reflexivity|]. right. repeat split. do 4 right. left. reflexivity. }
  destruct (has_substitution _).
  { split; [reflexivity|]. right. repeat split. do 5 right. reflexivity. }
  split; [reflexivity|]. left. repeat split.
Qed.

End SecurityFacts.

(** ** The intent parser: [parseCommand] *)

Module CommandParserFacts.
Import JsString JsRegExp JsValue CommandParser SpecWords.

Lemma memoryOpPatterns_tagged : rows_tagged "memoryOp" memoryOpPatterns.
Proof. unfold rows_tagged, memoryOpPatterns. repeat constructor. Qed.

Lemma fileOpPatterns_tagged : rows_tagged "fileOp" fileOpPatterns.
Proof. unfold rows_tagged, fileOpPatterns. repeat constructor. Qed.

Lemma first_match_type (tag : string) (patterns : list Pattern) (inp : string)
    (r : ParseResult) :
  rows_tagged tag patterns -> first_match patterns inp = Some r -> type r = tag.
Proof.
  intros Hrows. induction Hrows as [|p ps Hp _ IH]; simpl; [discriminate|].
  destruct (match_ inp (p_regex p)); [|exact IH].
  intros [= <-]. apply Hp.
Qed.

Lemma first_match_none (patterns : list Pattern) (inp : string) :
  Forall (fun p => match_ inp (p_regex p) = None) patterns ->
  first_match patterns inp = None.
Proof.
  intros H. induction H as [|p ps Hp _ IH]; simpl; [reflexivity|].
  now rewrite Hp.
Qed.






(** Every file operation the parser returns names a method of
    [FileOperations] and carries the arguments the method reads. *)
Lemma fileOp_rows_callable (inp : string) (r : ParseResult) :
  first_match fileOpPatterns inp = Some r ->
  exists fn args, r = FileOp fn args inp /\
    forall workingDir cwd dirSize mtimeDate localeCompare,
      FileOps.method workingDir cwd dirSize mtimeDate localeCompare fn args <> None.
Proof.
  unfold fileOpPatterns. simpl.
  repeat match goal with
         | |- context [match_ inp ?re] => destruct (match_ inp re)
         end;
    try discriminate;
    intros [= <-]; eexists _, _; (split; [reflexivity|]);
    intros; simpl; discriminate.
Qed.

End CommandParserFacts.

(** ** Node's [path]: resolving below a root *)

Module NodePathFacts.
Import JsString NodePath SpecWords JsStringFacts.

Lemma split_nonempty (sep : ascii) (s : string) : split sep s <> [].
Proof.
  induction s as [|c s IH]; simpl; [discriminate|].
  destruct (Ascii.eqb c sep); [discriminate|].
  destruct (split sep s); discriminate.
Qed.

Lemma split_app_sep (sep : ascii) (a b : string) :
  split sep (a ++ String sep b) = (split sep a ++ split sep b)%list.
Proof.
  induction a as [|c a IH].
  - rewrite append_nil. simpl. now rewrite Ascii.eqb_refl.
  - rewrite append_cons. simpl. destruct (Ascii.eqb c sep).
    + now rewrite IH.
    + rewrite IH. pose proof (split_nonempty sep a) as Hne.
      destruct (split sep a); [contradiction | reflexivity].
Qed.

Lemma split_no_sep (sep : ascii) (x : string) :
  has_char sep x = false -> split sep x = [x].
Proof.
  induction x as [|c x IH]; simpl; [reflexivity|].
  intros H. apply orb_false_elim in H as [Hc Hx].
  rewrite Hc, (IH Hx). reflexivity.
Qed.

Lemma split_pieces_no_sep (sep : ascii) (s x : string) :
  In x (split sep s) -> has_char sep x = false.
Proof.
  revert x. induction s as [|c s IH]; simpl; intros x Hx.
  - destruct Hx as [<-|[]]. reflexivity.
  - destruct (Ascii.eqb c sep) eqn:E.
    + destruct Hx as [<-|Hx]; [reflexivity | now apply IH].
    + pose proof (split_nonempty sep s) as Hne.
      destruct (split sep s) as [|w ws]; [contradiction|].
      destruct Hx as [<-|Hx].
      * simpl. rewrite E. apply IH. now left.
      * apply IH. now right.
Qed.

Lemma segments_app_slash (a b : string) :
  segments (a ++ "/" ++ b) = (segments a ++ segments b)%list.
Proof.
  unfold segments. change ("/" ++ b) with (String "/"%char b).
  now rewrite split_app_sep, List.filter_app.
Qed.

Lemma segments_slash (b : string) : segments ("/" ++ b) = segments b.
Proof.
  change ("/" ++ b) with ("" ++ "/" ++ b). now rewrite segments_app_slash.
Qed.

Lemma plain_segment_inv (x : string) :
  plain_segment x = true ->
  String.eqb x "" = false /\ has_char "/"%char x = false
  /\ String.eqb x "." = false /\ String.eqb x ".." = false.
Proof.
  unfold plain_segment. intros H.
  repeat (apply andb_prop in H as [H ?]).
  repeat split; now apply negb_true_iff.
Qed.

Lemma segments_plain (x : string) : plain_segment x = true -> segments x = [x].
Proof.
  intros H. destruct (plain_segment_inv x H) as (Hne & Hs & _).
  unfold segments. rewrite (split_no_sep _ _ Hs). simpl. now rewrite Hne.
Qed.

Lemma segments_join (xs : list string) :
  Forall (fun x => plain_segment x = true) xs -> segments (join "/" xs) = xs.
Proof.
  induction 1 as [|x xs Hx Hxs IH]; [reflexivity|].
  destruct xs as [|y ys].
  - simpl. now apply segments_plain.
  - change (join "/" (x :: y :: ys)) with (x ++ "/" ++ join "/" (y :: ys)).
    rewrite segments_app_slash, IH, (segments_plain x Hx). reflexivity.
Qed.

(** The pieces [segments] returns are not empty and hold no separator. *)
Lemma segments_pieces (p x : string) :
  In x (segments p) -> String.eqb x "" = false /\ has_char "/"%char x = false.
Proof.
  unfold segments. intros H. apply filter_In in H as [Hin Hne].
  split; [now apply negb_true_iff | now apply (split_pieces_no_sep _ p)].
Qed.

Lemma normalize_segments_app (f : bool) (xs ys acc : list string) :
  normalize_segments f acc (xs ++ ys)
  = normalize_segments f (rev (normalize_segments f acc xs)) ys.
Proof.
  revert acc. induction xs as [|x xs IH]; intros acc.
  - simpl. now rewrite rev_involutive.
  - simpl. destruct (String.eqb x "."); [apply IH|].
    destruct (String.eqb x ".."); [|apply IH].
    destruct acc as [|top acc']; [apply IH|].
    destruct (String.eqb top ".."); apply IH.
Qed.

Lemma normalize_segments_plain (f : bool) (ys acc : list string) :
  Forall (fun x => plain_segment x = true) ys ->
  normalize_segments f acc ys = (rev acc ++ ys)%list.
Proof.
  intros H. revert acc. induction H as [|y ys Hy _ IH]; intros acc.
  - simpl. now rewrite app_nil_r.
  - destruct (plain_segment_inv y Hy) as (_ & _ & Hd & Hdd).
    simpl. rewrite Hd, Hdd, IH. simpl. now rewrite <- app_assoc.
Qed.

(** Below the root, normalizing leaves plain components only. *)
Lemma normalize_segments_result (xs acc : list string) :
  Forall (fun x => plain_segment x = true) acc ->
  Forall (fun x => String.eqb x "" = false /\ has_char "/"%char x = false) xs ->
  Forall (fun x => plain_segment x = true) (normalize_segments false acc xs).
Proof.
  intros Hacc Hxs. revert acc Hacc.
  induction Hxs as [|x xs [Hne Hs] _ IH]; intros acc Hacc.
  - simpl. now apply Forall_rev.
  - simpl. destruct (String.eqb x ".") eqn:Hd; [now apply IH|].
    destruct (String.eqb x "..") eqn:Hdd.
    + destruct acc as [|top acc']; [now apply IH|].
      destruct (String.eqb top ".."); apply IH; [exact Hacc|].
      now inversion Hacc.
    + apply IH. constructor; [|exact Hacc].
      unfold plain_segment. now rewrite Hne, Hs, Hd, Hdd.
Qed.

Lemma normalized_home_plain (homedir : string) :
  Forall (fun x => plain_segment x = true)
    (normalize_segments false [] (segments homedir)).
Proof.
  apply normalize_segments_result; [constructor|].
  apply List.Forall_forall. intros x Hx. now apply (segments_pieces homedir).
Qed.

Lemma last_char_app (a : string) (c : ascii) (b : string) :
  last_char (a ++ String c b) = last_char (String c b).
Proof.
  induction a as [|d a IH]; [reflexivity|].
  rewrite append_cons. destruct a as [|d' a'].
  - rewrite append_nil. reflexivity.
  - rewrite append_cons in *. exact IH.
Qed.

Lemma eqb_app_nonempty (a : string) (c : ascii) (b : string) :
  String.eqb (a ++ String c b) "" = false.
Proof. destruct a; reflexivity. Qed.

Lemma join_snoc (sep : string) (xs : list string) (y : string) :
  join sep (xs ++ [y]) = match xs with
                         | [] => y
                         | _ => join sep xs ++ sep ++ y
                         end.
Proof.
  induction xs as [|x xs IH]; [reflexivity|].
  destruct xs as [|x' xs'].
  - reflexivity.
  - change (join sep ((x :: x' :: xs') ++ [y]))
      with (x ++ sep ++ join sep ((x' :: xs') ++ [y])).
    rewrite IH.
    change (join sep (x :: x' :: xs')) with (x ++ sep ++ join sep (x' :: xs')).
    now rewrite !append_assoc.
Qed.

Lemma join_snoc_app (sep : string) (xs : list string) (y z : string) :
  join sep (xs ++ [y ++ z]) = join sep (xs ++ [y]) ++ z.
Proof.
  rewrite !join_snoc. destruct xs; [reflexivity|]. now rewrite !append_assoc.
Qed.

Lemma is_prefix_of_app (n a b : list string) :
  is_prefix_of (n ++ a) (n ++ b) = is_prefix_of a b.
Proof.
  induction n as [|x n IH]; [reflexivity|].
  simpl. now rewrite String.eqb_refl, IH.
Qed.

Lemma isAbsolute_inv (p : string) :
  isAbsolute p = true -> exists h, p = String "/" h.
Proof.
  unfold isAbsolute. destruct p as [|c h]; [discriminate|]. cbn [startsWith].
  rewrite andb_true_r. intros E. apply Ascii.eqb_eq in E. subst c. now exists h.
Qed.

(** The project root is the normalized home directory followed by
    [Desktop] and [VOICE-CMD]. *)
Lemma PROJECT_ROOT_segments (homedir : string) :
  isAbsolute homedir = true ->
  Security.PROJECT_ROOT homedir
  = "/" ++ join "/" (normalize_segments false [] (segments homedir)
                     ++ ["Desktop"; "VOICE-CMD"]).
Proof.
  intros Habs. destruct (isAbsolute_inv _ Habs) as [h ->].
  unfold Security.PROJECT_ROOT, join_paths.
  cbn [List.filter String.eqb negb].
  change (join "/" [String "/" h; "Desktop"; "VOICE-CMD"])
    with (String "/" h ++ "/" ++ "Desktop/VOICE-CMD").
  set (p := String "/" h ++ "/" ++ "Desktop/VOICE-CMD").
  set (home := normalize_segments false [] (segments (String "/" h))).
  assert (Hp1 : String.eqb p "" = false) by reflexivity.
  assert (Hp2 : isAbsolute p = true) by reflexivity.
  assert (Hp3 : endsWithChar p "/"%char = false).
  { unfold endsWithChar, p.
    change ("/" ++ "Desktop/VOICE-CMD") with (String "/" "Desktop/VOICE-CMD").
    now rewrite last_char_app. }
  assert (Hq : normalizeString p false
               = join "/" (home ++ ["Desktop"; "VOICE-CMD"])).
  { unfold normalizeString, p. rewrite segments_app_slash.
    change (segments "Desktop/VOICE-CMD") with ["Desktop"; "VOICE-CMD"].
    rewrite normalize_segments_app.
    rewrite normalize_segments_plain by (repeat constructor).
    now rewrite rev_involutive. }
  assert (Hne : String.eqb (join "/" (home ++ ["Desktop"; "VOICE-CMD"])) "" = false).
  { change (home ++ ["Desktop"; "VOICE-CMD"])%list
      with (home ++ ["Desktop"] ++ ["VOICE-CMD"])%list.
    rewrite app_assoc, join_snoc.
    destruct (home ++ ["Desktop"])%list eqn:E.
    - destruct home; discriminate.
    - change ("/" ++ "VOICE-CMD") with (String "/" "VOICE-CMD").
      apply eqb_app_nonempty. }
  unfold normalize. rewrite Hp1, Hp2, Hp3. cbn [negb]. rewrite Hq, Hne. reflexivity.
Qed.

Lemma resolve_under_root (cwd root p : string) :
  isAbsolute root = true -> String.eqb p "" = false -> isAbsolute p = false ->
  resolve cwd [root; p]
  = "/" ++ join "/" (normalize_segments false []
                       (segments root ++ segments p)).
Proof.
  intros Hroot Hp Hrel. unfold resolve. simpl rev. simpl app.
  destruct (isAbsolute_inv _ Hroot) as [r ->].
  cbn [resolve_loop]. rewrite Hp, Hrel.
  change (String.eqb (String "/" r) "") with false. rewrite Hroot.
  cbn [negb]. unfold normalizeString.
  rewrite segments_app_slash, segments_app_slash.
  change (segments "") with (@nil string). now rewrite app_nil_r.
Qed.

(** [..] then [VOICE-CMD-evil] from the project root: a sibling of the
    root whose name the root's name starts. *)
Lemma resolve_sibling (homedir cwd : string) :
  isAbsolute homedir = true ->
  resolve cwd [Security.PROJECT_ROOT homedir; "../VOICE-CMD-evil"]
  = "/" ++ join "/" (normalize_segments false [] (segments homedir)
                     ++ ["Desktop"; "VOICE-CMD-evil"]).
Proof.
  intros Habs.
  set (home := normalize_segments false [] (segments homedir)).
  pose proof (normalized_home_plain homedir) as Hhome. fold home in Hhome.
  assert (Hroot : Forall (fun x => plain_segment x = true)
                    (home ++ ["Desktop"; "VOICE-CMD"])).
  { apply Forall_app. split; [exact Hhome | repeat constructor]. }
  rewrite resolve_under_root; try reflexivity.
  2:{ now rewrite PROJECT_ROOT_segments. }
  rewrite (PROJECT_ROOT_segments homedir Habs). fold home.
  rewrite segments_slash, (segments_join _ Hroot).
  change (segments "../VOICE-CMD-evil") with [".."; "VOICE-CMD-evil"].
  rewrite normalize_segments_app, (normalize_segments_plain _ _ [] Hroot).
  change (rev [] ++ (home ++ ["Desktop"; "VOICE-CMD"]))%list
    with (home ++ ["Desktop"; "VOICE-CMD"])%list.
  rewrite rev_app_distr.
  change (rev ["Desktop"; "VOICE-CMD"] ++ rev home)%list
    with ("VOICE-CMD" :: "Desktop" :: rev home).
  change (normalize_segments false ("VOICE-CMD" :: "Desktop" :: rev home)
            [".."; "VOICE-CMD-evil"])
    with (rev ("VOICE-CMD-evil" :: "Desktop" :: rev home)).
  change (rev ("VOICE-CMD-evil" :: "Desktop" :: rev home))
    with ((rev (rev home) ++ ["Desktop"]) ++ ["VOICE-CMD-evil"])%list.
  now rewrite rev_involutive, <- app_assoc.
Qed.

(** C2: a path argument that resolves outside the sandbox root and is
    judged safe.  For a server whose home directory is an absolute path,
    [../VOICE-CMD-evil] resolves to the sibling [VOICE-CMD-evil] of the
    root, which is not below the root; its text starts with the root's, so
    [isPathSafe] returns [safe: true]. *)
Theorem isPathSafe_accepts_sibling_of_root (homedir cwd : string) :
  NodePath.isAbsolute homedir = true ->
  let root := Security.PROJECT_ROOT homedir in
  let v := Security.isPathSafe homedir cwd (JsValue.JString "../VOICE-CMD-evil") in
  Security.path_safe v = true
  /\ Security.path_blocked v = false
  /\ Security.resolvedPath v = Some (root ++ "-evil")
  /\ inside_directory root (root ++ "-evil") = false.
Proof.
  intros Habs. cbv zeta.
  set (home := normalize_segments false [] (segments homedir)).
  pose proof (normalized_home_plain homedir) as Hhome. fold home in Hhome.
  assert (Hres : resolve cwd [Security.PROJECT_ROOT homedir; "../VOICE-CMD-evil"]
                 = Security.PROJECT_ROOT homedir ++ "-evil").
  { rewrite resolve_sibling by exact Habs.
    rewrite (PROJECT_ROOT_segments homedir Habs). fold home.
    rewrite append_assoc.
    change (home ++ ["Desktop"; "VOICE-CMD-evil"])%list
      with (home ++ ["Desktop"] ++ [("VOICE-CMD" ++ "-evil")%string])%list.
    change (home ++ ["Desktop"; "VOICE-CMD"])%list
      with (home ++ ["Desktop"] ++ ["VOICE-CMD"])%list.
    now rewrite !app_assoc, join_snoc_app. }
  unfold Security.isPathSafe. cbn [JsValue.truthy String.eqb negb].
  rewrite Hres, startsWith_app. cbn [negb Security.path_safe Security.path_blocked
                                      Security.resolvedPath].
  repeat split.
  unfold inside_directory.
  rewrite <- Hres, resolve_sibling by exact Habs.
  rewrite (PROJECT_ROOT_segments homedir Habs). fold home.
  rewrite !segments_slash.
  rewrite !segments_join.
  - now rewrite is_prefix_of_app.
  - apply Forall_app. split; [exact Hhome | repeat constructor].
  - apply Forall_app. split; [exact Hhome | repeat constructor].
Qed.

Lemma isPathSafe_accepts_sibling_of_root_witness :
  Security.path_safe
    (Security.isPathSafe "/home/user" "/srv/app" (JsValue.JString "../VOICE-CMD-evil"))
  = true
  /\ Security.resolvedPath
       (Security.isPathSafe "/home/user" "/srv/app" (JsValue.JString "../VOICE-CMD-evil"))
     = Some "/home/user/Desktop/VOICE-CMD-evil"
  /\ inside_directory "/home/user/Desktop/VOICE-CMD"
       "/home/user/Desktop/VOICE-CMD-evil" = false.
Proof.
  pose proof (isPathSafe_accepts_sibling_of_root "/home/user" "/srv/app" eq_refl) as H.
  cbv zeta in H. destruct H as (H1 & _ & H3 & H4).
  split; [exact H1|]. split; [exact H3 | exact H4].
Defined.

End NodePathFacts.

(** ** File operations and the sandbox root *)

Module FileOpsFacts.
Import JsString JsValue NodeFs SpecWords Scenario.

(** C1: [moveFile] does not keep its destination below the sandbox root.
    In the sandbox that holds [a.txt], [moveFile("a.txt", "../../etc/passwd")]
    resolves the destination to [/home/user/etc/passwd], which is not below
    the root; it creates [/home/user/etc], renames the file there and returns
    [success: true].  [isPathSafe], which no file operation calls, would
    have refused the destination. *)
Theorem moveFile_leaves_sandbox_root :
  let r := FileOps.moveFile root cwd "a.txt" "../../etc/passwd" sandbox in
  sandbox !! (root ++ "/a.txt") = Some (File "hello")
  /\ sandbox !! "/home/user/etc/passwd" = None
  /\ FileOps.success r.1 = true
  /\ FileOps.result r.1 = "File 'a.txt' moved to '../../etc/passwd' successfully ✅"
  /\ r.2 !! (root ++ "/a.txt") = None
  /\ r.2 !! "/home/user/etc" = Some Directory
  /\ r.2 !! "/home/user/etc/passwd" = Some (File "hello")
  /\ inside_directory root "/home/user/etc/passwd" = false
  /\ Security.path_safe (Security.isPathSafe homedir cwd (JString "../../etc/passwd"))
     = false.
Proof.
  cbv zeta. repeat split; vm_compute; reflexivity.
Qed.

(** The same through the executor: the text a user types reaches
    [moveFile] with these arguments. *)
Lemma executeCommand_moves_file_out_of_sandbox :
  let run := run_with_history quiet_exec (JString "move file a.txt to ../../etc/passwd") in
  CommandParser.parseCommand (JString "move file a.txt to ../../etc/passwd")
  = CommandParser.FileOp "moveFile" ["a.txt"; "../../etc/passwd"]
      "move file a.txt to ../../etc/passwd"
  /\ run.1 = Effects.Returned
               (CommandUtils.mkExecutionResult
                  (JString "move file a.txt to ../../etc/passwd") "Move File"
                  "File 'a.txt' moved to '../../etc/passwd' successfully ✅"
                  true None None)
  /\ Backend.fs run.2 !! "/home/user/etc/passwd" = Some (File "hello").
Proof.
  cbv zeta. repeat split; vm_compute; reflexivity.
Qed.

(** The other operations resolve their argument the same way. *)
Lemma createFile_leaves_sandbox_root :
  let r := FileOps.createFile root cwd "../outside.txt" sandbox in
  FileOps.success r.1 = true
  /\ r.2 !! "/home/user/Desktop/outside.txt" = Some (File "")
  /\ inside_directory root "/home/user/Desktop/outside.txt" = false.
Proof.
  cbv zeta. repeat split; vm_compute; reflexivity.
Qed.

(** It is so in every state that holds [a.txt] and leaves room for the
    destination: the file ends up outside the root. *)
Lemma moveFile_leaves_root_in_every_state (st : gmap string node) (content : string) :
  st !! "/home/user/Desktop/VOICE-CMD/a.txt" = Some (File content) ->
  st !! "/home" = Some Directory ->
  st !! "/home/user" = Some Directory ->
  st !! "/home/user/etc" = None \/ st !! "/home/user/etc" = Some Directory ->
  st !! "/home/user/etc/passwd" = None ->
  let r := FileOps.moveFile root cwd "a.txt" "../../etc/passwd" st in
  FileOps.success r.1 = true
  /\ r.2 !! "/home/user/etc/passwd" = Some (File content)
  /\ r.2 !! "/home/user/Desktop/VOICE-CMD/a.txt" = None.
Proof.
  intros Ha Hhome Huser Hetc Hdest. cbv zeta. unfold FileOps.moveFile.
  assert (E1 : NodePath.resolve cwd [root; "a.txt"]
               = "/home/user/Desktop/VOICE-CMD/a.txt") by (vm_compute; reflexivity).
  assert (E2 : NodePath.resolve cwd [root; "../../etc/passwd"]
               = "/home/user/etc/passwd") by (vm_compute; reflexivity).
  assert (E3 : NodePath.dirname "/home/user/etc/passwd" = "/home/user/etc")
    by (vm_compute; reflexivity).
  assert (E4 : endsWithChar "../../etc/passwd" "/"%char
               || endsWithChar "../../etc/passwd" "\"%char = false)
    by (vm_compute; reflexivity).
  rewrite E1, E4, E2, E3.
  assert (A1 : access st "/home/user/Desktop/VOICE-CMD/a.txt" = inr tt).
  { unfold access, lookup_node. cbn [String.eqb Ascii.eqb Bool.eqb].
    now rewrite Ha. }
  assert (A2 : stat st "/home/user/Desktop/VOICE-CMD/a.txt" = inr (File content)).
  { unfold stat, lookup_node. cbn [String.eqb Ascii.eqb Bool.eqb].
    now rewrite Ha. }
  assert (A3 : access st "/home/user/etc/passwd"
               = inl (ENOENT "access" "/home/user/etc/passwd")).
  { unfold access, lookup_node. cbn [String.eqb Ascii.eqb Bool.eqb].
    now rewrite Hdest. }
  assert (A4 : exists st1, (mkdir_recursive st "/home/user/etc").2 = st1
               /\ st1 !! "/home/user/Desktop/VOICE-CMD/a.txt" = Some (File content)
               /\ st1 !! "/home/user/etc" = Some Directory
               /\ st1 !! "/home/user/etc/passwd" = None).
  { unfold mkdir_recursive.
    change (NodePath.segments "/home/user/etc") with ["home"; "user"; "etc"].
    cbn [mkdir_walk].
    change ("" ++ "/" ++ "home") with "/home".
    change ("/home" ++ "/" ++ "user") with "/home/user".
    change ("/home/user" ++ "/" ++ "etc") with "/home/user/etc".
    unfold lookup_node. cbn [String.eqb Ascii.eqb Bool.eqb].
    rewrite Hhome, Huser. destruct Hetc as [Hetc|Hetc]; rewrite Hetc; cbn [snd].
    - eexists. split; [reflexivity|].
      rewrite lookup_insert_ne by discriminate.
      rewrite lookup_insert_eq.
      rewrite lookup_insert_ne by discriminate. auto.
    - eexists. split; [reflexivity|]. auto. }
  destruct A4 as (st1 & -> & Ha1 & Hetc1 & Hdest1).
  assert (A5 : rename st1 "/home/user/Desktop/VOICE-CMD/a.txt" "/home/user/etc/passwd"
               = (None, <["/home/user/etc/passwd" := File content]>
                          (delete "/home/user/Desktop/VOICE-CMD/a.txt" st1))).
  { unfold rename. rewrite E3. unfold lookup_node.
    cbn [String.eqb Ascii.eqb Bool.eqb]. now rewrite Ha1, Hetc1, Hdest1. }
  rewrite A1, A2, A3, A5. cbn [isDirectory fst snd FileOps.success].
  split; [reflexivity|]. split.
  - apply lookup_insert_eq.
  - rewrite lookup_insert_ne by discriminate. apply lookup_delete_eq.
Qed.

Lemma moveFile_leaves_root_in_every_state_witness :
  (FileOps.moveFile root cwd "a.txt" "../../etc/passwd" sandbox).2
    !! "/home/user/etc/passwd" = Some (File "hello").
Proof.
  refine (proj1 (proj2 (moveFile_leaves_root_in_every_state sandbox "hello"
                          _ _ _ _ _)));
    try (left; vm_compute; reflexivity); vm_compute; reflexivity.
Defined.

End FileOpsFacts.

(** ** The shell runner and the executor *)

Module CommandUtilsFacts.
Import JsString JsValue Effects NodeFs CommandUtils SpecWords JsStringFacts.
Import Scenario.

Lemma parseCommand_shell_inv (cmd : string) :
  CommandParser.type (CommandParser.parseCommand (JString cmd)) = "shell" ->
  CommandParser.parseCommand (JString cmd) = CommandParser.Shell cmd cmd.
Proof.
  unfold CommandParser.parseCommand.
  destruct (negb (truthy (JString cmd))); [discriminate|].
  destruct (CommandParser.first_match CommandParser.memoryOpPatterns cmd) as [r|] eqn:Hm.
  { rewrite (CommandParserFacts.first_match_type _ _ _ _
               CommandParserFacts.memoryOpPatterns_tagged Hm). discriminate. }
  destruct (CommandParser.first_match CommandParser.fileOpPatterns cmd) as [r|] eqn:Hf.
  { rewrite (CommandParserFacts.first_match_type _ _ _ _
               CommandParserFacts.fileOpPatterns_tagged Hf). discriminate. }
  destruct (array_includes _ _); reflexivity.
Qed.

(** What the runner returns for a command the policy engine refuses. *)
Lemma executeShellCommand_unsafe (homedir : string)
    (exec : string -> ExecCall) (command : JsValue) :
  Security.safe (Security.isCommandSafe command) = false ->
  executeShellCommand homedir exec command
  = (Returned
       (mkShellResult false
          ("🚫 Command blocked for security: " ++ template command ++ nl
           ++ "Reason: " ++ Security.reason (Security.isCommandSafe command)
           ++ match Security.suggestion (Security.isCommandSafe command) with
              | Some suggestion => nl ++ "Suggestion: " ++ suggestion
              | None => ""
              end)
          true None),
     [LogSecurity (template command) "BLOCKED"
        (Security.reason (Security.isCommandSafe command))]).
Proof.
  intros Hs. unfold executeShellCommand. rewrite Hs.
  destruct command; reflexivity.
Qed.

Lemma legacy_executeShellCommand_unsafe (homedir : string)
    (exec : string -> ExecCall) (command : JsValue) :
  Security.safe (Security.isCommandSafe command) = false ->
  CommandUtilsLegacy.executeShellCommand homedir exec command
  = executeShellCommand homedir exec command.
Proof.
  intros Hs. unfold CommandUtilsLegacy.executeShellCommand, executeShellCommand.
  rewrite Hs. destruct command; reflexivity.
Qed.

(** What the runner does with a command the policy engine approves. *)
Lemma executeShellCommand_safe (homedir : string)
    (exec : string -> ExecCall) (cmd : string) :
  Security.safe (Security.isCommandSafe (JString cmd)) = true ->
  executeShellCommand homedir exec (JString cmd)
  = let called :=
      [LogCommand cmd "SUCCESS" "Command passed security checks";
       Exec cmd (WORKING_DIR homedir) 10000 (1024 * 1024)] in
    match exec cmd with
    | Throws error => (Thrown error, called)
    | CallsBack o =>
        (Returned (on_exit cmd o).1, (called ++ (on_exit cmd o).2)%list)
    end.
Proof.
  intros Hs. unfold executeShellCommand. rewrite Hs. cbv zeta.
  destruct (exec cmd) as [e|o]; [reflexivity|].
  now destruct (on_exit cmd o).
Qed.

(** The shell branch of [executeCommand], step by step. *)
Lemma executeCommand_shell {W : Type}
    (parseCommand : JsValue -> M W CommandParser.ParseResult)
    (executeMemoryOperation : string -> list string -> M W OpResult)
    (fileOperation : string -> list string -> M W FileOps.OpResult)
    (runShell : JsValue -> M W ShellResult)
    (addToHistory : JsValue -> HistoryResult -> M W unit)
    (commandText : JsValue) (w : W) (command orig : string) (w1 : W) :
  parseCommand commandText w = (Returned (CommandParser.Shell command orig), w1) ->
  CommandUtils.executeCommand parseCommand executeMemoryOperation fileOperation
    runShell addToHistory commandText w
  = let failed e :=
      Returned (mkExecutionResult commandText "Shell Command Error"
                  ("Error executing shell command: " ++ message e)
                  false None (Some "E_SHELL_COMMAND_FAILED")) in
    match runShell (JString command) w1 with
    | (Returned r, w2) =>
        match addToHistory commandText (OfShell r) w2 with
        | (Returned _, w3) =>
            (Returned (mkExecutionResult commandText "Shell Command" (output r)
                         (sh_success r) (Some (sh_blocked r || false)) None), w3)
        | (Thrown e, w3) => (failed e, w3)
        end
    | (Thrown e, w2) => (failed e, w2)
    end.
Proof.
  intros Hp. unfold CommandUtils.executeCommand, shell_branch, try_catch, bind, ret.
  rewrite Hp. cbv zeta.
  destruct (runShell (JString command) w1) as [[r|e] w2]; [|reflexivity].
  destruct (addToHistory commandText (OfShell r) w2) as [[[]|e] w3]; reflexivity.
Qed.

Section Backend.
Context {Mem : Type} `{MemoryModule Mem}.
Variables (homedir cwd : string).
Variable exec : string -> ExecCall.
Variable dirSize : nat.
Variable mtimeDate : string -> string.
Variable localeCompare : string -> string -> Z.
Variable toLocaleString : string -> string.

(** C3, as the code has it: a command the parser classifies as shell and
    the policy engine judges unsafe never reaches [exec].  The runner, in
    both revisions, resolves to [success: false], [blocked: true] and a
    text that says the command was blocked and gives the verdict's reason;
    the only event is the audit record, and [executeCommand] adds no other
    to the world.  What [executeCommand] returns depends on the write of
    the command history, which shares the [try] of the runner: when it
    returns, the result is [success: false] and [blocked: true] with that
    text; when it throws, the result is the error of the shell branch,
    [E_SHELL_COMMAND_FAILED], without [blocked]. *)
Theorem unsafe_shell_command_is_never_spawned (cmd : string) (w : Backend.World Mem) :
  CommandParser.type (CommandParser.parseCommand (JString cmd)) = "shell" ->
  Security.safe (Security.isCommandSafe (JString cmd)) = false ->
  let verdict := Security.isCommandSafe (JString cmd) in
  let shell := executeShellCommand homedir exec (JString cmd) in
  let run := Backend.executeCommand homedir cwd exec dirSize mtimeDate
               localeCompare toLocaleString (JString cmd) w in
  (exists r,
     shell.1 = Returned r
     /\ sh_success r = false
     /\ sh_blocked r = true
     /\ includes (output r) "blocked" = true
     /\ includes (output r) (Security.reason verdict) = true
     /\ (forall mem',
           addCommandToHistory (JString cmd) (OfShell r) (Backend.memory w)
           = (Returned tt, mem') ->
           run.1 = Returned (mkExecutionResult (JString cmd) "Shell Command"
                               (output r) false (Some true) None))
     /\ (forall e mem',
           addCommandToHistory (JString cmd) (OfShell r) (Backend.memory w)
           = (Thrown e, mem') ->
           run.1 = Returned (mkExecutionResult (JString cmd) "Shell Command Error"
                               ("Error executing shell command: " ++ message e)
                               false None (Some "E_SHELL_COMMAND_FAILED"))))
  /\ shell.2 = [LogSecurity cmd "BLOCKED" (Security.reason verdict)]
  /\ existsb is_exec shell.2 = false
  /\ CommandUtilsLegacy.executeShellCommand homedir exec (JString cmd) = shell
  /\ Backend.events run.2 = (Backend.events w ++ shell.2)%list.
Proof.
  intros Hshell Hunsafe. cbv zeta.
  rewrite (legacy_executeShellCommand_unsafe homedir exec _ Hunsafe).
  rewrite (executeShellCommand_unsafe homedir exec _ Hunsafe).
  cbn [fst snd template].
  assert (Hrun :
    Backend.executeCommand homedir cwd exec dirSize mtimeDate localeCompare
      toLocaleString (JString cmd) w
    = let r := mkShellResult false
                 ("🚫 Command blocked for security: " ++ cmd ++ nl
                  ++ "Reason: " ++ Security.reason (Security.isCommandSafe (JString cmd))
                  ++ match Security.suggestion (Security.isCommandSafe (JString cmd)) with
                     | Some suggestion => nl ++ "Suggestion: " ++ suggestion
                     | None => ""
                     end)
                 true None in
      let w2 := Backend.mkWorld (Backend.fs w)
                  (Backend.events w
                   ++ [LogSecurity cmd "BLOCKED"
                         (Security.reason (Security.isCommandSafe (JString cmd)))])
                  (Backend.memory w) in
      match addCommandToHistory (JString cmd) (OfShell r) (Backend.memory w) with
      | (Returned _, mem') =>
          (Returned (mkExecutionResult (JString cmd) "Shell Command" (output r)
                       false (Some true) None),
           Backend.mkWorld (Backend.fs w2) (Backend.events w2) mem')
      | (Thrown e, mem') =>
          (Returned (mkExecutionResult (JString cmd) "Shell Command Error"
                       ("Error executing shell command: " ++ message e)
                       false None (Some "E_SHELL_COMMAND_FAILED")),
           Backend.mkWorld (Backend.fs w2) (Backend.events w2) mem')
      end).
  { unfold Backend.executeCommand.
    rewrite (executeCommand_shell _ _ _ _ _ _ w cmd cmd w)
      by (unfold Backend.run_parseCommand, ret;
          now rewrite (parseCommand_shell_inv cmd Hshell)).
    unfold Backend.run_executeShellCommand.
    rewrite (executeShellCommand_unsafe homedir exec _ Hunsafe).
    unfold Backend.in_memory. cbv zeta.
    cbn [Backend.memory Backend.events Backend.fs template].
    destruct (addCommandToHistory _ _ (Backend.memory w)) as [[[]|e] mem1];
      reflexivity. }
  rewrite Hrun. cbv zeta.
  split; [|split; [reflexivity|split; [reflexivity|split; [reflexivity|]]]].
  - eexists. split; [reflexivity|].
    cbn [sh_success sh_blocked output].
    split; [reflexivity|]. split; [reflexivity|].
    split; [|split; [|split]].
    + apply (includes_app_r "🚫 Command blocked for security: ").
      vm_compute. reflexivity.
    + rewrite <- !append_assoc. rewrite append_assoc. apply includes_app.
    + intros mem' E. now rewrite E.
    + intros e mem' E. now rewrite E.
  - destruct (addCommandToHistory _ _ (Backend.memory w)) as [[[]|e] mem1];
      reflexivity.
Qed.

End Backend.

Lemma unsafe_shell_command_is_never_spawned_witness :
  let shell := executeShellCommand homedir quiet_exec (JString "rm -rf /") in
  let run := run_with_history quiet_exec (JString "rm -rf /") in
  (exists r,
     shell.1 = Returned r /\ sh_success r = false /\ sh_blocked r = true
     /\ run.1 = Returned (mkExecutionResult (JString "rm -rf /") "Shell Command"
                            (output r) false (Some true) None))
  /\ existsb is_exec shell.2 = false
  /\ Backend.events run.2 = shell.2.
Proof.
  cbv zeta.
  destruct (unsafe_shell_command_is_never_spawned (H := history_memory)
              homedir cwd quiet_exec 4096 (fun _ => "2024-01-01") collation
              (fun t => t) "rm -rf /" (world0 []) eq_refl eq_refl)
    as ((r & H1 & H2 & H3 & _ & _ & H6 & _) & _ & H8 & _ & H10).
  split; [|split; [exact H8 | exact H10]].
  exists r. split; [exact H1|]. split; [exact H2|]. split; [exact H3|].
  exact (H6 _ eq_refl).
Defined.

(** C3 as written fails where the history cannot be written.  The command
    [rm -rf /] is a shell command the policy engine refuses, and nothing
    is executed; but [addCommandToHistory] throws inside the [try] of the
    shell branch, and what [executeCommand] returns is the error of that
    branch: no [blocked: true], and a text that does not say [blocked]. *)
Lemma blocked_command_is_not_reported_blocked_when_history_fails :
  let run := run_read_only quiet_exec (JString "rm -rf /") in
  CommandParser.parseCommand (JString "rm -rf /")
  = CommandParser.Shell "rm -rf /" "rm -rf /"
  /\ Security.safe (Security.isCommandSafe (JString "rm -rf /")) = false
  /\ existsb is_exec (Backend.events run.2) = false
  /\ run.1 = Returned
               (mkExecutionResult (JString "rm -rf /") "Shell Command Error"
                  ("Error executing shell command: " ++ message write_failed)
                  false None (Some "E_SHELL_COMMAND_FAILED"))
  /\ (forall r, run.1 = Returned r ->
        blocked r <> Some true /\ includes (result r) "blocked" = false).
Proof.
  cbv zeta. split; [vm_compute; reflexivity|]. split; [vm_compute; reflexivity|].
  split; [vm_compute; reflexivity|]. split; [vm_compute; reflexivity|].
  intros r Hr. vm_compute in Hr. injection Hr as <-.
  split; [discriminate | vm_compute; reflexivity].
Qed.

(** C8, as the code has it: [executeCommand] returns a result whatever its
    modules do.  An exception of the parser becomes [E_SYSTEM_ERROR]; one
    that leaves a memory operation, a file operation or the shell runner,
    or the write of the history after it, becomes the error of that branch:
    [E_MEMORY_OPERATION_FAILED], [E_FILE_OPERATION_FAILED] or
    [E_SHELL_COMMAND_FAILED]. *)
Theorem executeCommand_never_throws {W : Type}
    (parseCommand : JsValue -> M W CommandParser.ParseResult)
    (executeMemoryOperation : string -> list string -> M W OpResult)
    (fileOperation : string -> list string -> M W FileOps.OpResult)
    (runShell : JsValue -> M W ShellResult)
    (addToHistory : JsValue -> HistoryResult -> M W unit)
    (commandText : JsValue) (w : W) :
  let run := CommandUtils.executeCommand parseCommand executeMemoryOperation
               fileOperation runShell addToHistory commandText w in
  let failed action text code :=
    Returned (mkExecutionResult commandText action text false None (Some code)) in
  (exists r w', run = (Returned r, w'))
  /\ (forall e w1,
        parseCommand commandText w = (Thrown e, w1) ->
        run = (failed "System Error"
                 ("An unexpected error occurred: " ++ message e)
                 "E_SYSTEM_ERROR", w1))
  /\ (forall fn args orig w1 e w2,
        parseCommand commandText w = (Returned (CommandParser.MemoryOp fn args orig), w1) ->
        bind (executeMemoryOperation fn args)
          (fun r => addToHistory commandText (OfMemoryOp r)) w1 = (Thrown e, w2) ->
        run = (failed "Memory Operation Error"
                 ("Error executing memory operation: " ++ message e)
                 "E_MEMORY_OPERATION_FAILED", w2))
  /\ (forall fn args orig w1 e w2,
        parseCommand commandText w = (Returned (CommandParser.FileOp fn args orig), w1) ->
        bind (fileOperation fn args)
          (fun r => addToHistory commandText (OfFileOp r)) w1 = (Thrown e, w2) ->
        run = (failed "File Operation Error"
                 ("Error executing file operation: " ++ message e)
                 "E_FILE_OPERATION_FAILED", w2))
  /\ (forall command orig w1 e w2,
        parseCommand commandText w = (Returned (CommandParser.Shell command orig), w1) ->
        bind (runShell (JString command))
          (fun r => addToHistory commandText (OfShell r)) w1 = (Thrown e, w2) ->
        run = (failed "Shell Command Error"
                 ("Error executing shell command: " ++ message e)
                 "E_SHELL_COMMAND_FAILED", w2)).
Proof.
  cbv zeta.
  unfold CommandUtils.executeCommand, memory_branch, file_branch, shell_branch,
    try_catch, bind, ret.
  split; [|split; [|split; [|split]]].
  - destruct (parseCommand commandText w) as [[pr|e] w1]; [|eauto].
    destruct pr as [err|fn args orig|fn args orig|command orig|t]; [eauto| | | |eauto].
    + destruct (executeMemoryOperation fn args w1) as [[r|e] w2]; [|eauto].
      destruct (addToHistory commandText (OfMemoryOp r) w2) as [[[]|e] w3]; eauto.
    + destruct (fileOperation fn args w1) as [[r|e] w2]; [|eauto].
      destruct (addToHistory commandText (OfFileOp r) w2) as [[[]|e] w3]; eauto.
    + destruct (runShell (JString command) w1) as [[r|e] w2]; [|eauto].
      destruct (addToHistory commandText (OfShell r) w2) as [[[]|e] w3]; eauto.
  - intros e w1 ->. reflexivity.
  - intros fn args orig w1 e w2 -> Hthrow.
    destruct (executeMemoryOperation fn args w1) as [[r|e'] w2'].
    + destruct (addToHistory commandText (OfMemoryOp r) w2') as [[[]|e'] w3];
        [discriminate|]. now injection Hthrow as -> ->.
    + now injection Hthrow as -> ->.
  - intros fn args orig w1 e w2 -> Hthrow.
    destruct (fileOperation fn args w1) as [[r|e'] w2'].
    + destruct (addToHistory commandText (OfFileOp r) w2') as [[[]|e'] w3];
        [discriminate|]. now injection Hthrow as -> ->.
    + now injection Hthrow as -> ->.
  - intros command orig w1 e w2 -> Hthrow.
    destruct (runShell (JString command) w1) as [[r|e'] w2'].
    + destruct (addToHistory commandText (OfShell r) w2') as [[[]|e'] w3];
        [discriminate|]. now injection Hthrow as -> ->.
    + now injection Hthrow as -> ->.
Qed.

(** C8 as written fails where the history cannot be written.  The command
    [pwd] passes the policy engine and runs; [addCommandToHistory] then
    throws, no module has converted that exception, and the executor turns
    it into [E_SHELL_COMMAND_FAILED], not [E_SYSTEM_ERROR]. *)
Lemma executeCommand_history_failure_is_not_system_error :
  let run := run_read_only quiet_exec (JString "pwd") in
  (exists shell,
     (executeShellCommand homedir quiet_exec (JString "pwd")).1 = Returned shell
     /\ addCommandToHistory (MemoryModule := read_only_memory) (JString "pwd")
          (OfShell shell) tt
        = (Thrown write_failed, tt))
  /\ run.1 = Returned
               (mkExecutionResult (JString "pwd") "Shell Command Error"
                  ("Error executing shell command: " ++ message write_failed)
                  false None (Some "E_SHELL_COMMAND_FAILED"))
  /\ (forall r, run.1 = Returned r -> code r <> Some "E_SYSTEM_ERROR").
Proof.
  cbv zeta. split; [eexists; split; [vm_compute; reflexivity | reflexivity]|].
  split; [vm_compute; reflexivity|].
  intros r Hr. vm_compute in Hr. injection Hr as <-. discriminate.
Qed.

(** The earlier revision lets an exception of the parser through. *)
Lemma legacy_executeCommand_propagates {W : Type}
    (executeMemoryOperation : string -> list string -> M W OpResult)
    (fileOperation : string -> list string -> M W FileOps.OpResult)
    (runShell : JsValue -> M W ShellResult)
    (addToHistory : JsValue -> HistoryResult -> M W unit)
    (commandText : JsValue) (w : W) (e : JsError) :
  CommandUtilsLegacy.executeCommand (fun _ => throw e) executeMemoryOperation
    fileOperation runShell addToHistory commandText w = (Thrown e, w).
Proof. reflexivity. Qed.

(** How the callback of the runner classifies what [exec] hands to it,
    for a command the policy engine approves.  The error is looked at in
    this order: the code [ENOENT], [E_COMMAND_NOT_FOUND]; the code
    [EACCES], [E_PERMISSION_DENIED]; the signal [SIGTERM],
    [E_COMMAND_TIMEOUT]; the code [ENOTDIR], [E_INVALID_DIRECTORY]; any
    other error is [E_COMMAND_FAILED] with [stderr], or the error's
    message when [stderr] is empty, as the text.  Without an error the
    text is [stdout], or a fixed message when [stdout] is empty. *)
Lemma shell_runner_classification (homedir : string)
    (exec : string -> ExecCall) (cmd : string) (o : ExecOutcome) :
  Security.safe (Security.isCommandSafe (JString cmd)) = true ->
  exec cmd = CallsBack o ->
  exists r,
    (executeShellCommand homedir exec (JString cmd)).1 = Returned r
    /\ match exec_error o with
       | None =>
           sh_success r = true /\ sh_blocked r = false
           /\ sh_code r = Some "SUCCESS"
           /\ output r = (if String.eqb (stdout o) ""
                          then "Command executed successfully" else stdout o)
       | Some e =>
           sh_success r = false /\ sh_blocked r = false
           /\ (code_is e "ENOENT" = true ->
               sh_code r = Some "E_COMMAND_NOT_FOUND"
               /\ output r = "Command not found: " ++ split_head " "%char cmd)
           /\ (code_is e "EACCES" = true ->
               sh_code r = Some "E_PERMISSION_DENIED"
               /\ output r = "Permission denied: " ++ err_message e)
           /\ (code_is e "ENOENT" = false -> code_is e "EACCES" = false ->
               signal_is e "SIGTERM" = true ->
               sh_code r = Some "E_COMMAND_TIMEOUT"
               /\ output r = "Command timed out after 10 seconds")
           /\ (signal_is e "SIGTERM" = false -> code_is e "ENOTDIR" = true ->
               sh_code r = Some "E_INVALID_DIRECTORY"
               /\ output r = "Invalid directory: " ++ err_message e)
           /\ (code_is e "ENOENT" = false -> code_is e "EACCES" = false ->
               signal_is e "SIGTERM" = false -> code_is e "ENOTDIR" = false ->
               sh_code r = Some "E_COMMAND_FAILED"
               /\ output r = (if String.eqb (stderr o) ""
                              then err_message e else stderr o))
       end.
Proof.
  intros Hsafe Hexec. rewrite (executeShellCommand_safe _ _ _ Hsafe), Hexec.
  cbv zeta. cbn [fst]. eexists. split; [reflexivity|].
  unfold on_exit. destruct (exec_error o) as [e|].
  - destruct e as [c sig msg]. unfold code_is, signal_is.
    cbn [err_code err_signal err_message].
    destruct c as [|n|name]; destruct sig as [sg|];
      repeat match goal with
             | |- context [String.eqb ?a ?b] =>
                 lazymatch b with
                 | "" => fail
                 | _ => destruct (String.eqb_spec a b)
                 end
             end;
      subst; try discriminate;
      cbn [fst sh_success sh_blocked sh_code output];
      repeat (split || intro); try discriminate; reflexivity.
  - cbn [fst sh_success sh_blocked sh_code output]. repeat split.
Qed.

(** An exit status is no name: whatever status the shell reports for an
    approved command that was not ended by [SIGTERM], the runner answers
    [E_COMMAND_FAILED].  That holds for the status 127 of a program that
    is not installed and the status 126 of one that may not be run. *)
Lemma exit_status_is_command_failed (homedir : string)
    (exec : string -> ExecCall) (cmd : string) (o : ExecOutcome)
    (error : ExecError) (status : Z) :
  Security.safe (Security.isCommandSafe (JString cmd)) = true ->
  exec cmd = CallsBack o ->
  exec_error o = Some error ->
  err_code error = ExitCode status ->
  signal_is error "SIGTERM" = false ->
  (executeShellCommand homedir exec (JString cmd)).1
  = Returned (mkShellResult false (or_else (stderr o) (err_message error)) false
                (Some "E_COMMAND_FAILED")).
Proof.
  intros Hsafe Hexec Herr Hcode Hsig.
  rewrite (executeShellCommand_safe _ _ _ Hsafe), Hexec. cbv zeta. cbn [fst].
  unfold on_exit, code_is. rewrite Herr, Hcode, Hsig. reflexivity.
Qed.

(** C9: a missing binary is not reported as [E_COMMAND_NOT_FOUND].  The
    runner looks for the code [ENOENT], but [exec] runs the command
    through [/bin/sh]: where [git] is not installed the shell starts,
    prints that the command was not found and exits with status 127, the
    callback gets the number 127 as [error.code], and the runner answers
    [E_COMMAND_FAILED] with the text of the shell. *)
Theorem missing_binary_is_reported_as_command_failed :
  let shell := executeShellCommand homedir missing_binary_exec (JString "git status") in
  Security.safe (Security.isCommandSafe (JString "git status")) = true
  /\ (exists o e,
        missing_binary_exec "git status" = CallsBack o
        /\ exec_error o = Some e /\ err_code e = ExitCode 127)
  /\ shell.1
     = Returned
         (mkShellResult false ("/bin/sh: 1: git: not found" ++ nl) false
            (Some "E_COMMAND_FAILED"))
  /\ (forall r, shell.1 = Returned r -> sh_code r <> Some "E_COMMAND_NOT_FOUND").
Proof.
  cbv zeta. split; [vm_compute; reflexivity|].
  split; [eexists _, _; repeat split; reflexivity|].
  split; [vm_compute; reflexivity|].
  intros r Hr. vm_compute in Hr. injection Hr as <-. discriminate.
Qed.

End CommandUtilsFacts.

(** ** The matcher on texts of a known shape *)

Module RegExpFacts.
Import JsString JsRegExp Notions JsStringFacts.

(** The matcher looks at its continuation pointwise. *)
Lemma rmatch_ext (ic : bool) (r : regex) :
  forall s caps k k',
    (forall s' caps', k s' caps' = k' s' caps') ->
    rmatch ic r s caps k = rmatch ic r s caps k'.
Proof.
  induction r as [|c|cl|r1 IH1 r2 IH2|r1 IH1 r2 IH2|g r1 IH1|i r1 IH1];
    intros s caps k k' Hk; cbn [rmatch].
  - apply Hk.
  - destruct s; [reflexivity|]. destruct (char_eq ic c a); [apply Hk | reflexivity].
  - destruct s; [reflexivity|]. destruct (in_class cl a); [apply Hk | reflexivity].
  - apply IH1. intros s' caps'. now apply IH2.
  - now rewrite (IH1 s caps k k' Hk), (IH2 s caps k k' Hk).
  - generalize (String.length s). intros fuel. revert s caps.
    induction fuel as [|fuel IHf]; intros s caps; [apply Hk|].
    simpl. rewrite (Hk s caps).
    match goal with
    | |- (if g then orelse (rmatch ic r1 s caps ?K1) _ else _)
         = (if g then orelse (rmatch ic r1 s caps ?K2) _ else _) =>
        rewrite (IH1 s caps K1 K2); [reflexivity|]
    end.
    intros s' caps'. destruct (String.length s' <? String.length s)%nat;
      [apply IHf | reflexivity].
  - apply IH1. intros s' caps'. apply Hk.
Qed.

Lemma rmatch_star (ic g : bool) (r1 : regex) (s : string) (caps : captures)
    (k : string -> captures -> option captures) :
  rmatch ic (RStar g r1) s caps k
  = star_loop ic g r1 k (String.length s) s caps.
Proof.
  cbn [rmatch]. generalize (String.length s). intros fuel. revert s caps.
  induction fuel as [|fuel IHf]; intros s caps; [reflexivity|].
  cbn [star_loop]. cbv zeta. simpl.
  match goal with
  | |- (if g then orelse (rmatch ic r1 s caps ?K1) _ else _)
       = (if g then orelse (rmatch ic r1 s caps ?K2) _ else _) =>
      rewrite (rmatch_ext ic r1 s caps K1 K2); [reflexivity|]
  end.
  intros s' caps'. destruct (String.length s' <? String.length s)%nat;
    [apply IHf | reflexivity].
Qed.

Lemma rmatch_seq (ic : bool) (r1 r2 : regex) (s : string) (caps : captures)
    (k : string -> captures -> option captures) :
  rmatch ic (RSeq r1 r2) s caps k
  = rmatch ic r1 s caps (fun s' caps' => rmatch ic r2 s' caps' k).
Proof. reflexivity. Qed.

Lemma rmatch_group (ic : bool) (i : nat) (r1 : regex) (s : string)
    (caps : captures) (k : string -> captures -> option captures) :
  rmatch ic (RGroup i r1) s caps k
  = rmatch ic r1 s caps (fun s' caps' =>
      k s' ((i, take (String.length s - String.length s') s) :: caps')).
Proof. reflexivity. Qed.

(** The continuation is only run on what is left of the input: if it
    fails on every text of a kind that tails stay in, so does the match. *)
Lemma rmatch_fails (P : string -> Prop) (ic : bool) (r : regex) :
  (forall c s, P (String c s) -> P s) ->
  forall s caps k,
    P s -> (forall s' caps', P s' -> k s' caps' = None) ->
    rmatch ic r s caps k = None.
Proof.
  intros Htail.
  induction r as [|c|cl|r1 IH1 r2 IH2|r1 IH1 r2 IH2|g r1 IH1|i r1 IH1];
    intros s caps k Hs Hk.
  - now apply Hk.
  - cbn [rmatch]. destruct s as [|d s]; [reflexivity|].
    destruct (char_eq ic c d); [|reflexivity]. apply Hk. eauto.
  - cbn [rmatch]. destruct s as [|d s]; [reflexivity|].
    destruct (in_class cl d); [|reflexivity]. apply Hk. eauto.
  - rewrite rmatch_seq. apply IH1; [assumption|].
    intros s' caps' Hs'. now apply IH2.
  - cbn [rmatch]. now rewrite IH1, IH2.
  - rewrite rmatch_star. generalize (String.length s). intros fuel.
    revert s caps Hs. induction fuel as [|fuel IHf]; intros s caps Hs;
      cbn [star_loop]; [now apply Hk|].
    cbv zeta. rewrite (Hk s caps Hs). rewrite IH1; [now destruct g | assumption |].
    intros s' caps' Hs'. destruct (String.length s' <? String.length s)%nat;
      [now apply IHf | reflexivity].
  - rewrite rmatch_group. apply IH1; [assumption|].
    intros s' caps' Hs'. now apply Hk.
Qed.

Lemma spaceless_tail (c : ascii) (s : string) :
  spaceless (String c s) = true -> spaceless s = true.
Proof. unfold spaceless. cbn [all_chars]. now intros [_ H]%andb_prop. Qed.

Lemma lower_char_space (c : ascii) :
  is_space c = true -> lower_char c = c.
Proof.
  unfold is_space, lower_char. intros H.
  destruct ((65 <=? nat_of_ascii c)%nat && (nat_of_ascii c <=? 90)%nat) eqn:E;
    [|reflexivity].
  exfalso. apply andb_prop in E. destruct E as [E1%Nat.leb_le E2%Nat.leb_le].
  apply orb_prop in H. destruct H as [H|H%Nat.eqb_eq]; [|lia].
  apply andb_prop in H. destruct H as [_ H%Nat.leb_le]. lia.
Qed.

(** An expression that needs white space matches nowhere in a text
    without. *)
Lemma rmatch_needs_space (ic : bool) (r : regex) :
  needs_space r = true ->
  forall s caps k, spaceless s = true -> rmatch ic r s caps k = None.
Proof.
  induction r as [|c|cl|r1 IH1 r2 IH2|r1 IH1 r2 IH2|g r1 IH1|i r1 IH1];
    cbn [needs_space]; intros Hr s caps k Hs; try discriminate.
  - cbn [rmatch]. destruct s as [|d s]; [reflexivity|].
    replace (char_eq ic c d) with false; [reflexivity|].
    symmetry. unfold spaceless in Hs. cbn [all_chars] in Hs.
    apply andb_prop in Hs. destruct Hs as [Hd _].
    apply negb_true_iff in Hd.
    unfold char_eq. destruct ic.
    + rewrite (lower_char_space c Hr). apply Ascii.eqb_neq. intros ->.
      rewrite is_space_lower_char in Hr. congruence.
    + apply Ascii.eqb_neq. intros ->. congruence.
  - destruct cl; try discriminate. cbn [rmatch].
    destruct s as [|d s]; [reflexivity|].
    unfold spaceless in Hs. cbn [all_chars] in Hs.
    apply andb_prop in Hs. destruct Hs as [Hd _].
    apply negb_true_iff in Hd. cbn [in_class]. now rewrite Hd.
  - rewrite rmatch_seq. apply orb_prop in Hr. destruct Hr as [Hr|Hr].
    + now apply IH1.
    + apply (rmatch_fails (fun s => spaceless s = true));
        [apply spaceless_tail | assumption |].
      intros s' caps' Hs'. now apply IH2.
  - apply andb_prop in Hr. destruct Hr as [Hr1 Hr2]. cbn [rmatch].
    now rewrite IH1, IH2.
  - rewrite rmatch_group. now apply IH1.
Qed.

Lemma exec_spaceless (ic : bool) (r : regex) (s : string) :
  needs_space r = true -> spaceless s = true -> exec ic r s = None.
Proof.
  intros Hr. induction s as [|c s IH]; intros Hs; cbn [exec].
  - now rewrite rmatch_needs_space.
  - rewrite rmatch_needs_space by assumption. apply IH.
    now apply spaceless_tail with c.
Qed.

(** The first position at which the expression does not match can be
    skipped; a match at the first position is the result. *)
Lemma exec_skip (ic : bool) (r : regex) (c : ascii) (s : string) :
  rmatch ic r (String c s) [] (fun _ caps => Some caps) = None ->
  exec ic r (String c s) = exec ic r s.
Proof. intros H. cbn [exec]. now rewrite H. Qed.

Lemma exec_here (ic : bool) (r : regex) (s : string) (caps : captures) :
  rmatch ic r s [] (fun _ caps => Some caps) = Some caps ->
  exec ic r s = Some caps.
Proof. intros H. destruct s; cbn [exec]; now rewrite H. Qed.

(** A literal matches itself. *)
Lemma char_eq_refl (ic : bool) (c : ascii) : char_eq ic c c = true.
Proof. unfold char_eq. destruct ic; apply Ascii.eqb_refl. Qed.

Lemma rmatch_lit (ic : bool) (w s : string) (caps : captures)
    (k : string -> captures -> option captures) :
  rmatch ic (lit w) (w ++ s) caps k = k s caps.
Proof.
  induction w as [|c w IH]; [reflexivity|].
  destruct w as [|c' w].
  - cbn [lit rmatch]. rewrite append_cons, append_nil. now rewrite char_eq_refl.
  - change (lit (String c (String c' w)))
      with (RSeq (RChar c) (lit (String c' w))).
    rewrite rmatch_seq, append_cons. cbn [rmatch]. rewrite char_eq_refl.
    apply IH.
Qed.

Lemma length_append (a b : string) :
  String.length (a ++ b) = String.length a + String.length b.
Proof. induction a as [|c a IH]; [reflexivity|]. rewrite append_cons. cbn. now rewrite IH. Qed.

(** A greedy quantifier over a class takes the whole run of the class,
    when what follows matches behind the run. *)
Lemma star_greedy_class (ic : bool) (cl : cclass) (a rest : string)
    (k : string -> captures -> option captures) (res : captures) :
  all_chars (in_class cl) a = true ->
  (forall c rest', rest = String c rest' -> in_class cl c = false) ->
  forall fuel caps,
    String.length a <= fuel -> k rest caps = Some res ->
    star_loop ic true (RClass cl) k fuel (a ++ rest) caps = Some res.
Proof.
  intros Ha Hstop. induction a as [|c a IH]; intros fuel caps Hfuel Hk.
  - rewrite append_nil. destruct fuel as [|fuel]; cbn [star_loop]; [exact Hk|].
    cbv zeta. cbn [rmatch]. destruct rest as [|c rest']; [now rewrite Hk|].
    rewrite (Hstop c rest' eq_refl). now rewrite Hk.
  - cbn [all_chars] in Ha. apply andb_prop in Ha. destruct Ha as [Hc Ha].
    destruct fuel as [|fuel]; [cbn in Hfuel; lia|].
    rewrite append_cons. cbn [star_loop]. cbv zeta. cbn [rmatch]. rewrite Hc.
    replace (String.length (a ++ rest) <? String.length (String c (a ++ rest)))%nat
      with true by (symmetry; apply Nat.ltb_lt; cbn; lia).
    rewrite (IH Ha fuel caps); [reflexivity | cbn in Hfuel; lia | exact Hk].
Qed.

Lemma rmatch_class (ic : bool) (cl : cclass) (c : ascii) (s : string)
    (caps : captures) (k : string -> captures -> option captures) :
  rmatch ic (RClass cl) (String c s) caps k
  = if in_class cl c then k s caps else None.
Proof. reflexivity. Qed.

Lemma rmatch_plus_greedy (ic : bool) (cl : cclass) (c : ascii) (a rest : string)
    (caps : captures) (k : string -> captures -> option captures)
    (res : captures) :
  in_class cl c = true -> all_chars (in_class cl) a = true ->
  (forall d rest', rest = String d rest' -> in_class cl d = false) ->
  k rest caps = Some res ->
  rmatch ic (plus (RClass cl)) (String c (a ++ rest)) caps k = Some res.
Proof.
  intros Hc Ha Hstop Hk. unfold plus. rewrite rmatch_seq, rmatch_class.
  rewrite Hc, rmatch_star. apply star_greedy_class; try assumption.
  rewrite length_append. lia.
Qed.

(** White space before a character that is none. *)
Lemma rmatch_ws1_one (ic : bool) (c d : ascii) (rest : string) (caps : captures)
    (k : string -> captures -> option captures) (res : captures) :
  is_space c = true -> is_space d = false ->
  k (String d rest) caps = Some res ->
  rmatch ic ws1 (String c (String d rest)) caps k = Some res.
Proof.
  intros Hc Hd Hk.
  apply (rmatch_plus_greedy ic CSpace c "" (String d rest));
    [exact Hc | reflexivity | | exact Hk].
  intros d' rest' [= <- <-]. exact Hd.
Qed.

Lemma in_class_any_nonspace (c : ascii) :
  is_space c = false -> in_class CAny c = true.
Proof.
  unfold is_space, in_class. intros H. apply orb_false_elim in H.
  destruct H as [H _]. apply negb_true_iff. apply orb_false_intro.
  - apply Nat.eqb_neq. intros E. rewrite E in H. discriminate.
  - apply Nat.eqb_neq. intros E. rewrite E in H. discriminate.
Qed.

(** A lazy quantifier over [.] runs to the end of a word when what
    follows cannot start inside a word. *)
Lemma star_lazy_word (ic : bool) (a rest : string)
    (k : string -> captures -> option captures) (res : captures) :
  spaceless a = true ->
  (forall c s' caps', is_space c = false -> k (String c s') caps' = None) ->
  forall fuel caps,
    String.length a <= fuel -> k rest caps = Some res ->
    star_loop ic false (RClass CAny) k fuel (a ++ rest) caps = Some res.
Proof.
  intros Ha Hfail. induction a as [|c a IH]; intros fuel caps Hfuel Hk.
  - rewrite append_nil. destruct fuel as [|fuel]; cbn [star_loop]; [exact Hk|].
    cbv zeta. now rewrite Hk.
  - unfold spaceless in Ha. cbn [all_chars] in Ha. apply andb_prop in Ha.
    destruct Ha as [Hc Ha]. apply negb_true_iff in Hc.
    destruct fuel as [|fuel]; [cbn in Hfuel; lia|].
    rewrite append_cons. cbn [star_loop]. cbv zeta.
    rewrite (Hfail c _ caps Hc). cbn [orelse rmatch].
    rewrite (in_class_any_nonspace c Hc).
    replace (String.length (a ++ rest) <? String.length (String c (a ++ rest)))%nat
      with true by (symmetry; apply Nat.ltb_lt; cbn; lia).
    apply IH; [exact Ha | cbn in Hfuel; lia | exact Hk].
Qed.

Lemma rmatch_plus_lazy_word (ic : bool) (c : ascii) (a rest : string)
    (caps : captures) (k : string -> captures -> option captures)
    (res : captures) :
  is_space c = false -> spaceless a = true ->
  (forall d s' caps', is_space d = false -> k (String d s') caps' = None) ->
  k rest caps = Some res ->
  rmatch ic (plus_lazy (RClass CAny)) (String c (a ++ rest)) caps k = Some res.
Proof.
  intros Hc Ha Hfail Hk. unfold plus_lazy. rewrite rmatch_seq, rmatch_class.
  rewrite (in_class_any_nonspace c Hc), rmatch_star.
  apply star_lazy_word; try assumption. rewrite length_append. lia.
Qed.

(** What a group has consumed. *)
Lemma take_consumed (a b : string) :
  take (String.length (a ++ b) - String.length b) (a ++ b) = a.
Proof.
  rewrite length_append. replace (String.length a + String.length b - String.length b)
    with (String.length a) by lia.
  induction a as [|c a IH]; [now destruct b|].
  rewrite append_cons. cbn [String.length take]. now rewrite IH.
Qed.

Lemma take_all (a : string) : take (String.length a - 0) a = a.
Proof.
  rewrite Nat.sub_0_r. induction a as [|c a IH]; [reflexivity|].
  cbn [String.length take]. now rewrite IH.
Qed.

Lemma take_all' (a : string) : take (String.length a) a = a.
Proof. induction a as [|c a IH]; [reflexivity|]. cbn [String.length take]. now rewrite IH. Qed.

Lemma append_nil_r (a : string) : a ++ "" = a.
Proof. induction a as [|c a IH]; [reflexivity|]. now rewrite append_cons, IH. Qed.

End RegExpFacts.

(** ** Paths that [isPathSafe] accepts *)

Module PathLaws.
Import JsString JsValue NodePath SpecWords JsStringFacts NodePathFacts.

Lemma join_app (xs ys : list string) :
  xs <> [] -> ys <> [] ->
  join "/" (xs ++ ys) = join "/" xs ++ "/" ++ join "/" ys.
Proof.
  intros Hx Hy. induction xs as [|x xs IH]; [congruence|].
  destruct xs as [|x' xs].
  - destruct ys as [|y ys]; [congruence|]. reflexivity.
  - change (join "/" ((x :: x' :: xs) ++ ys))
      with (x ++ "/" ++ join "/" ((x' :: xs) ++ ys)).
    rewrite IH by congruence.
    change (join "/" (x :: x' :: xs)) with (x ++ "/" ++ join "/" (x' :: xs)).
    now rewrite !append_assoc.
Qed.

Lemma join_plain_relative (xs : list string) :
  xs <> [] -> Forall (fun x => plain_segment x = true) xs ->
  String.eqb (join "/" xs) "" = false /\ isAbsolute (join "/" xs) = false.
Proof.
  intros Hne Hxs. destruct Hxs as [|x xs Hx Hxs]; [congruence|].
  destruct (plain_segment_inv x Hx) as (Hx1 & Hx2 & _).
  destruct x as [|c x]; [discriminate|].
  assert (Hc : Ascii.eqb c "/" = false).
  { cbn [has_char] in Hx2. now apply orb_false_elim in Hx2. }
  destruct xs as [|x' xs]; cbn [join]; rewrite ?append_cons;
    (split; [reflexivity|]); unfold isAbsolute; cbn [startsWith];
    rewrite Ascii.eqb_sym, Hc; reflexivity.
Qed.

(** Below the project root, [path.resolve] appends. *)
Lemma resolve_below_root (homedir cwd : string) (xs : list string) :
  isAbsolute homedir = true ->
  xs <> [] -> Forall (fun x => plain_segment x = true) xs ->
  resolve cwd [Security.PROJECT_ROOT homedir; join "/" xs]
  = Security.PROJECT_ROOT homedir ++ "/" ++ join "/" xs.
Proof.
  intros Habs Hne Hxs.
  set (home := normalize_segments false [] (segments homedir)).
  pose proof (normalized_home_plain homedir) as Hhome. fold home in Hhome.
  assert (Hroot : Forall (fun x => plain_segment x = true)
                    (home ++ ["Desktop"; "VOICE-CMD"])).
  { apply Forall_app. split; [exact Hhome | repeat constructor]. }
  assert (Hall : Forall (fun x => plain_segment x = true)
                   ((home ++ ["Desktop"; "VOICE-CMD"]) ++ xs)).
  { apply Forall_app. split; assumption. }
  destruct (join_plain_relative xs Hne Hxs) as [Hp1 Hp2].
  rewrite resolve_under_root; [|now rewrite PROJECT_ROOT_segments|exact Hp1|exact Hp2].
  rewrite (PROJECT_ROOT_segments homedir Habs). fold home.
  rewrite segments_slash, (segments_join _ Hroot), (segments_join _ Hxs).
  rewrite (normalize_segments_plain _ _ [] Hall).
  change (rev [] ++ ((home ++ ["Desktop"; "VOICE-CMD"]) ++ xs))%list
    with ((home ++ ["Desktop"; "VOICE-CMD"]) ++ xs)%list.
  rewrite join_app; [|destruct home; discriminate|exact Hne].
  now rewrite !append_assoc.
Qed.

(** X1: every path made of plain components (none empty, none [.] or [..],
    none with a separator) lies below the project root, and [isPathSafe]
    accepts it: the guard refuses nothing that stays inside. *)
Theorem isPathSafe_accepts_paths_below_root (homedir cwd : string)
    (xs : list string) :
  isAbsolute homedir = true ->
  xs <> [] -> Forall (fun x => plain_segment x = true) xs ->
  let root := Security.PROJECT_ROOT homedir in
  let v := Security.isPathSafe homedir cwd (JString (join "/" xs)) in
  Security.path_safe v = true
  /\ Security.path_blocked v = false
  /\ Security.resolvedPath v = Some (root ++ "/" ++ join "/" xs)
  /\ inside_directory root (root ++ "/" ++ join "/" xs) = true.
Proof.
  intros Habs Hne Hxs. cbv zeta.
  set (home := normalize_segments false [] (segments homedir)).
  pose proof (normalized_home_plain homedir) as Hhome. fold home in Hhome.
  assert (Hroot : Forall (fun x => plain_segment x = true)
                    (home ++ ["Desktop"; "VOICE-CMD"])).
  { apply Forall_app. split; [exact Hhome | repeat constructor]. }
  assert (Hall : Forall (fun x => plain_segment x = true)
                   ((home ++ ["Desktop"; "VOICE-CMD"]) ++ xs)).
  { apply Forall_app. split; assumption. }
  destruct (join_plain_relative xs Hne Hxs) as [Hp1 Hp2].
  pose proof (resolve_below_root homedir cwd xs Habs Hne Hxs) as Hres.
  unfold Security.isPathSafe.
  replace (negb (truthy (JString (join "/" xs)))) with false
    by (cbn; now rewrite Hp1).
  rewrite Hres, startsWith_app.
  cbn [negb Security.path_safe Security.path_blocked Security.resolvedPath].
  repeat split.
  unfold inside_directory.
  rewrite (PROJECT_ROOT_segments homedir Habs). fold home.
  rewrite append_assoc.
  rewrite <- join_app; [|destruct home; discriminate|exact Hne].
  rewrite !segments_slash, (segments_join _ Hroot), (segments_join _ Hall).
  rewrite <- (app_nil_r (home ++ ["Desktop"; "VOICE-CMD"])) at 1.
  now rewrite is_prefix_of_app.
Qed.

Lemma isPathSafe_accepts_paths_below_root_witness :
  Security.resolvedPath
    (Security.isPathSafe "/home/user" "/srv/app" (JString "docs/notes.txt"))
  = Some "/home/user/Desktop/VOICE-CMD/docs/notes.txt".
Proof.
  refine (proj1 (proj2 (proj2
            (isPathSafe_accepts_paths_below_root "/home/user" "/srv/app"
               ["docs"; "notes.txt"] _ _ _))));
    [reflexivity | discriminate | repeat constructor].
Defined.

End PathLaws.

(** ** What the file operations do to the file system *)

Module FileOpsLaws.
Import JsString JsValue NodeFs SpecWords JsStringFacts NodePathFacts PathLaws.

Lemma lookup_node_None (st : gmap string node) (p : string) :
  lookup_node st p = None -> st !! p = None /\ String.eqb p "/" = false.
Proof.
  unfold lookup_node. destruct (String.eqb p "/"); [discriminate | auto].
Qed.

Lemma lookup_node_Some_File (st : gmap string node) (p content : string) :
  lookup_node st p = Some (File content) ->
  st !! p = Some (File content) /\ String.eqb p "/" = false.
Proof.
  unfold lookup_node. destruct (String.eqb p "/"); [discriminate | auto].
Qed.

Lemma lookup_node_other (st : gmap string node) (p : string) :
  String.eqb p "/" = false -> lookup_node st p = st !! p.
Proof. unfold lookup_node. now intros ->. Qed.

(** [mkdir] with [recursive: true] only adds directories. *)
Lemma mkdir_walk_only_adds (segs : list string) (st : gmap string node)
    (q cur p : string) :
  (mkdir_walk st q cur segs).2 !! p = st !! p
  \/ (st !! p = None /\ (mkdir_walk st q cur segs).2 !! p = Some Directory).
Proof.
  revert st cur. induction segs as [|seg rest IH]; intros st cur; cbn [mkdir_walk].
  - now left.
  - destruct (lookup_node st (cur ++ "/" ++ seg)) as [[content|]|] eqn:E.
    + now left.
    + apply IH.
    + destruct (lookup_node_None _ _ E) as [E' _].
      destruct (IH (<[cur ++ "/" ++ seg := Directory]> st) (cur ++ "/" ++ seg))
        as [H|[H1 H2]].
      * destruct (decide (p = cur ++ "/" ++ seg)) as [->|Hne].
        -- right. rewrite H, lookup_insert_eq. auto.
        -- left. rewrite H. now apply lookup_insert_ne.
      * destruct (decide (p = cur ++ "/" ++ seg)) as [->|Hne].
        -- rewrite lookup_insert_eq in H1. discriminate.
        -- right. rewrite lookup_insert_ne in H1 by congruence. auto.
Qed.

Lemma mkdir_walk_keeps (segs : list string) (st : gmap string node)
    (q cur p : string) (n : node) :
  st !! p = Some n -> (mkdir_walk st q cur segs).2 !! p = Some n.
Proof.
  intros H. destruct (mkdir_walk_only_adds segs st q cur p) as [->|[H' _]];
    congruence.
Qed.

(** With an absolute working directory, [path.resolve] returns a slash
    followed by plain components. *)
Lemma resolve_loop_absolute (cwd : string) (args : list string) (acc : string) :
  NodePath.isAbsolute cwd = true ->
  exists rp, NodePath.resolve_loop (args ++ [cwd]) acc = (rp, true).
Proof.
  intros Hcwd. destruct (isAbsolute_inv _ Hcwd) as [h ->].
  revert acc. induction args as [|p args IH]; intros acc; cbn [app NodePath.resolve_loop].
  - change (String.eqb (String "/" h) "") with false. rewrite Hcwd. eauto.
  - destruct (String.eqb p ""); [apply IH|].
    destruct (NodePath.isAbsolute p); [eauto | apply IH].
Qed.

Lemma resolve_normal_form (cwd : string) (args : list string) :
  NodePath.isAbsolute cwd = true ->
  exists segs, NodePath.resolve cwd args = "/" ++ join "/" segs
               /\ NodePath.segments (NodePath.resolve cwd args) = segs.
Proof.
  intros Hcwd. unfold NodePath.resolve.
  destruct (resolve_loop_absolute cwd (rev args) "" Hcwd) as [rp ->].
  cbn [negb]. unfold NodePath.normalizeString.
  set (segs := NodePath.normalize_segments false [] (NodePath.segments rp)).
  exists segs. split; [reflexivity|].
  rewrite segments_slash. apply segments_join.
  apply normalize_segments_result; [constructor|].
  apply List.Forall_forall. intros x Hx. now apply (segments_pieces rp).
Qed.

(** When [mkdir] succeeds the directory is there. *)
Lemma mkdir_walk_makes (segs : list string) (st st' : gmap string node)
    (q cur : string) :
  segs <> [] -> mkdir_walk st q cur segs = (None, st') ->
  lookup_node st' (cur ++ "/" ++ join "/" segs) = Some Directory.
Proof.
  revert st cur. induction segs as [|seg rest IH]; intros st cur Hne; [congruence|].
  cbn [mkdir_walk].
  assert (Hjoin : rest <> [] ->
            cur ++ "/" ++ join "/" (seg :: rest)
            = (cur ++ "/" ++ seg) ++ "/" ++ join "/" rest).
  { intros Hr. destruct rest as [|r rest']; [congruence|].
    cbn [join]. now rewrite !append_assoc. }
  destruct (lookup_node st (cur ++ "/" ++ seg)) as [[content|]|] eqn:E.
  - destruct rest; discriminate.
  - destruct rest as [|r rest'] eqn:Er.
    + cbn [mkdir_walk join]. intros [= <-]. exact E.
    + rewrite <- Er in *. intros H. rewrite Hjoin by congruence.
      apply (IH st); [congruence | exact H].
  - destruct rest as [|r rest'] eqn:Er.
    + cbn [mkdir_walk join]. intros [= <-].
      destruct (lookup_node_None _ _ E) as [_ Hp].
      rewrite (lookup_node_other _ _ Hp). apply lookup_insert_eq.
    + rewrite <- Er in *. intros H. rewrite Hjoin by congruence.
      apply (IH (<[cur ++ "/" ++ seg := Directory]> st)); [congruence | exact H].
Qed.

Section Instance.
Variables (workingDir cwd : string).
Variable dirSize : nat.
Variable mtimeDate : string -> string.
Variable localeCompare : string -> string -> Z.

(** X2: [createFile] either creates an empty file where nothing was, or
    fails and leaves the file system as it is: it never truncates a file
    and never replaces a directory. *)
Theorem createFile_creates_or_changes_nothing
    (filename : string) (st : gmap string node) :
  let filePath := NodePath.resolve cwd [workingDir; filename] in
  let r := FileOps.createFile workingDir cwd filename st in
  (FileOps.success r.1 = true /\ st !! filePath = None
   /\ r.2 = <[filePath := File ""]> st)
  \/ (FileOps.success r.1 = false /\ r.2 = st).
Proof.
  cbv zeta. unfold FileOps.createFile, access, writeFile.
  set (filePath := NodePath.resolve cwd [workingDir; filename]).
  destruct (lookup_node st filePath) as [n|] eqn:E; [right; auto|].
  destruct (lookup_node_None _ _ E) as [E' _].
  destruct (lookup_node st (NodePath.dirname filePath)) as [[|]|];
    [right; auto | | right; auto].
  left. auto.
Qed.

(** X3: [deleteFile] removes the regular file at the resolved path and
    nothing else; when it reports a failure (nothing there, or a
    directory) the file system is as it was. *)
Theorem deleteFile_removes_one_regular_file
    (filename : string) (st : gmap string node) :
  let filePath := NodePath.resolve cwd [workingDir; filename] in
  let r := FileOps.deleteFile workingDir cwd filename st in
  (FileOps.success r.1 = true
   /\ (exists content, st !! filePath = Some (File content))
   /\ r.2 = delete filePath st)
  \/ (FileOps.success r.1 = false /\ r.2 = st).
Proof.
  cbv zeta. unfold FileOps.deleteFile, access, stat, unlink.
  set (filePath := NodePath.resolve cwd [workingDir; filename]).
  destruct (lookup_node st filePath) as [[content|]|] eqn:E;
    [|right; auto..].
  destruct (lookup_node_Some_File _ _ _ E) as [E' _].
  left. cbn. eauto.
Qed.

(** X4: [copyFile] either adds, at a destination where nothing was, a file
    with the content of the source, or fails and leaves the file system
    as it is: an existing destination is never overwritten and the source
    is never touched. *)
Theorem copyFile_adds_a_copy_or_changes_nothing
    (sourceFilename destFilename : string) (st : gmap string node) :
  let sourcePath := NodePath.resolve cwd [workingDir; sourceFilename] in
  let destPath := NodePath.resolve cwd [workingDir; destFilename] in
  let r := FileOps.copyFile workingDir cwd sourceFilename destFilename st in
  (FileOps.success r.1 = true
   /\ exists content,
        st !! sourcePath = Some (File content)
        /\ st !! destPath = None
        /\ r.2 = <[destPath := File content]> st)
  \/ (FileOps.success r.1 = false /\ r.2 = st).
Proof.
  cbv zeta. unfold FileOps.copyFile, access, stat, NodeFs.copyFile.
  set (sourcePath := NodePath.resolve cwd [workingDir; sourceFilename]).
  set (destPath := NodePath.resolve cwd [workingDir; destFilename]).
  destruct (lookup_node st sourcePath) as [[content|]|] eqn:Es;
    [|right; auto..].
  cbn [isDirectory].
  destruct (lookup_node st destPath) as [n|] eqn:Ed; [right; auto|].
  destruct (lookup_node_Some_File _ _ _ Es) as [Es' _].
  destruct (lookup_node_None _ _ Ed) as [Ed' _].
  destruct (lookup_node st (NodePath.dirname destPath)) as [[|]|];
    [right; auto | | right; auto].
  left. cbn. split; [reflexivity|]. exists content. auto.
Qed.

Lemma createFile_success_inv (filename : string) (st : gmap string node) :
  let filePath := NodePath.resolve cwd [workingDir; filename] in
  FileOps.success (FileOps.createFile workingDir cwd filename st).1 = true ->
  st !! filePath = None /\ String.eqb filePath "/" = false
  /\ (FileOps.createFile workingDir cwd filename st).2
     = <[filePath := File ""]> st.
Proof.
  cbv zeta. unfold FileOps.createFile, access, writeFile.
  set (filePath := NodePath.resolve cwd [workingDir; filename]).
  destruct (lookup_node st filePath) as [n|] eqn:E; [discriminate|].
  destruct (lookup_node_None _ _ E) as [E' Hp].
  destruct (lookup_node st (NodePath.dirname filePath)) as [[|]|];
    [discriminate | | discriminate].
  auto.
Qed.

Lemma createFile_success_parent (filename : string) (st : gmap string node) :
  let filePath := NodePath.resolve cwd [workingDir; filename] in
  FileOps.success (FileOps.createFile workingDir cwd filename st).1 = true ->
  lookup_node st (NodePath.dirname filePath) = Some Directory.
Proof.
  cbv zeta. unfold FileOps.createFile, access, writeFile.
  set (filePath := NodePath.resolve cwd [workingDir; filename]).
  destruct (lookup_node st filePath) as [n|] eqn:E; [discriminate|].
  destruct (lookup_node st (NodePath.dirname filePath)) as [[|]|];
    [discriminate | reflexivity | discriminate].
Qed.

Lemma deleteFile_of_file (filename content : string) (st : gmap string node) :
  let filePath := NodePath.resolve cwd [workingDir; filename] in
  st !! filePath = Some (File content) -> String.eqb filePath "/" = false ->
  FileOps.deleteFile workingDir cwd filename st
  = (FileOps.mkOpResult "Delete File"
       ("File '" ++ filename ++ "' deleted successfully ✅") true
       [("filename", filename); ("filePath", filePath)] [],
     delete filePath st).
Proof.
  cbv zeta. intros H Hp. unfold FileOps.deleteFile, access, stat, unlink.
  now rewrite (lookup_node_other _ _ Hp), H.
Qed.

(** X5: a file that [createFile] has created is removed again by [deleteFile]
    of the same name, and the file system is back where it was. *)
Theorem createFile_then_deleteFile_restores
    (filename : string) (st : gmap string node) :
  let created := FileOps.createFile workingDir cwd filename st in
  FileOps.success created.1 = true ->
  let deleted := FileOps.deleteFile workingDir cwd filename created.2 in
  FileOps.success deleted.1 = true /\ deleted.2 = st.
Proof.
  cbv zeta. intros Hok.
  destruct (createFile_success_inv filename st Hok) as (Hnone & Hp & ->).
  rewrite (deleteFile_of_file filename "" _ (lookup_insert_eq _ _ _) Hp).
  split; [reflexivity|]. now apply delete_insert_id.
Qed.

(** X6: what a successful [moveFile] has done: the file is gone from the
    source path and lies, with its content, at the destination, where
    nothing was before; every other path is as it was, but for
    directories made on the way to the destination. *)
Theorem moveFile_moves_one_file
    (sourceFilename destPath : string) (st : gmap string node) :
  let r := FileOps.moveFile workingDir cwd sourceFilename destPath st in
  let sourceFilePath := NodePath.resolve cwd [workingDir; sourceFilename] in
  let destFilePath :=
    if endsWithChar destPath "/"%char || endsWithChar destPath "\"%char
    then NodePath.resolve cwd [workingDir; destPath; sourceFilename]
    else NodePath.resolve cwd [workingDir; destPath] in
  FileOps.success r.1 = true ->
  exists content,
    st !! sourceFilePath = Some (File content)
    /\ st !! destFilePath = None
    /\ r.2 !! sourceFilePath = None
    /\ r.2 !! destFilePath = Some (File content)
    /\ forall p, p <> sourceFilePath -> p <> destFilePath ->
         r.2 !! p = st !! p
         \/ (st !! p = None /\ r.2 !! p = Some Directory).
Proof.
  cbv zeta. unfold FileOps.moveFile, access, stat.
  set (src := NodePath.resolve cwd [workingDir; sourceFilename]).
  set (dst := if endsWithChar destPath "/"%char || endsWithChar destPath "\"%char
              then NodePath.resolve cwd [workingDir; destPath; sourceFilename]
              else NodePath.resolve cwd [workingDir; destPath]).
  destruct (lookup_node st src) as [[content|]|] eqn:Es; [|discriminate..].
  cbn [isDirectory].
  destruct (lookup_node st dst) as [n|] eqn:Ed; [discriminate|].
  destruct (lookup_node_Some_File _ _ _ Es) as [Es' Hs].
  destruct (lookup_node_None _ _ Ed) as [Ed' Hd].
  unfold mkdir_recursive.
  set (segs := NodePath.segments (NodePath.dirname dst)).
  set (walk := mkdir_walk st (NodePath.dirname dst) "" segs).
  pose proof (mkdir_walk_keeps segs st (NodePath.dirname dst) "" src _ Es') as Hk.
  fold walk in Hk.
  unfold rename. rewrite (lookup_node_other _ _ Hs), Hk.
  destruct (lookup_node walk.2 (NodePath.dirname dst)) as [[|]|];
    [discriminate | | discriminate].
  destruct (lookup_node walk.2 dst) as [[|]|]; [|discriminate|]; intros _;
    cbn [snd]; exists content;
    (split; [assumption|]; split; [assumption|];
     assert (Hne : src <> dst) by congruence;
     split; [rewrite lookup_insert_ne by congruence; apply lookup_delete_eq|];
     split; [apply lookup_insert_eq|];
     intros p Hp1 Hp2;
     rewrite lookup_insert_ne by congruence;
     rewrite lookup_delete_ne by congruence;
     apply mkdir_walk_only_adds).
Qed.

(** X7: [createDirectory] never changes or removes what is there: every
    entry of the file system is still there afterwards, whatever the
    outcome, and what it adds are directories. *)
Theorem createDirectory_only_adds_directories
    (dirname : string) (st : gmap string node) (p : string) :
  let r := FileOps.createDirectory workingDir cwd dirname st in
  r.2 !! p = st !! p \/ (st !! p = None /\ r.2 !! p = Some Directory).
Proof.
  cbv zeta. unfold FileOps.createDirectory, stat, mkdir_recursive.
  set (dirPath := NodePath.resolve cwd [workingDir; dirname]).
  pose proof (mkdir_walk_only_adds (NodePath.segments dirPath) st dirPath "" p)
    as H.
  destruct (lookup_node st dirPath) as [[content|]|];
    cbn [isDirectory]; try (now left);
    destruct (mkdir_walk st dirPath "" (NodePath.segments dirPath))
      as [[e|] st']; exact H.
Qed.

(** X8: in a process with an absolute working directory: when
    [createDirectory] succeeds the directory exists afterwards, and a
    second call of the same name reports that it already exists and
    changes nothing. *)
Theorem createDirectory_makes_the_directory_once
    (dirname : string) (st : gmap string node) :
  NodePath.isAbsolute cwd = true ->
  let dirPath := NodePath.resolve cwd [workingDir; dirname] in
  let r := FileOps.createDirectory workingDir cwd dirname st in
  FileOps.success r.1 = true ->
  r.2 !! dirPath = Some Directory
  /\ st !! dirPath <> Some Directory
  /\ let again := FileOps.createDirectory workingDir cwd dirname r.2 in
     FileOps.success again.1 = false
     /\ FileOps.result again.1
        = "Directory '" ++ dirname ++ "' already exists ❌"
     /\ again.2 = r.2.
Proof.
  intros Hcwd. cbv zeta.
  destruct (resolve_normal_form cwd [workingDir; dirname] Hcwd)
    as (segs & Hform & Hsegs).
  set (dirPath := NodePath.resolve cwd [workingDir; dirname]) in *.
  assert (Hmade : forall st', mkdir_recursive st dirPath = (None, st') ->
            lookup_node st dirPath <> Some Directory ->
            st' !! dirPath = Some Directory /\ String.eqb dirPath "/" = false).
  { intros st' Hmk Hnot. unfold mkdir_recursive in Hmk. rewrite Hsegs in Hmk.
    destruct segs as [|seg rest].
    - exfalso. apply Hnot. rewrite Hform. reflexivity.
    - pose proof (mkdir_walk_makes (seg :: rest) st st' dirPath ""
                    ltac:(congruence) Hmk) as H.
      rewrite append_nil, <- Hform in H.
      assert (Hp : String.eqb dirPath "/" = false).
      { rewrite Hform. cbn [join]. destruct rest.
        - destruct seg; [|reflexivity].
          exfalso. pose proof (segments_pieces dirPath "") as Hx.
          rewrite Hsegs in Hx. destruct Hx as [Hx _]; [now left | discriminate].
        - destruct seg; reflexivity. }
      rewrite (lookup_node_other _ _ Hp) in H. auto. }
  assert (Hagain : forall st', st' !! dirPath = Some Directory ->
            String.eqb dirPath "/" = false ->
            FileOps.createDirectory workingDir cwd dirname st'
            = (FileOps.mkOpResult "Create Directory"
                 ("Directory '" ++ dirname ++ "' already exists ❌") false
                 [("dirname", dirname); ("dirPath", dirPath)] [], st')).
  { intros st' H Hp. unfold FileOps.createDirectory, stat. fold dirPath.
    rewrite (lookup_node_other _ _ Hp), H. reflexivity. }
  destruct (FileOps.createDirectory workingDir cwd dirname st) as [res st1] eqn:Er.
  cbn [fst snd]. intros Hok.
  assert (Hrun : lookup_node st dirPath <> Some Directory
                 /\ mkdir_recursive st dirPath = (None, st1)).
  { revert Er. unfold FileOps.createDirectory, stat. fold dirPath.
    destruct (lookup_node st dirPath) as [[content|]|] eqn:E; cbn [isDirectory];
      try (intros [= <- <-]; discriminate);
      destruct (mkdir_recursive st dirPath) as [[e|] st'];
      intros [= <- <-]; try discriminate; split; congruence. }
  destruct Hrun as [Hnot Hmk]. destruct (Hmade st1 Hmk Hnot) as [H Hp].
  split; [exact H|]. split.
  - rewrite <- (lookup_node_other _ _ Hp). exact Hnot.
  - rewrite (Hagain st1 H Hp). auto.
Qed.

Lemma Forall_sort_insert {A} (compare : A -> A -> Z) (P : A -> Prop)
    (x : A) (l : list A) :
  P x -> Forall P l -> Forall P (FileOps.sort_insert compare x l).
Proof.
  intros Hx Hl. induction Hl as [|y l Hy Hl IH]; cbn [FileOps.sort_insert].
  - now constructor.
  - destruct (compare x y <=? 0)%Z; repeat constructor; assumption.
Qed.

Lemma sort_insert_Permutation {A} (compare : A -> A -> Z) (x : A) (l : list A) :
  Permutation (FileOps.sort_insert compare x l) (x :: l).
Proof.
  induction l as [|y l IH]; cbn [FileOps.sort_insert]; [reflexivity|].
  destruct (compare x y <=? 0)%Z; [reflexivity|].
  rewrite IH. apply perm_swap.
Qed.

Lemma sort_Permutation {A} (compare : A -> A -> Z) (l : list A) :
  Permutation (FileOps.sort compare l) l.
Proof.
  induction l as [|x l IH]; [reflexivity|].
  unfold FileOps.sort in *. cbn [foldr].
  rewrite sort_insert_Permutation. now constructor.
Qed.

Lemma sort_insert_directories_first (x : FileOps.FileEntry)
    (ds fs : list FileOps.FileEntry) :
  FileOps.entry_type x = "directory" \/ FileOps.entry_type x = "file" ->
  Forall (fun f => FileOps.entry_type f = "directory") ds ->
  Forall (fun f => FileOps.entry_type f = "file") fs ->
  exists ds' fs',
    FileOps.sort_insert (FileOps.compare_entries localeCompare) x (ds ++ fs)%list
    = (ds' ++ fs')%list
    /\ Forall (fun f => FileOps.entry_type f = "directory") ds'
    /\ Forall (fun f => FileOps.entry_type f = "file") fs'.
Proof.
  intros Hx Hds Hfs. induction Hds as [|d ds Hd Hds IH]; cbn [app].
  - destruct Hx as [Hx|Hx].
    + exists [x], fs. split; [|split; [repeat constructor; assumption | assumption]].
      destruct Hfs as [|y fs Hy Hfs]; [reflexivity|].
      cbn [FileOps.sort_insert]. unfold FileOps.compare_entries.
      rewrite Hx, Hy. reflexivity.
    + exists [], (FileOps.sort_insert (FileOps.compare_entries localeCompare) x fs).
      split; [reflexivity|]. split; [constructor|].
      now apply Forall_sort_insert.
  - cbn [FileOps.sort_insert]. destruct IH as (ds' & fs' & E & Hds' & Hfs').
    destruct (FileOps.compare_entries localeCompare x d <=? 0)%Z eqn:Ec.
    + destruct Hx as [Hx|Hx].
      * exists (x :: d :: ds), fs. split; [reflexivity|].
        split; [repeat constructor; assumption | assumption].
      * exfalso. revert Ec. unfold FileOps.compare_entries.
        rewrite Hx, Hd. discriminate.
    + exists (d :: ds'), fs'. rewrite E. split; [reflexivity|].
      split; [constructor; assumption | assumption].
Qed.

Lemma sort_directories_first (l : list FileOps.FileEntry) :
  Forall (fun f => FileOps.entry_type f = "directory"
                   \/ FileOps.entry_type f = "file") l ->
  exists ds fs,
    FileOps.sort (FileOps.compare_entries localeCompare) l = (ds ++ fs)%list
    /\ Forall (fun f => FileOps.entry_type f = "directory") ds
    /\ Forall (fun f => FileOps.entry_type f = "file") fs.
Proof.
  intros Hl. induction Hl as [|x l Hx Hl IH].
  - exists [], []. repeat constructor.
  - destruct IH as (ds & fs & E & Hds & Hfs).
    unfold FileOps.sort in *. cbn [foldr]. rewrite E.
    now apply sort_insert_directories_first.
Qed.

Lemma filter_type_same (t : string) (l : list FileOps.FileEntry) :
  Forall (fun f => FileOps.entry_type f = t) l ->
  List.filter (fun f => String.eqb (FileOps.entry_type f) t) l = l.
Proof.
  intros Hl. induction Hl as [|x l Hx Hl IH]; [reflexivity|].
  cbn [List.filter]. now rewrite Hx, String.eqb_refl, IH.
Qed.

Lemma filter_type_other (t u : string) (l : list FileOps.FileEntry) :
  String.eqb t u = false ->
  Forall (fun f => FileOps.entry_type f = t) l ->
  List.filter (fun f => String.eqb (FileOps.entry_type f) u) l = [].
Proof.
  intros Htu Hl. induction Hl as [|x l Hx Hl IH]; [reflexivity|].
  cbn [List.filter]. now rewrite Hx, Htu, IH.
Qed.

(** X9: the listing of [listFiles] is its directories followed by its files,
    whatever the collation of [localeCompare], and it holds the entries of
    the directory, each once. *)
Theorem listFiles_lists_directories_first
    (dir : string) (st : gmap string node) :
  let targetDir :=
    if String.eqb dir "." then workingDir
    else NodePath.resolve cwd [workingDir; dir] in
  let listing :=
    FileOps.files
      (FileOps.listFiles workingDir cwd dirSize mtimeDate localeCompare dir st).1 in
  listing
  = (List.filter (fun f => String.eqb (FileOps.entry_type f) "directory") listing
     ++ List.filter (fun f => String.eqb (FileOps.entry_type f) "file") listing)%list
  /\ forall entries, readdir st targetDir = inr entries ->
       Permutation (map FileOps.name listing) (map fst entries).
Proof.
  cbv zeta. unfold FileOps.listFiles.
  set (targetDir := if String.eqb dir "." then workingDir
                    else NodePath.resolve cwd [workingDir; dir]).
  unfold access. destruct (lookup_node st targetDir) as [n|] eqn:E.
  2:{ split; [reflexivity|]. unfold readdir. rewrite E. discriminate. }
  destruct (readdir st targetDir) as [e|entries]; [split; [reflexivity|discriminate]|].
  cbn [fst FileOps.files].
  set (fileList := map _ entries).
  assert (Htypes : Forall (fun f => FileOps.entry_type f = "directory"
                                    \/ FileOps.entry_type f = "file") fileList).
  { apply List.Forall_forall. intros f Hf. apply in_map_iff in Hf.
    destruct Hf as ([nm nd] & <- & _). cbn. destruct nd; auto. }
  split.
  - destruct (sort_directories_first fileList Htypes) as (ds & fs & -> & Hds & Hfs).
    rewrite !List.filter_app.
    rewrite (filter_type_same _ ds Hds), (filter_type_same _ fs Hfs).
    rewrite (filter_type_other "file" "directory" fs eq_refl Hfs).
    rewrite (filter_type_other "directory" "file" ds eq_refl Hds).
    now rewrite app_nil_r.
  - intros entries' [= <-]. rewrite sort_Permutation.
    unfold fileList. rewrite map_map. cbn. reflexivity.
Qed.

End Instance.

Lemma slice_from_app (a b : string) :
  slice_from (String.length a) (a ++ b) = b.
Proof. induction a as [|c a IH]; [now destruct b | exact IH]. Qed.

Lemma includes_none_of_char (c : ascii) (s : string) :
  has_char c s = false -> includes s (String c "") = false.
Proof.
  induction s as [|d s IH]; [reflexivity|].
  cbn [has_char includes startsWith]. intros H. apply orb_false_elim in H.
  destruct H as [Hd Hs]. rewrite Ascii.eqb_sym, Hd, (IH Hs). reflexivity.
Qed.

Section Sandbox.
(** The file operations of the backend: rooted at [WORKING_DIR], in the
    home of a user. *)
Variables (homedir cwd : string).
Variable dirSize : nat.
Variable mtimeDate : string -> string.
Variable localeCompare : string -> string -> Z.

Lemma resolve_in_sandbox (f : string) :
  NodePath.isAbsolute homedir = true -> plain_segment f = true ->
  NodePath.resolve cwd [CommandUtils.WORKING_DIR homedir; f]
  = CommandUtils.WORKING_DIR homedir ++ "/" ++ f.
Proof.
  intros homedir_absolute Hf.
  exact (resolve_below_root homedir cwd [f] homedir_absolute
           ltac:(discriminate) ltac:(repeat constructor; exact Hf)).
Qed.

Lemma sandbox_root_form :
  NodePath.isAbsolute homedir = true ->
  exists segs,
    CommandUtils.WORKING_DIR homedir = "/" ++ join "/" segs
    /\ segs <> [] /\ Forall (fun x => plain_segment x = true) segs.
Proof.
  intros homedir_absolute.
  exists (NodePath.normalize_segments false [] (NodePath.segments homedir)
          ++ ["Desktop"; "VOICE-CMD"])%list.
  split; [exact (PROJECT_ROOT_segments homedir homedir_absolute)|].
  split; [now destruct (NodePath.normalize_segments _ _ _)|].
  apply Forall_app. split; [apply normalized_home_plain | repeat constructor].
Qed.

Lemma dirname_in_sandbox (f : string) :
  NodePath.isAbsolute homedir = true -> plain_segment f = true ->
  NodePath.dirname (CommandUtils.WORKING_DIR homedir ++ "/" ++ f)
  = CommandUtils.WORKING_DIR homedir.
Proof.
  intros Habs Hf. destruct (sandbox_root_form Habs) as (segs & -> & Hne & Hsegs).
  unfold NodePath.dirname.
  rewrite segments_app_slash, segments_slash, (segments_join _ Hsegs),
    (segments_plain _ Hf).
  now rewrite removelast_last.
Qed.

(** X10: in the sandbox of the backend: a file that [createFile] has created,
    under a plain name, is in the listing of the root right after, as a
    file of size 0. *)
Theorem created_file_is_listed (f : string) (st : gmap string node) :
  NodePath.isAbsolute homedir = true -> plain_segment f = true ->
  let workingDir := CommandUtils.WORKING_DIR homedir in
  let created := FileOps.createFile workingDir cwd f st in
  FileOps.success created.1 = true ->
  let listing :=
    FileOps.listFiles workingDir cwd dirSize mtimeDate localeCompare "."
      created.2 in
  FileOps.success listing.1 = true
  /\ exists entry,
       In entry (FileOps.files listing.1)
       /\ FileOps.name entry = f
       /\ FileOps.entry_type entry = "file" /\ FileOps.size entry = 0.
Proof.
  intros Habs Hf. cbv zeta. intros Hok.
  set (wd := CommandUtils.WORKING_DIR homedir) in *.
  pose proof (createFile_success_parent wd cwd f st Hok) as Hparent.
  destruct (createFile_success_inv wd cwd f st Hok) as (Hnone & Hp & ->).
  cbv zeta in Hparent. unfold wd in Hparent, Hnone, Hp |- *.
  rewrite (resolve_in_sandbox f Habs Hf) in *. fold wd in Hparent, Hnone, Hp |- *.
  unfold wd in Hparent. rewrite (dirname_in_sandbox f Habs Hf) in Hparent.
  fold wd in Hparent.
  destruct (plain_segment_inv f Hf) as (Hf1 & Hf2 & _).
  assert (Hwd : String.eqb wd "/" = false).
  { unfold wd. destruct (sandbox_root_form Habs) as (segs & -> & Hne & Hsegs).
    destruct segs as [|x segs]; [congruence|].
    apply List.Forall_inv in Hsegs.
    destruct (plain_segment_inv x Hsegs) as (Hx & _).
    destruct x as [|c x]; [discriminate|]. now destruct segs. }
  assert (Hdiff : wd ++ "/" ++ f <> wd).
  { intros E. apply (f_equal String.length) in E.
    rewrite !RegExpFacts.length_append in E. cbn in E. lia. }
  assert (Hdir : lookup_node (<[wd ++ "/" ++ f := File ""]> st) wd
                 = Some Directory).
  { rewrite (lookup_node_other _ _ Hwd) in Hparent.
    rewrite (lookup_node_other _ _ Hwd).
    rewrite lookup_insert_ne by congruence. exact Hparent. }
  unfold FileOps.listFiles. cbn [String.eqb Ascii.eqb Bool.eqb].
  unfold access, readdir. rewrite Hdir, Hwd. cbn [fst FileOps.success FileOps.files].
  split; [reflexivity|].
  set (entries := omap _ (map_to_list (<[wd ++ "/" ++ f := File ""]> st))).
  assert (Hin : In (f, File "") entries).
  { apply list_elem_of_In. unfold entries. apply list_elem_of_omap.
    exists (wd ++ "/" ++ f, File ""). split.
    - apply elem_of_map_to_list. apply lookup_insert_eq.
    - cbn [fst snd].
      rewrite <- append_assoc, startsWith_app, slice_from_app.
      rewrite Hf1. change "/" with (String "/" "") at 1.
      now rewrite (includes_none_of_char _ _ Hf2). }
  exists (FileOps.mkFileEntry f "file" 0
            (mtimeDate (NodePath.join_paths [wd; f]))).
  split; [|auto].
  eapply Permutation_in; [symmetry; apply sort_Permutation|].
  apply in_map_iff. exists (f, File ""). split; [reflexivity | exact Hin].
Qed.

End Sandbox.

(** The laws at work in the sandbox of the examples. *)
Lemma createFile_then_deleteFile_restores_witness :
  FileOps.success
    (FileOps.createFile Scenario.root Scenario.cwd "b.txt" Scenario.sandbox).1
  = true
  /\ (FileOps.deleteFile Scenario.root Scenario.cwd "b.txt"
        (FileOps.createFile Scenario.root Scenario.cwd "b.txt" Scenario.sandbox).2).2
     = Scenario.sandbox.
Proof.
  assert (H : FileOps.success
                (FileOps.createFile Scenario.root Scenario.cwd "b.txt"
                   Scenario.sandbox).1 = true) by (vm_compute; reflexivity).
  split; [exact H|].
  exact (proj2 (createFile_then_deleteFile_restores Scenario.root Scenario.cwd
                  "b.txt" Scenario.sandbox H)).
Defined.

Lemma moveFile_moves_one_file_witness :
  exists content,
    Scenario.sandbox !! "/home/user/Desktop/VOICE-CMD/a.txt" = Some (File content)
    /\ (FileOps.moveFile Scenario.root Scenario.cwd "a.txt" "docs/b.txt"
          Scenario.sandbox).2 !! "/home/user/Desktop/VOICE-CMD/docs/b.txt"
       = Some (File content).
Proof.
  destruct (moveFile_moves_one_file Scenario.root Scenario.cwd "a.txt"
              "docs/b.txt" Scenario.sandbox)
    as (content & Hsrc & _ & _ & Hdst & _); [vm_compute; reflexivity|].
  exists content. split; [exact Hsrc | exact Hdst].
Defined.

Lemma createDirectory_makes_the_directory_once_witness :
  (FileOps.createDirectory Scenario.root Scenario.cwd "docs" Scenario.sandbox).2
    !! "/home/user/Desktop/VOICE-CMD/docs" = Some Directory
  /\ FileOps.success
       (FileOps.createDirectory Scenario.root Scenario.cwd "docs"
          (FileOps.createDirectory Scenario.root Scenario.cwd "docs"
             Scenario.sandbox).2).1 = false.
Proof.
  destruct (createDirectory_makes_the_directory_once Scenario.root Scenario.cwd
              "docs" Scenario.sandbox)
    as (Hdir & _ & Hagain & _); [reflexivity | vm_compute; reflexivity|].
  split; [exact Hdir | exact Hagain].
Defined.

Lemma created_file_is_listed_witness :
  FileOps.success
    (FileOps.createFile (CommandUtils.WORKING_DIR Scenario.homedir) Scenario.cwd
       "b.txt" Scenario.sandbox).1 = true
  /\ exists entry,
       In entry
         (FileOps.files
            (FileOps.listFiles (CommandUtils.WORKING_DIR Scenario.homedir)
               Scenario.cwd 4096 (fun _ => "2024-05-01T10:00:00.000Z")
               Scenario.collation "."
               (FileOps.createFile (CommandUtils.WORKING_DIR Scenario.homedir)
                  Scenario.cwd "b.txt" Scenario.sandbox).2).1)
       /\ FileOps.name entry = "b.txt" /\ FileOps.size entry = 0.
Proof.
  assert (H : FileOps.success
                (FileOps.createFile (CommandUtils.WORKING_DIR Scenario.homedir)
                   Scenario.cwd "b.txt" Scenario.sandbox).1 = true)
    by (vm_compute; reflexivity).
  split; [exact H|].
  destruct (created_file_is_listed Scenario.homedir Scenario.cwd 4096
              (fun _ => "2024-05-01T10:00:00.000Z") Scenario.collation
              "b.txt" Scenario.sandbox eq_refl eq_refl H)
    as (_ & entry & Hin & Hname & _ & Hsize).
  exists entry. auto.
Defined.

End FileOpsLaws.

(** ** memory.js: what is saved, found and forgotten *)

Module MemoryFacts.
Import JsString JsValue Effects SpecWords JsStringFacts.

Lemma get_own_replace {A} (k : string) (a : A) (o : JsObject.object A) :
  JsObject.get_own k o <> None ->
  JsObject.get_own k (JsObject.replace k a o) = Some a.
Proof.
  induction o as [|[k' a'] o IH]; cbn [JsObject.get_own JsObject.replace];
    [congruence|].
  destruct (String.eqb k k') eqn:E; cbn [JsObject.get_own]; rewrite E; auto.
Qed.

Lemma get_own_replace_ne {A} (k k' : string) (a : A) (o : JsObject.object A) :
  k' <> k ->
  JsObject.get_own k' (JsObject.replace k a o) = JsObject.get_own k' o.
Proof.
  intros Hne. induction o as [|[k2 a2] o IH];
    cbn [JsObject.get_own JsObject.replace]; [reflexivity|].
  destruct (String.eqb k k2) eqn:E; cbn [JsObject.get_own].
  - apply String.eqb_eq in E. subst k2. apply String.eqb_neq in Hne.
    now rewrite Hne.
  - now rewrite IH.
Qed.

Lemma get_own_insert_index {A} (n : N) (k : string) (a : A)
    (o : JsObject.object A) :
  JsObject.get_own k o = None ->
  JsObject.get_own k (JsObject.insert_index n k a o) = Some a.
Proof.
  induction o as [|[k' a'] o IH];
    cbn [JsObject.get_own JsObject.insert_index].
  - now rewrite String.eqb_refl.
  - destruct (String.eqb k k') eqn:E; [discriminate|]. intros H.
    destruct (JsObject.array_index k') as [m|];
      [destruct (n <? m)%N|]; cbn [JsObject.get_own];
      rewrite ?String.eqb_refl, ?E; auto.
Qed.

Lemma get_own_insert_index_ne {A} (n : N) (k k' : string) (a : A)
    (o : JsObject.object A) :
  k' <> k ->
  JsObject.get_own k' (JsObject.insert_index n k a o) = JsObject.get_own k' o.
Proof.
  intros Hne. apply String.eqb_neq in Hne.
  induction o as [|[k2 a2] o IH];
    cbn [JsObject.get_own JsObject.insert_index].
  - now rewrite Hne.
  - destruct (JsObject.array_index k2) as [m|];
      [destruct (n <? m)%N|]; cbn [JsObject.get_own]; rewrite ?Hne; auto.
    now rewrite IH.
Qed.

Lemma get_own_app {A} (k k' : string) (a : A) (o : JsObject.object A) :
  JsObject.get_own k' (o ++ [(k, a)])%list
  = match JsObject.get_own k' o with
    | Some b => Some b
    | None => if String.eqb k' k then Some a else None
    end.
Proof.
  induction o as [|[k2 a2] o IH]; cbn [app JsObject.get_own]; [reflexivity|].
  destruct (String.eqb k' k2); auto.
Qed.

(** [o[k] = a] then [o[k]], and [o[k']] for another key. *)
Lemma get_own_set {A} (k : string) (a : A) (o : JsObject.object A) :
  k <> "__proto__" ->
  JsObject.get_own k (JsObject.set k a o) = Some a.
Proof.
  intros Hk. apply String.eqb_neq in Hk. unfold JsObject.set.
  destruct (JsObject.get_own k o) eqn:E.
  - apply get_own_replace. congruence.
  - rewrite Hk. destruct (JsObject.array_index k).
    + now apply get_own_insert_index.
    + now rewrite get_own_app, E, String.eqb_refl.
Qed.

Lemma get_own_set_ne {A} (k k' : string) (a : A) (o : JsObject.object A) :
  k' <> k ->
  JsObject.get_own k' (JsObject.set k a o) = JsObject.get_own k' o.
Proof.
  intros Hne. unfold JsObject.set.
  destruct (JsObject.get_own k o) eqn:E.
  - now apply get_own_replace_ne.
  - destruct (String.eqb k "__proto__"); [reflexivity|].
    destruct (JsObject.array_index k).
    + now apply get_own_insert_index_ne.
    + rewrite get_own_app. apply String.eqb_neq in Hne. rewrite Hne.
      now destruct (JsObject.get_own k' o).
Qed.

Lemma get_own_In {A} (k : string) (a : A) (o : JsObject.object A) :
  JsObject.get_own k o = Some a -> In (k, a) o.
Proof.
  induction o as [|[k' a'] o IH]; cbn [JsObject.get_own]; [discriminate|].
  destruct (String.eqb k k') eqn:E.
  - apply String.eqb_eq in E. intros [= ->]. subst. now left.
  - intros H. right. auto.
Qed.

Section Module.
Variable toISOString : nat -> string.
Variable stringifyLength : MemoryJs.Memory -> nat.
Variable toLocaleString : string -> string.

Lemma loadMemory_returns (d : MemoryJs.Disk) :
  exists d',
    MemoryJs.loadMemory toISOString d = (Returned (Notions.loaded toISOString d), d')
    /\ MemoryJs.memoryFile d' = MemoryJs.memoryFile d.
Proof.
  unfold MemoryJs.loadMemory, try_catch, MemoryJs.readFile, Notions.loaded.
  destruct (MemoryJs.memoryFile d) eqn:E; eauto.
Qed.

(** A call that loads the memory, changes it and writes it back. *)
Lemma update_runs {A} (change : MemoryJs.Memory -> string -> MemoryJs.Memory)
    (answer : MemoryJs.Memory -> string -> A) (d : MemoryJs.Disk) :
  exists t d',
    bind (MemoryJs.loadMemory toISOString) (fun memory =>
      bind (MemoryJs.now toISOString) (fun t =>
        bind (MemoryJs.saveMemoryToFile toISOString None (change memory t))
          (fun _ => ret (answer memory t)))) d
    = (Returned (answer (Notions.loaded toISOString d) t), d')
    /\ MemoryJs.userData (Notions.loaded toISOString d')
       = MemoryJs.userData (change (Notions.loaded toISOString d) t)
    /\ MemoryJs.commandHistory (Notions.loaded toISOString d')
       = MemoryJs.commandHistory (change (Notions.loaded toISOString d) t)
    /\ MemoryJs.context (Notions.loaded toISOString d')
       = MemoryJs.context (change (Notions.loaded toISOString d) t).
Proof.
  destruct (loadMemory_returns d) as (d1 & E1 & _).
  unfold bind at 1. rewrite E1.
  unfold bind, MemoryJs.now, MemoryJs.saveMemoryToFile, MemoryJs.writeFile, ret.
  cbn. eexists _, _. split; [reflexivity|]. cbn. auto.
Qed.

(** X11: what has been saved under a key is what [getMemory] returns for it. *)
Theorem saveMemory_then_getMemory (key value : string) (d : MemoryJs.Disk) :
  key <> "__proto__" ->
  let saved := MemoryJs.saveMemory toISOString None key value d in
  (exists r, saved.1 = Returned r /\ MemoryJs.status r = "success")
  /\ exists t,
       (MemoryJs.getMemory toISOString key saved.2).1
       = Returned (MemoryJs.Found (JString value) (JString t)).
Proof.
  intros Hk. cbv zeta. unfold MemoryJs.saveMemory.
  destruct (update_runs
              (fun memory t =>
                 MemoryJs.mkMemory
                   (JsObject.set key (MemoryJs.mkItem value t) (MemoryJs.userData memory))
                   (MemoryJs.commandHistory memory) (MemoryJs.context memory)
                   (MemoryJs.lastUpdated memory))
              (fun _ _ =>
                 MemoryJs.mkStatus "success"
                   ("Memory saved: " ++ dq ++ key ++ dq ++ " = " ++ dq ++ value ++ dq)
                   (Some (key, value))) d)
    as (t & d' & -> & Hu & _).
  cbn [fst snd]. split; [eauto|]. exists t.
  unfold MemoryJs.getMemory. destruct (loadMemory_returns d') as (d2 & E2 & _).
  unfold bind. rewrite E2. cbn [ret fst]. rewrite Hu. cbn [MemoryJs.userData].
  unfold JsObject.get. now rewrite get_own_set.
Qed.

Lemma update_fails {A} (failure : MemoryJs.WriteFailure)
    (change : MemoryJs.Memory -> string -> MemoryJs.Memory)
    (answer : MemoryJs.Memory -> string -> A) (d : MemoryJs.Disk) :
  exists t d',
    bind (MemoryJs.loadMemory toISOString) (fun memory =>
      bind (MemoryJs.now toISOString) (fun t =>
        bind (MemoryJs.saveMemoryToFile toISOString (Some failure) (change memory t))
          (fun _ => ret (answer memory t)))) d
    = (Thrown (MemoryJs.write_error failure), d')
    /\ match MemoryJs.write_stage failure with
       | MemoryJs.OnOpen => MemoryJs.memoryFile d' = MemoryJs.memoryFile d
       | MemoryJs.OnWrite => MemoryJs.memoryFile d' = None
       | MemoryJs.OnClose =>
           MemoryJs.userData (Notions.loaded toISOString d')
           = MemoryJs.userData (change (Notions.loaded toISOString d) t)
       end.
Proof.
  destruct (loadMemory_returns d) as (d1 & E1 & H1).
  unfold bind at 1. rewrite E1.
  unfold bind, MemoryJs.now, MemoryJs.saveMemoryToFile, MemoryJs.writeFile, ret.
  cbn. eexists _, _. split; [reflexivity|].
  destruct (MemoryJs.write_stage failure); cbn; [exact H1 | reflexivity..].
Qed.

Lemma getMemory_returns (key : string) (d : MemoryJs.Disk) :
  (MemoryJs.getMemory toISOString key d).1
  = Returned
      (match JsObject.get key (MemoryJs.userData (Notions.loaded toISOString d)) with
       | JsObject.Own item =>
           MemoryJs.Found (JString (MemoryJs.value item))
             (JString (MemoryJs.timestamp item))
       | JsObject.Inherited => MemoryJs.Found JUndefined JUndefined
       | JsObject.Absent =>
           MemoryJs.NotFound ("Memory not found: " ++ dq ++ key ++ dq)
       end).
Proof.
  unfold MemoryJs.getMemory. destruct (loadMemory_returns d) as (d1 & E1 & _).
  unfold bind. now rewrite E1.
Qed.

Lemma loaded_userData_file (d d' : MemoryJs.Disk) :
  MemoryJs.memoryFile d' = MemoryJs.memoryFile d ->
  MemoryJs.userData (Notions.loaded toISOString d')
  = MemoryJs.userData (Notions.loaded toISOString d).
Proof.
  unfold Notions.loaded. intros ->. now destruct (MemoryJs.memoryFile d).
Qed.

(** X12: saving under one key does not change what [getMemory] returns for
    another, when the write succeeds and also when it fails, unless it
    breaks off after the file has been opened and emptied. *)
Theorem saveMemory_keeps_other_keys (writeError : option MemoryJs.WriteFailure)
    (key value key' : string) (d : MemoryJs.Disk) :
  key' <> key ->
  (forall failure,
     writeError = Some failure ->
     MemoryJs.write_stage failure <> MemoryJs.OnWrite) ->
  (MemoryJs.getMemory toISOString key'
     (MemoryJs.saveMemory toISOString writeError key value d).2).1
  = (MemoryJs.getMemory toISOString key' d).1.
Proof.
  intros Hne Hstage. rewrite !getMemory_returns. unfold MemoryJs.saveMemory.
  destruct writeError as [failure|].
  - specialize (Hstage failure eq_refl).
    destruct (update_fails failure
                (fun memory t =>
                   MemoryJs.mkMemory
                     (JsObject.set key (MemoryJs.mkItem value t) (MemoryJs.userData memory))
                     (MemoryJs.commandHistory memory) (MemoryJs.context memory)
                     (MemoryJs.lastUpdated memory))
                (fun _ _ =>
                   MemoryJs.mkStatus "success"
                     ("Memory saved: " ++ dq ++ key ++ dq ++ " = " ++ dq ++ value ++ dq)
                     (Some (key, value))) d)
      as (t & d' & -> & Hf).
    cbn [snd]. destruct (MemoryJs.write_stage failure); [|contradiction|].
    + now rewrite (loaded_userData_file _ _ Hf).
    + rewrite Hf. cbn [MemoryJs.userData].
      unfold JsObject.get. now rewrite get_own_set_ne.
  - destruct (update_runs
                (fun memory t =>
                   MemoryJs.mkMemory
                     (JsObject.set key (MemoryJs.mkItem value t) (MemoryJs.userData memory))
                     (MemoryJs.commandHistory memory) (MemoryJs.context memory)
                     (MemoryJs.lastUpdated memory))
                (fun _ _ =>
                   MemoryJs.mkStatus "success"
                     ("Memory saved: " ++ dq ++ key ++ dq ++ " = " ++ dq ++ value ++ dq)
                     (Some (key, value))) d)
      as (t & d' & -> & Hu & _).
    cbn [snd]. rewrite Hu. cbn [MemoryJs.userData].
    unfold JsObject.get. now rewrite get_own_set_ne.
Qed.

(** X13: the names of [Object.prototype] are found in every memory that does
    not hold them: [getMemory] answers [found: true] without a value, and
    the executor prints it as [undefined]. *)
Theorem getMemory_finds_prototype_properties (key : string) (d : MemoryJs.Disk) :
  In key JsObject.prototype_properties ->
  JsObject.get_own key (MemoryJs.userData (Notions.loaded toISOString d)) = None ->
  (MemoryJs.getMemory toISOString key d).1
  = Returned (MemoryJs.Found JUndefined JUndefined)
  /\ (CommandUtils.executeMemoryOperation
        (H := MemoryJs.exports toISOString None stringifyLength)
        toLocaleString "getMemory" [key] d).1
     = Returned
         (CommandUtils.mkOpResult "Recall Memory"
            (dq ++ key ++ dq ++ " = " ++ dq ++ "undefined" ++ dq
             ++ " (saved: " ++ toLocaleString "undefined" ++ ")") true).
Proof.
  intros Hin Hown.
  assert (Hget : (MemoryJs.getMemory toISOString key d).1
                 = Returned (MemoryJs.Found JUndefined JUndefined)).
  { rewrite getMemory_returns. unfold JsObject.get. rewrite Hown.
    replace (array_includes JsObject.prototype_properties key) with true;
      [reflexivity|].
    symmetry. apply existsb_exists. exists key. split; [assumption|].
    apply String.eqb_refl. }
  split; [exact Hget|].
  unfold CommandUtils.executeMemoryOperation, try_catch.
  cbn [String.eqb Ascii.eqb Bool.eqb CommandUtils.getMemory MemoryJs.exports].
  unfold bind at 1 2. change (CommandUtils.arg 0 [key]) with key.
  destruct (MemoryJs.getMemory toISOString key d) as [o d1].
  cbn [fst] in Hget. subst o. reflexivity.
Qed.

(** X14: saving under the key [__proto__] reports success and stores nothing:
    the memory holds the same keys afterwards, and [getMemory] does not
    return the value. *)
Theorem saveMemory_proto_stores_nothing (value : string) (d : MemoryJs.Disk) :
  JsObject.get_own "__proto__"
    (MemoryJs.userData (Notions.loaded toISOString d)) = None ->
  let saved := MemoryJs.saveMemory toISOString None "__proto__" value d in
  saved.1
  = Returned
      (MemoryJs.mkStatus "success"
         ("Memory saved: " ++ dq ++ "__proto__" ++ dq ++ " = " ++ dq ++ value ++ dq)
         (Some ("__proto__", value)))
  /\ MemoryJs.userData (Notions.loaded toISOString saved.2)
     = MemoryJs.userData (Notions.loaded toISOString d)
  /\ (MemoryJs.getMemory toISOString "__proto__" saved.2).1
     = Returned (MemoryJs.Found JUndefined JUndefined).
Proof.
  intros Hp. cbv zeta. unfold MemoryJs.saveMemory.
  destruct (update_runs
              (fun memory t =>
                 MemoryJs.mkMemory
                   (JsObject.set "__proto__" (MemoryJs.mkItem value t)
                      (MemoryJs.userData memory))
                   (MemoryJs.commandHistory memory) (MemoryJs.context memory)
                   (MemoryJs.lastUpdated memory))
              (fun _ _ =>
                 MemoryJs.mkStatus "success"
                   ("Memory saved: " ++ dq ++ "__proto__" ++ dq ++ " = " ++ dq
                    ++ value ++ dq)
                   (Some ("__proto__", value))) d)
    as (t & d' & -> & Hu & _).
  cbn [fst snd]. split; [reflexivity|].
  assert (Hsame : MemoryJs.userData (Notions.loaded toISOString d')
                  = MemoryJs.userData (Notions.loaded toISOString d)).
  { rewrite Hu. cbn [MemoryJs.userData]. unfold JsObject.set. now rewrite Hp. }
  split; [exact Hsame|].
  rewrite getMemory_returns, Hsame. unfold JsObject.get. now rewrite Hp.
Qed.

(** X15: [addCommandToHistory] puts the command first and keeps at most ten
    entries, whatever the file held; [getCommandHistory] then returns the
    command and the four before it.  What is remembered is not touched. *)
Theorem addCommandToHistory_keeps_the_last_ten (command : JsValue)
    (result : CommandUtils.HistoryResult) (d : MemoryJs.Disk) :
  let before := Notions.loaded toISOString d in
  let added := MemoryJs.addCommandToHistory toISOString None command result d in
  let after := Notions.loaded toISOString added.2 in
  exists entry,
    added.1 = Returned entry
    /\ MemoryJs.command entry = command /\ MemoryJs.result entry = result
    /\ MemoryJs.commandHistory after
       = entry :: firstn 9 (MemoryJs.commandHistory before)
    /\ List.length (MemoryJs.commandHistory after) <= 10
    /\ (MemoryJs.getCommandHistory toISOString None added.2).1
       = Returned (entry :: firstn 4 (MemoryJs.commandHistory before))
    /\ MemoryJs.userData after = MemoryJs.userData before.
Proof.
  cbv zeta. unfold MemoryJs.addCommandToHistory.
  destruct (update_runs
              (fun memory t =>
                 MemoryJs.mkMemory (MemoryJs.userData memory)
                   (if (10 <? List.length
                                (MemoryJs.mkHistoryEntry command result t
                                 :: MemoryJs.commandHistory memory))%nat
                    then MemoryJs.slice_to 10
                           (MemoryJs.mkHistoryEntry command result t
                            :: MemoryJs.commandHistory memory)
                    else MemoryJs.mkHistoryEntry command result t
                         :: MemoryJs.commandHistory memory)
                   (MemoryJs.context memory) (MemoryJs.lastUpdated memory))
              (fun _ t => MemoryJs.mkHistoryEntry command result t) d)
    as (t & d' & -> & Hu & Hh & _).
  cbn [fst snd]. exists (MemoryJs.mkHistoryEntry command result t).
  set (old := MemoryJs.commandHistory (Notions.loaded toISOString d)) in *.
  cbn [MemoryJs.commandHistory MemoryJs.userData] in Hh, Hu.
  assert (Hnew : MemoryJs.commandHistory (Notions.loaded toISOString d')
                 = MemoryJs.mkHistoryEntry command result t :: firstn 9 old).
  { rewrite Hh. cbn [List.length].
    destruct (10 <? S (List.length old))%nat eqn:E.
    - reflexivity.
    - apply Nat.ltb_ge in E. f_equal. symmetry. apply firstn_all2. lia. }
  split; [reflexivity|]. split; [reflexivity|]. split; [reflexivity|].
  split; [exact Hnew|]. split.
  - rewrite Hnew. cbn [List.length]. pose proof (firstn_le_length 9 old). lia.
  - split; [|exact Hu].
    unfold MemoryJs.getCommandHistory.
    destruct (loadMemory_returns d') as (d2 & E2 & _).
    unfold bind. rewrite E2. cbn [ret fst]. rewrite Hnew.
    unfold MemoryJs.slice_to. cbn [Z.ltb Z.compare].
    change (Z.to_nat 5) with 5%nat. cbn [firstn].
    now rewrite List.firstn_firstn.
Qed.

(** X16: after [clearMemory] nothing is remembered: no key, no context, no
    history, and [getMemory] finds only the names of [Object.prototype]. *)
Theorem clearMemory_forgets_everything (key : string) (d : MemoryJs.Disk) :
  let cleared := MemoryJs.clearMemory toISOString None d in
  let after := Notions.loaded toISOString cleared.2 in
  cleared.1
  = Returned (MemoryJs.mkStatus "success" "All memory cleared successfully" None)
  /\ MemoryJs.userData after = [] /\ MemoryJs.commandHistory after = []
  /\ MemoryJs.context after = []
  /\ (MemoryJs.getMemory toISOString key cleared.2).1
     = Returned
         (if array_includes JsObject.prototype_properties key
          then MemoryJs.Found JUndefined JUndefined
          else MemoryJs.NotFound ("Memory not found: " ++ dq ++ key ++ dq)).
Proof.
  cbv zeta. rewrite getMemory_returns.
  unfold MemoryJs.clearMemory, bind, MemoryJs.now, MemoryJs.saveMemoryToFile,
    MemoryJs.writeFile, ret. cbn.
  repeat (split; [reflexivity|]).
  now destruct (String.eqb key "constructor" || _).
Qed.

Lemma In_set {A} (k : string) (a : A) (o : JsObject.object A) :
  k <> "__proto__" -> In (k, a) (JsObject.set k a o).
Proof. intros Hk. apply get_own_In. now apply get_own_set. Qed.

(** X17: what has been saved is found by a search for any part of its key or
    of its value, in any letter case; for a query and a key, or a value,
    of ASCII characters. *)
Theorem saved_memory_is_found_by_search (key value query : string)
    (d : MemoryJs.Disk) :
  key <> "__proto__" ->
  ascii_text query = true ->
  (ascii_text key = true
   /\ includes (toLowerCase key) (toLowerCase query) = true)
  \/ (ascii_text value = true
      /\ includes (toLowerCase value) (toLowerCase query) = true) ->
  let saved := MemoryJs.saveMemory toISOString None key value d in
  exists r,
    (MemoryJs.searchMemory toISOString query saved.2).1 = Returned r
    /\ MemoryJs.count r = List.length (MemoryJs.results r)
    /\ 0 < MemoryJs.count r
    /\ exists hit,
         In hit (MemoryJs.results r)
         /\ MemoryJs.hit_type hit = "userData"
         /\ MemoryJs.hit_key hit = key /\ MemoryJs.hit_value hit = value.
Proof.
  intros Hk _ Hq. cbv zeta. unfold MemoryJs.saveMemory.
  destruct (update_runs
              (fun memory t =>
                 MemoryJs.mkMemory
                   (JsObject.set key (MemoryJs.mkItem value t) (MemoryJs.userData memory))
                   (MemoryJs.commandHistory memory) (MemoryJs.context memory)
                   (MemoryJs.lastUpdated memory))
              (fun _ _ =>
                 MemoryJs.mkStatus "success"
                   ("Memory saved: " ++ dq ++ key ++ dq ++ " = " ++ dq ++ value ++ dq)
                   (Some (key, value))) d)
    as (t & d' & -> & Hu & _).
  cbn [snd]. unfold MemoryJs.searchMemory.
  destruct (loadMemory_returns d') as (d2 & E2 & _).
  unfold bind. rewrite E2. cbn [ret fst]. eexists. split; [reflexivity|].
  cbn [MemoryJs.count MemoryJs.results]. split; [reflexivity|].
  assert (Hin : In (MemoryJs.mkHit "userData" key value t)
                  (map (fun entry : string * MemoryJs.Item =>
                          MemoryJs.mkHit "userData" entry.1
                            (MemoryJs.value entry.2) (MemoryJs.timestamp entry.2))
                     (List.filter (MemoryJs.matches query)
                        (JsObject.entries
                           (MemoryJs.userData (Notions.loaded toISOString d')))))).
  { apply in_map_iff. exists (key, MemoryJs.mkItem value t).
    split; [reflexivity|]. apply List.filter_In. split.
    - rewrite Hu. cbn [MemoryJs.userData]. unfold JsObject.entries.
      now apply In_set.
    - unfold MemoryJs.matches. cbn.
      destruct Hq as [[_ ->] | [_ ->]]; [reflexivity|]. apply orb_true_r. }
  split.
  - rewrite length_app.
    destruct (map _ (List.filter (MemoryJs.matches query)
                (JsObject.entries
                   (MemoryJs.userData (Notions.loaded toISOString d')))));
      [destruct Hin | cbn; lia].
  - exists (MemoryJs.mkHit "userData" key value t). split; [|auto].
    apply in_or_app. now left.
Qed.

(** X18: when the write of the memory file fails, [saveMemory] throws the
    error of the write and the executor turns it into a result of its own.
    What is left of the memory depends on where the write failed: a
    refused open leaves the file as it was; a write that breaks off leaves
    a file without a memory, so that all that was remembered is lost; a
    failed close leaves the new memory. *)
Theorem saveMemory_write_failure (failure : MemoryJs.WriteFailure)
    (key value : string) (d : MemoryJs.Disk) :
  let saved := MemoryJs.saveMemory toISOString (Some failure) key value d in
  saved.1 = Thrown (MemoryJs.write_error failure)
  /\ (CommandUtils.executeMemoryOperation
        (H := MemoryJs.exports toISOString (Some failure) stringifyLength)
        toLocaleString "saveMemory" [key; value] d).1
     = Returned
         (CommandUtils.mkOpResult "Memory Operation"
            ("Error executing memory operation: "
             ++ message (MemoryJs.write_error failure)) false)
  /\ match MemoryJs.write_stage failure with
     | MemoryJs.OnOpen => MemoryJs.memoryFile saved.2 = MemoryJs.memoryFile d
     | MemoryJs.OnWrite =>
         MemoryJs.memoryFile saved.2 = None
         /\ forall key',
              (MemoryJs.getMemory toISOString key' saved.2).1
              = Returned
                  (if array_includes JsObject.prototype_properties key'
                   then MemoryJs.Found JUndefined JUndefined
                   else MemoryJs.NotFound
                          ("Memory not found: " ++ dq ++ key' ++ dq))
     | MemoryJs.OnClose =>
         key <> "__proto__" ->
         exists t,
           (MemoryJs.getMemory toISOString key saved.2).1
           = Returned (MemoryJs.Found (JString value) (JString t))
     end.
Proof.
  cbv zeta.
  assert (H : exists t d',
            MemoryJs.saveMemory toISOString (Some failure) key value d
            = (Thrown (MemoryJs.write_error failure), d')
            /\ match MemoryJs.write_stage failure with
               | MemoryJs.OnOpen => MemoryJs.memoryFile d' = MemoryJs.memoryFile d
               | MemoryJs.OnWrite => MemoryJs.memoryFile d' = None
               | MemoryJs.OnClose =>
                   MemoryJs.userData (Notions.loaded toISOString d')
                   = JsObject.set key (MemoryJs.mkItem value t)
                       (MemoryJs.userData (Notions.loaded toISOString d))
               end).
  { unfold MemoryJs.saveMemory.
    destruct (update_fails failure
                (fun memory t =>
                   MemoryJs.mkMemory
                     (JsObject.set key (MemoryJs.mkItem value t) (MemoryJs.userData memory))
                     (MemoryJs.commandHistory memory) (MemoryJs.context memory)
                     (MemoryJs.lastUpdated memory))
                (fun _ _ =>
                   MemoryJs.mkStatus "success"
                     ("Memory saved: " ++ dq ++ key ++ dq ++ " = " ++ dq ++ value ++ dq)
                     (Some (key, value))) d)
      as (t & d' & E & Hf).
    exists t, d'. split; [exact E|].
    destruct (MemoryJs.write_stage failure); exact Hf. }
  destruct H as (t & d' & E & Hf). rewrite E. cbn [fst snd].
  split; [reflexivity|]. split.
  - unfold CommandUtils.executeMemoryOperation, try_catch.
    cbn [String.eqb Ascii.eqb Bool.eqb CommandUtils.saveMemory MemoryJs.exports].
    unfold bind at 1 2.
    change (CommandUtils.arg 0 [key; value]) with key.
    change (CommandUtils.arg 1 [key; value]) with value.
    now rewrite E.
  - destruct (MemoryJs.write_stage failure).
    + exact Hf.
    + split; [exact Hf|]. intros key'. rewrite getMemory_returns.
      unfold Notions.loaded. rewrite Hf. cbn [MemoryJs.userData].
      unfold JsObject.get. cbn [JsObject.get_own].
      now destruct (array_includes JsObject.prototype_properties key').
    + intros Hk. exists t. rewrite getMemory_returns, Hf.
      unfold JsObject.get. now rewrite get_own_set.
Qed.

(** The calls of the executor into the module. *)
Lemma saveMemory_runs (key value : string) (d : MemoryJs.Disk) :
  exists t d',
    MemoryJs.saveMemory toISOString None key value d
    = (Returned
         (MemoryJs.mkStatus "success"
            ("Memory saved: " ++ dq ++ key ++ dq ++ " = " ++ dq ++ value ++ dq)
            (Some (key, value))), d')
    /\ MemoryJs.userData (Notions.loaded toISOString d')
       = JsObject.set key (MemoryJs.mkItem value t)
           (MemoryJs.userData (Notions.loaded toISOString d)).
Proof.
  unfold MemoryJs.saveMemory.
  destruct (update_runs
              (fun memory t =>
                 MemoryJs.mkMemory
                   (JsObject.set key (MemoryJs.mkItem value t) (MemoryJs.userData memory))
                   (MemoryJs.commandHistory memory) (MemoryJs.context memory)
                   (MemoryJs.lastUpdated memory))
              (fun _ _ =>
                 MemoryJs.mkStatus "success"
                   ("Memory saved: " ++ dq ++ key ++ dq ++ " = " ++ dq ++ value ++ dq)
                   (Some (key, value))) d)
    as (t & d' & E & Hu & _).
  exists t, d'. split; [exact E | exact Hu].
Qed.

Lemma exports_saveMemory (key value : string) (d : MemoryJs.Disk) :
  exists t d',
    CommandUtils.executeMemoryOperation
      (H := MemoryJs.exports toISOString None stringifyLength)
      toLocaleString "saveMemory" [key; value] d
    = (Returned
         (CommandUtils.mkOpResult "Save Memory"
            ("Memory saved: " ++ dq ++ key ++ dq ++ " = " ++ dq ++ value ++ dq)
            true), d')
    /\ MemoryJs.userData (Notions.loaded toISOString d')
       = JsObject.set key (MemoryJs.mkItem value t)
           (MemoryJs.userData (Notions.loaded toISOString d)).
Proof.
  destruct (saveMemory_runs key value d) as (t & d' & E & Hu).
  exists t, d'. split; [|exact Hu].
  unfold CommandUtils.executeMemoryOperation, try_catch.
  cbn [String.eqb Ascii.eqb Bool.eqb CommandUtils.saveMemory MemoryJs.exports].
  unfold bind at 1 2.
  change (CommandUtils.arg 0 [key; value]) with key.
  change (CommandUtils.arg 1 [key; value]) with value.
  now rewrite E.
Qed.

Lemma exports_getMemory (key : string) (item : MemoryJs.Item) (d : MemoryJs.Disk) :
  JsObject.get_own key (MemoryJs.userData (Notions.loaded toISOString d))
  = Some item ->
  exists d',
    CommandUtils.executeMemoryOperation
      (H := MemoryJs.exports toISOString None stringifyLength)
      toLocaleString "getMemory" [key] d
    = (Returned
         (CommandUtils.mkOpResult "Recall Memory"
            (dq ++ key ++ dq ++ " = " ++ dq ++ MemoryJs.value item ++ dq
             ++ " (saved: " ++ toLocaleString (MemoryJs.timestamp item) ++ ")")
            true), d').
Proof.
  intros Hown.
  unfold CommandUtils.executeMemoryOperation, try_catch.
  cbn [String.eqb Ascii.eqb Bool.eqb CommandUtils.getMemory MemoryJs.exports].
  unfold bind at 1 2. change (CommandUtils.arg 0 [key]) with key.
  pose proof (getMemory_returns key d) as Hget.
  destruct (MemoryJs.getMemory toISOString key d) as [o d1].
  cbn [fst] in Hget. subst o. unfold JsObject.get. rewrite Hown.
  eexists. reflexivity.
Qed.

Lemma exports_addCommandToHistory (command : JsValue)
    (result : CommandUtils.HistoryResult) (d : MemoryJs.Disk) :
  exists d',
    CommandUtils.addCommandToHistory
      (MemoryModule := MemoryJs.exports toISOString None stringifyLength)
      command result d
    = (Returned tt, d')
    /\ MemoryJs.userData (Notions.loaded toISOString d')
       = MemoryJs.userData (Notions.loaded toISOString d)
    /\ exists t,
         MemoryJs.commandHistory (Notions.loaded toISOString d')
         = MemoryJs.mkHistoryEntry command result t
           :: firstn 9 (MemoryJs.commandHistory (Notions.loaded toISOString d)).
Proof.
  cbn [CommandUtils.addCommandToHistory MemoryJs.exports].
  unfold MemoryJs.addCommandToHistory.
  destruct (update_runs
              (fun memory t =>
                 MemoryJs.mkMemory (MemoryJs.userData memory)
                   (if (10 <? List.length
                                (MemoryJs.mkHistoryEntry command result t
                                 :: MemoryJs.commandHistory memory))%nat
                    then MemoryJs.slice_to 10
                           (MemoryJs.mkHistoryEntry command result t
                            :: MemoryJs.commandHistory memory)
                    else MemoryJs.mkHistoryEntry command result t
                         :: MemoryJs.commandHistory memory)
                   (MemoryJs.context memory) (MemoryJs.lastUpdated memory))
              (fun _ t => MemoryJs.mkHistoryEntry command result t) d)
    as (t & d' & E & Hu & Hh & _).
  exists d'. split; [unfold bind at 1; now rewrite E|]. split; [exact Hu|].
  exists t. rewrite Hh. cbn [MemoryJs.commandHistory List.length].
  destruct (10 <? S (List.length
                       (MemoryJs.commandHistory (Notions.loaded toISOString d))))%nat
    eqn:E10; [reflexivity|].
  apply Nat.ltb_ge in E10. f_equal. symmetry. apply firstn_all2. lia.
Qed.

End Module.

(** The laws at work on an empty disk, with a clock that stands still. *)
Lemma saveMemory_then_getMemory_witness :
  (MemoryJs.getMemory (fun _ => "2024-01-01T00:00:00.000Z") "name"
     (MemoryJs.saveMemory (fun _ => "2024-01-01T00:00:00.000Z") None
        "name" "Ada" (MemoryJs.mkDisk None 0)).2).1
  = Returned (MemoryJs.Found (JString "Ada") (JString "2024-01-01T00:00:00.000Z")).
Proof.
  destruct (saveMemory_then_getMemory (fun _ => "2024-01-01T00:00:00.000Z")
              "name" "Ada" (MemoryJs.mkDisk None 0))
    as (_ & t & Ht); [discriminate|].
  rewrite Ht. vm_compute in Ht. now injection Ht as <-.
Defined.

Lemma saveMemory_keeps_other_keys_witness :
  (MemoryJs.getMemory (fun _ => "2024-01-01T00:00:00.000Z") "name"
     (MemoryJs.saveMemory (fun _ => "2024-01-01T00:00:00.000Z") None
        "city" "Paris"
        (MemoryJs.saveMemory (fun _ => "2024-01-01T00:00:00.000Z") None
           "name" "Ada" (MemoryJs.mkDisk None 0)).2).2).1
  = Returned (MemoryJs.Found (JString "Ada") (JString "2024-01-01T00:00:00.000Z")).
Proof.
  rewrite (saveMemory_keeps_other_keys (fun _ => "2024-01-01T00:00:00.000Z")
             None "city" "Paris" "name") by discriminate.
  vm_compute. reflexivity.
Defined.

(** A disk that fills up while the memory is written: the key saved
    before is lost with the rest. *)
Lemma saveMemory_write_failure_witness :
  let toISOString := fun _ : nat => "2024-01-01T00:00:00.000Z" in
  let full := MemoryJs.mkWriteFailure
                (mkJsError "ENOSPC: no space left on device, write")
                MemoryJs.OnWrite in
  let before := (MemoryJs.saveMemory toISOString None "name" "Ada"
                   (MemoryJs.mkDisk None 0)).2 in
  let saved := MemoryJs.saveMemory toISOString (Some full) "city" "Paris" before in
  (MemoryJs.getMemory toISOString "name" before).1
  = Returned (MemoryJs.Found (JString "Ada") (JString "2024-01-01T00:00:00.000Z"))
  /\ saved.1 = Thrown (mkJsError "ENOSPC: no space left on device, write")
  /\ (MemoryJs.getMemory toISOString "name" saved.2).1
     = Returned (MemoryJs.NotFound ("Memory not found: " ++ dq ++ "name" ++ dq)).
Proof.
  cbv zeta. split; [vm_compute; reflexivity|].
  destruct (saveMemory_write_failure (fun _ => "2024-01-01T00:00:00.000Z")
              (fun _ => 0) (fun t => t)
              (MemoryJs.mkWriteFailure
                 (mkJsError "ENOSPC: no space left on device, write")
                 MemoryJs.OnWrite)
              "city" "Paris"
              (MemoryJs.saveMemory (fun _ => "2024-01-01T00:00:00.000Z") None
                 "name" "Ada" (MemoryJs.mkDisk None 0)).2)
    as (H1 & _ & _ & H3).
  split; [exact H1|]. exact (H3 "name").
Defined.

Lemma getMemory_finds_prototype_properties_witness :
  (MemoryJs.getMemory (fun _ => "2024-01-01T00:00:00.000Z") "constructor"
     (MemoryJs.mkDisk None 0)).1
  = Returned (MemoryJs.Found JUndefined JUndefined).
Proof.
  refine (proj1 (getMemory_finds_prototype_properties
                   (fun _ => "2024-01-01T00:00:00.000Z") (fun _ => 0)
                   (fun t => t) "constructor" (MemoryJs.mkDisk None 0) _ _));
    [now left | reflexivity].
Defined.

Lemma saveMemory_proto_stores_nothing_witness :
  MemoryJs.userData
    (Notions.loaded (fun _ => "2024-01-01T00:00:00.000Z")
       (MemoryJs.saveMemory (fun _ => "2024-01-01T00:00:00.000Z") None
          "__proto__" "Ada" (MemoryJs.mkDisk None 0)).2)
  = [].
Proof.
  refine (proj1 (proj2 (saveMemory_proto_stores_nothing
                          (fun _ => "2024-01-01T00:00:00.000Z") "Ada"
                          (MemoryJs.mkDisk None 0) _))).
  reflexivity.
Defined.

Lemma saved_memory_is_found_by_search_witness :
  exists r,
    (MemoryJs.searchMemory (fun _ => "2024-01-01T00:00:00.000Z") "ADA"
       (MemoryJs.saveMemory (fun _ => "2024-01-01T00:00:00.000Z") None
          "name" "Ada Lovelace" (MemoryJs.mkDisk None 0)).2).1 = Returned r
    /\ 0 < MemoryJs.count r.
Proof.
  destruct (saved_memory_is_found_by_search (fun _ => "2024-01-01T00:00:00.000Z")
              "name" "Ada Lovelace" "ADA" (MemoryJs.mkDisk None 0))
    as (r & Hr & _ & Hpos & _);
    [discriminate | reflexivity | right; split; reflexivity |].
  exists r. split; [exact Hr | exact Hpos].
Defined.

End MemoryFacts.

(** ** What the parser makes of the phrases it is written for *)

Module ParserLaws.
Import JsString JsRegExp JsValue CommandParser Notions SpecWords.
Import JsStringFacts RegExpFacts.

Lemma first_match_at (pre : list Pattern) (p : Pattern) (post : list Pattern)
    (inp : string) (m : captures) :
  Forall (fun q => match_ inp (p_regex q) = None) pre ->
  match_ inp (p_regex p) = Some m ->
  first_match (pre ++ p :: post) inp
  = Some (p_type p (p_fn p) (p_args p m) inp).
Proof.
  intros Hpre Hp. induction Hpre as [|q pre Hq _ IH]; cbn [app first_match].
  - now rewrite Hp.
  - now rewrite Hq.
Qed.

Lemma word_inv (k : string) :
  word k = true ->
  exists c a, k = String c a /\ is_space c = false /\ spaceless a = true.
Proof.
  unfold word, spaceless. destruct k as [|c a]; [discriminate|].
  cbn [String.eqb negb andb all_chars].
  intros [Hc Ha]%andb_prop. apply negb_true_iff in Hc. eauto.
Qed.

Lemma word_spaceless (k : string) : word k = true -> spaceless k = true.
Proof. unfold word. now intros [_ H]%andb_prop. Qed.

Lemma solid_inv (v : string) :
  solid v = true -> exists c a, v = String c a /\ is_space c = false.
Proof.
  unfold solid. destruct v as [|c a]; [discriminate|].
  intros [Hc _]%andb_prop. apply negb_true_iff in Hc. eauto.
Qed.

Lemma trim_solid (v : string) : solid v = true -> trim v = v.
Proof.
  intros Hv. destruct (solid_inv v Hv) as (c & a & -> & Hc).
  unfold trim. cbn [trimStart]. rewrite Hc.
  rewrite <- (append_nil_r (String c a)) at 1.
  rewrite (trimEnd_solid _ "" Hv). cbn [trimEnd]. apply append_nil_r.
Qed.

Lemma last_char_spaceless (c : ascii) (a : string) :
  spaceless (String c a) = true ->
  exists d, last_char (String c a) = Some d /\ is_space d = false.
Proof.
  revert c. induction a as [|c' a IH]; intros c Hs.
  - exists c. split; [reflexivity|]. unfold spaceless in Hs. cbn in Hs.
    apply andb_prop in Hs. destruct Hs as [Hs _]. now apply negb_true_iff in Hs.
  - apply spaceless_tail in Hs. destruct (IH c' Hs) as (d & Hd & Hsp).
    exists d. split; [|exact Hsp]. exact Hd.
Qed.

Lemma word_solid (k : string) : word k = true -> solid k = true.
Proof.
  intros Hk. destruct (word_inv k Hk) as (c & a & -> & Hc & Ha).
  destruct (last_char_spaceless c a (word_spaceless _ Hk)) as (d & Hd & Hsp).
  unfold solid. rewrite Hc, Hd, Hsp. reflexivity.
Qed.

Lemma trim_word (k : string) : word k = true -> trim k = k.
Proof. intros Hk. apply trim_solid. now apply word_solid. Qed.

(** [remember <key> is <value>] *)
Lemma exec_remember_is (k v : string) :
  word k = true -> solid v = true -> one_line v = true ->
  exec true
    (seq [lit "remember"; ws1; RGroup 1 (plus_lazy (RClass CAny)); ws1;
          lit "is"; ws1; RGroup 2 any1])
    ("remember " ++ k ++ " is " ++ v)
  = Some [(2, v); (1, k)].
Proof.
  intros Hk Hv Hline.
  destruct (word_inv k Hk) as (kc & ka & -> & Hkc & Hka).
  destruct (solid_inv v Hv) as (vc & va & -> & Hvc).
  apply exec_here. cbn [seq].
  change ("remember " ++ String kc ka ++ " is " ++ String vc va)
    with ("remember" ++ String " " (String kc (ka ++ " is " ++ String vc va))).
  rewrite rmatch_seq, rmatch_lit, rmatch_seq.
  apply rmatch_ws1_one; [reflexivity | exact Hkc |].
  rewrite rmatch_seq, rmatch_group.
  apply rmatch_plus_lazy_word; [exact Hkc | exact Hka | |].
  { intros d s' caps' Hd. rewrite rmatch_seq. unfold ws1 at 1, plus.
    rewrite rmatch_seq, rmatch_class. cbn [in_class]. now rewrite Hd. }
  change (String kc (ka ++ " is " ++ String vc va))
    with (String kc ka ++ " is " ++ String vc va).
  rewrite take_consumed.
  change (" is " ++ String vc va)
    with (String " " (String "i" ("s" ++ String " " (String vc va)))).
  rewrite rmatch_seq. apply rmatch_ws1_one; [reflexivity | reflexivity |].
  change (String "i" ("s" ++ String " " (String vc va)))
    with ("is" ++ String " " (String vc va)).
  rewrite rmatch_seq, rmatch_lit.
  rewrite rmatch_seq. apply rmatch_ws1_one; [reflexivity | exact Hvc |].
  rewrite rmatch_group. unfold any1.
  unfold one_line in Hline. cbn [all_chars] in Hline.
  apply andb_prop in Hline. destruct Hline as [Hc Ha].
  rewrite <- (append_nil_r va) at 1.
  apply rmatch_plus_greedy; [exact Hc | exact Ha | discriminate |].
  change (String.length "") with 0. now rewrite take_all.
Qed.

Lemma first_match_nth (n : nat) (patterns : list Pattern) (p : Pattern)
    (inp : string) (m : captures) :
  nth_error patterns n = Some p ->
  Forall (fun q => match_ inp (p_regex q) = None) (firstn n patterns) ->
  match_ inp (p_regex p) = Some m ->
  first_match patterns inp = Some (p_type p (p_fn p) (p_args p m) inp).
Proof.
  intros Hn Hpre Hp.
  rewrite <- (firstn_skipn n patterns).
  assert (Hs : exists post, skipn n patterns = p :: post).
  { clear Hpre. revert patterns Hn. induction n as [|n IH]; intros [|q ps] Hn;
      try discriminate.
    - injection Hn as ->. now exists ps.
    - now apply IH. }
  destruct Hs as [post ->]. now apply first_match_at.
Qed.

(** An expression that needs white space does not match a phrase whose
    only white space lies in its first words, when it matches at none of
    their positions. *)
Ltac no_match_in Hw :=
  unfold match_; cbn [p_regex re_icase re_tree];
  rewrite ?append_cons, ?append_nil;
  repeat (rewrite exec_skip by (vm_compute; reflexivity));
  apply exec_spaceless; [vm_compute; reflexivity | exact Hw].

Ltac no_match_before Hw :=
  unfold memoryOpPatterns, fileOpPatterns; cbn [firstn];
  repeat (apply List.Forall_cons; [no_match_in Hw|]); apply List.Forall_nil.

(** [recall <key>] *)
Lemma parse_recall (k : string) :
  word k = true ->
  parseCommand (JString ("recall " ++ k))
  = MemoryOp "getMemory" [k] ("recall " ++ k).
Proof.
  intros Hk. pose proof (word_spaceless k Hk) as Hw.
  destruct (word_inv k Hk) as (kc & ka & Ek & Hkc & Hka).
  unfold parseCommand.
  change (negb (truthy (JString ("recall " ++ k)))) with false. cbv iota.
  rewrite (first_match_nth 2 memoryOpPatterns _ ("recall " ++ k) [(1, k)] eq_refl).
  - cbn [p_type p_fn p_args group get_cap Nat.eqb]. now rewrite trim_word.
  - no_match_before Hw.
  - unfold match_. cbn [p_regex re_icase re_tree seq]. apply exec_here.
    change ("recall " ++ k) with ("recall" ++ String " " k).
    rewrite rmatch_seq, rmatch_lit, rmatch_seq. rewrite Ek.
    apply rmatch_ws1_one; [reflexivity | exact Hkc |].
    rewrite rmatch_group. unfold any1.
    rewrite <- (append_nil_r ka) at 1.
    apply rmatch_plus_greedy;
      [now apply in_class_any_nonspace | | discriminate |].
    + revert Hka. unfold spaceless. clear. induction ka as [|c a IH];
        [reflexivity|]. cbn [all_chars]. intros [Hc Ha]%andb_prop.
      apply negb_true_iff in Hc. now rewrite (in_class_any_nonspace c Hc), IH.
    + change (String.length "") with 0. now rewrite take_all.
Qed.

Lemma parse_remember_is (k v : string) :
  word k = true -> solid v = true -> one_line v = true ->
  parseCommand (JString ("remember " ++ k ++ " is " ++ v))
  = MemoryOp "saveMemory" [k; v] ("remember " ++ k ++ " is " ++ v).
Proof.
  intros Hk Hv Hline. unfold parseCommand.
  change (negb (truthy (JString ("remember " ++ k ++ " is " ++ v)))) with false.
  cbv iota.
  rewrite (first_match_nth 0 memoryOpPatterns _ _ [(2, v); (1, k)] eq_refl).
  - cbn [p_type p_fn p_args group get_cap Nat.eqb].
    now rewrite trim_word, trim_solid.
  - constructor.
  - unfold match_. cbn [p_regex re_icase re_tree]. now apply exec_remember_is.
Qed.

(** [<verb> file <name>] *)
Lemma exec_verb_file (verb f : string) :
  word f = true ->
  exec true (seq [lit verb; ws1; lit "file"; ws1; RGroup 1 nonws1])
    (verb ++ " file " ++ f)
  = Some [(1, f)].
Proof.
  intros Hf. destruct (word_inv f Hf) as (c & a & -> & Hc & Ha).
  apply exec_here. cbn [seq].
  change (" file " ++ String c a)
    with (String " " (String "f" ("ile" ++ String " " (String c a)))).
  rewrite rmatch_seq, rmatch_lit, rmatch_seq.
  apply rmatch_ws1_one; [reflexivity | reflexivity |].
  change (String "f" ("ile" ++ String " " (String c a)))
    with ("file" ++ String " " (String c a)).
  rewrite rmatch_seq, rmatch_lit, rmatch_seq.
  apply rmatch_ws1_one; [reflexivity | exact Hc |].
  rewrite rmatch_group. unfold nonws1.
  rewrite <- (append_nil_r a) at 1.
  apply rmatch_plus_greedy; [cbn; now rewrite Hc | exact Ha | discriminate |].
  change (String.length "") with 0. now rewrite take_all.
Qed.

Lemma parse_create_file (f : string) :
  word f = true ->
  parseCommand (JString ("create file " ++ f))
  = FileOp "createFile" [f] ("create file " ++ f).
Proof.
  intros Hf. pose proof (word_spaceless f Hf) as Hw. unfold parseCommand.
  change (negb (truthy (JString ("create file " ++ f)))) with false. cbv iota.
  rewrite (CommandParserFacts.first_match_none memoryOpPatterns)
    by (change memoryOpPatterns with (firstn 8 memoryOpPatterns);
        no_match_before Hw).
  rewrite (first_match_nth 0 fileOpPatterns _ _ [(1, f)] eq_refl).
  - reflexivity.
  - constructor.
  - unfold match_. cbn [p_regex re_icase re_tree].
    now apply (exec_verb_file "create").
Qed.

Lemma parse_delete_file (f : string) :
  word f = true ->
  parseCommand (JString ("delete file " ++ f))
  = FileOp "deleteFile" [f] ("delete file " ++ f).
Proof.
  intros Hf. pose proof (word_spaceless f Hf) as Hw. unfold parseCommand.
  change (negb (truthy (JString ("delete file " ++ f)))) with false. cbv iota.
  rewrite (CommandParserFacts.first_match_none memoryOpPatterns)
    by (change memoryOpPatterns with (firstn 8 memoryOpPatterns);
        no_match_before Hw).
  rewrite (first_match_nth 6 fileOpPatterns _ _ [(1, f)] eq_refl).
  - reflexivity.
  - no_match_before Hw.
  - unfold match_. cbn [p_regex re_icase re_tree].
    now apply (exec_verb_file "delete").
Qed.

(** X27: the phrases [create file <name>] and [delete file <name>] name
    the file they are about: for a name of ASCII characters without white
    space, the parser hands the name, as it is written, to [createFile]
    and to [deleteFile].  No path is refused and none is changed on the
    way. *)
Theorem file_phrases_name_their_file (f : string) :
  ascii_text f = true -> word f = true ->
  parseCommand (JString ("create file " ++ f))
  = FileOp "createFile" [f] ("create file " ++ f)
  /\ parseCommand (JString ("delete file " ++ f))
     = FileOp "deleteFile" [f] ("delete file " ++ f).
Proof.
  intros _ Hf. split; [now apply parse_create_file | now apply parse_delete_file].
Qed.

(** X19: a command of ASCII characters without white space matches no
    phrase of the parser: every row of its two tables needs white space
    behind a word, so the command is handed to the shell branch as it
    is. *)
Theorem spaceless_command_is_a_shell_command (s : string) :
  s <> "" -> ascii_text s = true -> spaceless s = true ->
  parseCommand (JString s) = Shell s s.
Proof.
  intros Hs _ Hw. unfold parseCommand.
  replace (negb (truthy (JString s))) with false
    by (cbn; now destruct (String.eqb_spec s "")).
  rewrite (CommandParserFacts.first_match_none memoryOpPatterns)
    by (change memoryOpPatterns with (firstn 8 memoryOpPatterns);
        rewrite <- (append_nil s); no_match_before Hw).
  rewrite (CommandParserFacts.first_match_none fileOpPatterns)
    by (change fileOpPatterns with (firstn 10 fileOpPatterns);
        rewrite <- (append_nil s); no_match_before Hw).
  now destruct (array_includes shellCommands _).
Qed.

(** The rows of the memory table name operations the executor
    implements, with the arguments they read. *)
Lemma memoryOp_rows_known (inp : string) (r : ParseResult) :
  first_match memoryOpPatterns inp = Some r ->
  exists fn args,
    r = MemoryOp fn args inp
    /\ ((fn = "saveMemory" /\ List.length args = 2)
        \/ (In fn ["getMemory"; "searchMemory"] /\ List.length args = 1)
        \/ (In fn ["getAllMemory"; "clearMemory"; "getMemoryStats";
                   "getCommandHistory"] /\ args = [])).
Proof.
  unfold memoryOpPatterns. simpl.
  repeat match goal with
         | |- context [match_ inp ?re] => destruct (match_ inp re)
         end;
    try discriminate;
    intros [= <-]; eexists _, _; (split; [reflexivity|]); simpl; tauto.
Qed.

(** The three ways through [parseCommand] for a non-empty text. *)
Lemma parseCommand_cases (s : string) :
  s <> "" ->
  (exists r, first_match memoryOpPatterns s = Some r
             /\ parseCommand (JString s) = r)
  \/ (first_match memoryOpPatterns s = None
      /\ exists r, first_match fileOpPatterns s = Some r
                   /\ parseCommand (JString s) = r)
  \/ (first_match memoryOpPatterns s = None
      /\ first_match fileOpPatterns s = None
      /\ parseCommand (JString s) = Shell s s).
Proof.
  intros Hs. unfold parseCommand.
  replace (negb (truthy (JString s))) with false
    by (cbn; now destruct (String.eqb_spec s "")).
  destruct (first_match memoryOpPatterns s) as [r|]; [left; eauto|].
  destruct (first_match fileOpPatterns s) as [r|]; [right; left; eauto|].
  right. right. now destruct (array_includes shellCommands _).
Qed.

Lemma parseCommand_shape (input : JsValue) :
  match parseCommand input with
  | ParseError _ => is_nonempty_string input = false
  | FileOp fn args _ =>
      forall workingDir cwd dirSize mtimeDate localeCompare,
        FileOps.method workingDir cwd dirSize mtimeDate localeCompare fn args
        <> None
  | OtherType _ => False
  | _ => True
  end.
Proof.
  destruct input as [| |b|n|s|]; try reflexivity.
  destruct (String.eqb_spec s "") as [->|Hs]; [reflexivity|].
  destruct (parseCommand_cases s Hs)
    as [(r & Hm & ->)|[(_ & r & Hf & ->)|(_ & _ & ->)]].
  - destruct (memoryOp_rows_known s r Hm) as (fn & args & -> & Hfn). exact I.
  - destruct (CommandParserFacts.fileOp_rows_callable s r Hf)
      as (fn & args & -> & Hfn). exact Hfn.
  - exact I.
Qed.

(** X20: the shape of what [parseCommand] returns: the original input is the
    text given; a memory operation is one of the seven the executor
    implements, with the arguments it reads; a file operation is a method
    of [FileOperations] with its arguments; a shell command is the text as
    given; an error is returned for what is no non-empty string only; and
    no other type of result is ever returned. *)
Theorem parseCommand_results_can_be_executed (input : JsValue) :
  match parseCommand input with
  | ParseError _ => is_nonempty_string input = false
  | MemoryOp fn args orig =>
      input = JString orig
      /\ ((fn = "saveMemory" /\ List.length args = 2)
          \/ (In fn ["getMemory"; "searchMemory"] /\ List.length args = 1)
          \/ (In fn ["getAllMemory"; "clearMemory"; "getMemoryStats";
                     "getCommandHistory"] /\ args = []))
  | FileOp fn args orig =>
      input = JString orig
      /\ forall workingDir cwd dirSize mtimeDate localeCompare,
           FileOps.method workingDir cwd dirSize mtimeDate localeCompare fn args
           <> None
  | Shell command orig => input = JString command /\ orig = command
  | OtherType _ => False
  end.
Proof.
  destruct input as [| |b|n|s|]; try reflexivity.
  destruct (String.eqb_spec s "") as [->|Hs]; [reflexivity|].
  destruct (parseCommand_cases s Hs)
    as [(r & Hm & ->)|[(_ & r & Hf & ->)|(_ & _ & ->)]].
  - destruct (memoryOp_rows_known s r Hm) as (fn & args & -> & Hfn). auto.
  - destruct (CommandParserFacts.fileOp_rows_callable s r Hf)
      as (fn & args & -> & Hfn). auto.
  - auto.
Qed.

Lemma file_phrases_name_their_file_witness :
  parseCommand (JString "create file ../../etc/motd")
  = FileOp "createFile" ["../../etc/motd"] "create file ../../etc/motd".
Proof.
  exact (proj1 (file_phrases_name_their_file "../../etc/motd" eq_refl eq_refl)).
Defined.

Lemma spaceless_command_is_a_shell_command_witness :
  parseCommand (JString "listfiles") = Shell "listfiles" "listfiles".
Proof.
  apply spaceless_command_is_a_shell_command;
    [discriminate | reflexivity | reflexivity].
Defined.

End ParserLaws.

(** ** The executor wired to its modules *)

Module ExecutorLaws.
Import JsString JsValue Effects NodeFs CommandUtils Notions SpecWords.
Import JsStringFacts ParserLaws MemoryFacts FileOpsLaws.

(** The memory branch of [executeCommand] when nothing throws. *)
Lemma executeCommand_memoryOp {W : Type}
    (parseCommand : JsValue -> M W CommandParser.ParseResult)
    (executeMemoryOperation : string -> list string -> M W OpResult)
    (fileOperation : string -> list string -> M W FileOps.OpResult)
    (runShell : JsValue -> M W ShellResult)
    (addToHistory : JsValue -> HistoryResult -> M W unit)
    (commandText : JsValue) (w w1 w2 w3 : W) (fn : string) (args : list string)
    (orig : string) (r : OpResult) :
  parseCommand commandText w
  = (Returned (CommandParser.MemoryOp fn args orig), w1) ->
  executeMemoryOperation fn args w1 = (Returned r, w2) ->
  addToHistory commandText (OfMemoryOp r) w2 = (Returned tt, w3) ->
  CommandUtils.executeCommand parseCommand executeMemoryOperation fileOperation
    runShell addToHistory commandText w
  = (Returned (mkExecutionResult commandText (op_action r) (op_result r)
                 (op_success r) None None), w3).
Proof.
  intros Hp Hm Hh.
  unfold CommandUtils.executeCommand, memory_branch, try_catch, bind, ret.
  now rewrite Hp, Hm, Hh.
Qed.

Lemma safe_command_is_string (command : JsValue) :
  Security.safe (Security.isCommandSafe command) = true ->
  exists s, command = JString s.
Proof.
  intros Hsafe. apply SecurityFacts.isCommandSafe_safe_is_string in Hsafe.
  destruct command; try discriminate. eauto.
Qed.

(** What the shell runner emits: a call of [exec] only for a string the
    policy engine approves, in the sandbox directory, with the limits of
    the runner. *)
Lemma executeShellCommand_events (homedir : string)
    (exec : string -> ExecCall) (command : JsValue)
    (c dir : string) (timeout maxBuffer : Z) :
  In (Exec c dir timeout maxBuffer) (executeShellCommand homedir exec command).2 ->
  command = JString c
  /\ Security.safe (Security.isCommandSafe (JString c)) = true
  /\ dir = WORKING_DIR homedir /\ timeout = 10000%Z /\ maxBuffer = 1048576%Z.
Proof.
  destruct (Security.safe (Security.isCommandSafe command)) eqn:Hsafe.
  - destruct (safe_command_is_string command Hsafe) as [s ->].
    rewrite (CommandUtilsFacts.executeShellCommand_safe _ _ _ Hsafe). cbv zeta.
    destruct (exec s) as [e|o]; cbn [snd].
    + cbn. intros [H|[H|[]]]; [discriminate|].
      injection H as <- <- <- <-. auto.
    + unfold on_exit. destruct (exec_error o); cbn [snd fst];
        (destruct (if code_is _ _ then _ else _) || idtac);
        cbn; intros [H|[H|[H|[]]]]; try discriminate;
        injection H as <- <- <- <-; auto.
  - rewrite (CommandUtilsFacts.executeShellCommand_unsafe _ _ _ Hsafe).
    cbn. intros [H|[]]. discriminate.
Qed.

(** A runner that returns a result is never both successful and blocked. *)
Lemma executeShellCommand_not_both (homedir : string)
    (exec : string -> ExecCall) (command : JsValue) (r : ShellResult) :
  (executeShellCommand homedir exec command).1 = Returned r ->
  sh_success r && sh_blocked r = false.
Proof.
  destruct (Security.safe (Security.isCommandSafe command)) eqn:Hsafe.
  - destruct (safe_command_is_string command Hsafe) as [s ->].
    rewrite (CommandUtilsFacts.executeShellCommand_safe _ _ _ Hsafe). cbv zeta.
    destruct (exec s) as [e|o]; cbn [fst]; [discriminate|].
    intros [= <-]. unfold on_exit.
    destruct (exec_error o);
      [destruct (if code_is _ _ then _ else _)|];
      cbn; first [reflexivity | apply andb_false_r].
  - rewrite (CommandUtilsFacts.executeShellCommand_unsafe _ _ _ Hsafe).
    cbn [fst]. now intros [= <-].
Qed.

(** X21: for what is no shell command, the two revisions of
    [executeCommand] differ in what they add to the result only.  Each
    revision has a shell runner of its own; on a text that the parser
    makes a memory operation, a file operation or an error of, they leave
    the same world and their results agree on [input], [action], [result]
    and [success]; the earlier revision sets neither [blocked] nor
    [code]. *)
Theorem revisions_of_executeCommand_agree {W : Type}
    (parseCommand : JsValue -> M W CommandParser.ParseResult)
    (executeMemoryOperation : string -> list string -> M W OpResult)
    (fileOperation : string -> list string -> M W FileOps.OpResult)
    (earlierRunner currentRunner : JsValue -> M W ShellResult)
    (addToHistory : JsValue -> HistoryResult -> M W unit)
    (commandText : string) (w w1 : W) (parsed : CommandParser.ParseResult) :
  parseCommand (JString commandText) w = (Returned parsed, w1) ->
  CommandParser.type parsed <> "shell" ->
  let earlier := CommandUtilsLegacy.executeCommand parseCommand
                   executeMemoryOperation fileOperation earlierRunner
                   addToHistory (JString commandText) w in
  let current := CommandUtils.executeCommand parseCommand
                   executeMemoryOperation fileOperation currentRunner
                   addToHistory (JString commandText) w in
  earlier.2 = current.2
  /\ exists r r',
       earlier.1 = Returned r /\ current.1 = Returned r'
       /\ input r = input r' /\ action r = action r'
       /\ result r = result r' /\ success r = success r'
       /\ blocked r = None /\ code r = None.
Proof.
  intros Hp Hns. cbv zeta.
  unfold CommandUtilsLegacy.executeCommand, CommandUtils.executeCommand,
    memory_branch, file_branch, shell_branch, try_catch, bind, ret.
  rewrite Hp.
  destruct parsed as [err|fn args orig|fn args orig|command orig|t].
  - split; [reflexivity|]. eexists _, _. repeat split; reflexivity.
  - destruct (executeMemoryOperation fn args w1) as [[r|e] w2];
      [destruct (addToHistory (JString commandText) (OfMemoryOp r) w2)
         as [[[]|e] w3]|];
      (split; [reflexivity|]); eexists _, _; repeat split; reflexivity.
  - destruct (fileOperation fn args w1) as [[r|e] w2];
      [destruct (addToHistory (JString commandText) (OfFileOp r) w2)
         as [[[]|e] w3]|];
      (split; [reflexivity|]); eexists _, _; repeat split; reflexivity.
  - now contradiction Hns.
  - split; [reflexivity|]. eexists _, _. repeat split; reflexivity.
Qed.

Lemma includes_self (s : string) : includes s s = true.
Proof.
  apply includes_here. induction s as [|c s IH]; [reflexivity|].
  cbn [startsWith]. now rewrite Ascii.eqb_refl.
Qed.

Section Backend.
Context {Mem : Type} `{MemoryModule Mem}.
Variables (homedir cwd : string).
Variable exec : string -> ExecCall.
Variable dirSize : nat.
Variable mtimeDate : string -> string.
Variable localeCompare : string -> string -> Z.
Variable toLocaleString : string -> string.

(** The shell branch of the backend, step by step. *)
Lemma run_shell (commandText : JsValue) (command : string)
    (w : Backend.World Mem) :
  shell_branch (Backend.run_executeShellCommand homedir exec)
    (fun commandText r => Backend.in_memory (addCommandToHistory commandText r))
    commandText command w
  = let shell := executeShellCommand homedir exec (JString command) in
    let failed e :=
      Returned (mkExecutionResult commandText "Shell Command Error"
                  ("Error executing shell command: " ++ message e)
                  false None (Some "E_SHELL_COMMAND_FAILED")) in
    match shell.1 with
    | Returned r =>
        match addCommandToHistory commandText (OfShell r) (Backend.memory w) with
        | (Returned _, m2) =>
            (Returned (mkExecutionResult commandText "Shell Command" (output r)
                         (sh_success r) (Some (sh_blocked r || false)) None),
             Backend.mkWorld (Backend.fs w) (Backend.events w ++ shell.2) m2)
        | (Thrown e, m2) =>
            (failed e,
             Backend.mkWorld (Backend.fs w) (Backend.events w ++ shell.2) m2)
        end
    | Thrown e =>
        (failed e,
         Backend.mkWorld (Backend.fs w) (Backend.events w ++ shell.2)
           (Backend.memory w))
    end.
Proof.
  unfold shell_branch, try_catch, bind, ret, Backend.in_memory,
    Backend.run_executeShellCommand. cbv zeta.
  destruct (executeShellCommand homedir exec (JString command)) as [[r|e] evs];
    [|reflexivity].
  cbn [fst snd Backend.memory Backend.fs Backend.events].
  destruct (addCommandToHistory commandText (OfShell r) (Backend.memory w))
    as [[[]|e] m2]; reflexivity.
Qed.

(** X22: whatever the input and the state of the world, the only subprocess a
    command starts is the text of the command itself, approved by
    [isCommandSafe], run in the sandbox directory with a timeout of ten
    seconds and a buffer of one megabyte; memory and file commands start
    none and log nothing. *)
Theorem every_subprocess_is_an_approved_command
    (commandText : JsValue) (w : Backend.World Mem) :
  let run := Backend.executeCommand homedir cwd exec dirSize mtimeDate
               localeCompare toLocaleString commandText w in
  exists evs,
    Backend.events run.2 = (Backend.events w ++ evs)%list
    /\ (CommandParser.type (CommandParser.parseCommand commandText) <> "shell" ->
        evs = [])
    /\ forall c dir timeout maxBuffer,
         In (Exec c dir timeout maxBuffer) evs ->
         commandText = JString c
         /\ Security.safe (Security.isCommandSafe (JString c)) = true
         /\ dir = WORKING_DIR homedir
         /\ timeout = 10000%Z /\ maxBuffer = 1048576%Z.
Proof.
  cbv zeta. unfold Backend.executeCommand, CommandUtils.executeCommand.
  unfold try_catch at 1. unfold bind at 1. unfold Backend.run_parseCommand at 1.
  unfold ret at 1.
  destruct (CommandParser.parseCommand commandText)
    as [err|fn args orig|fn args orig|command orig|t] eqn:Hp.
  - exists []. cbn. rewrite app_nil_r. split; [reflexivity|]. split; [auto|].
    intros c dir timeout maxBuffer [].
  - exists []. rewrite app_nil_r. split; [|split; [auto | intros ? ? ? ? []]].
    unfold memory_branch, try_catch, bind, ret, Backend.in_memory.
    destruct (executeMemoryOperation toLocaleString fn args (Backend.memory w))
      as [[r|e] m1]; [|reflexivity].
    cbn [Backend.memory Backend.fs Backend.events].
    destruct (addCommandToHistory commandText (OfMemoryOp r) m1) as [[[]|e] m2];
      reflexivity.
  - exists []. rewrite app_nil_r. split; [|split; [auto | intros ? ? ? ? []]].
    unfold file_branch, try_catch, bind, ret, Backend.in_memory,
      Backend.run_fileOperation.
    destruct (FileOps.method _ _ _ _ _ fn args) as [method|]; [|reflexivity].
    destruct (method (Backend.fs w)) as [r st'].
    cbn [Backend.memory Backend.fs Backend.events].
    destruct (addCommandToHistory commandText (OfFileOp r) (Backend.memory w))
      as [[[]|e] m2]; reflexivity.
  - assert (Hc : commandText = JString command).
    { destruct commandText as [| |b|n|s|]; try discriminate.
      pose proof (CommandUtilsFacts.parseCommand_shell_inv s) as Hs.
      rewrite Hp in Hs. specialize (Hs eq_refl). now injection Hs as ->. }
    exists (executeShellCommand homedir exec (JString command)).2.
    split; [|split].
    + rewrite run_shell. cbv zeta.
      destruct (executeShellCommand homedir exec (JString command)).1 as [r|e];
        [|reflexivity].
      destruct (addCommandToHistory commandText (OfShell r) (Backend.memory w))
        as [[[]|e] m2]; reflexivity.
    + cbn. congruence.
    + intros c dir timeout maxBuffer Hin.
      destruct (executeShellCommand_events _ _ _ _ _ _ _ Hin) as (Hs & Hrest).
      split; [congruence | exact Hrest].
  - exists []. cbn. rewrite app_nil_r. split; [reflexivity|]. split; [auto|].
    intros c dir timeout maxBuffer [].
Qed.

Lemma executeMemoryOperation_returns (operation : string) (args : list string)
    (mem : Mem) :
  exists r mem',
    executeMemoryOperation toLocaleString operation args mem = (Returned r, mem').
Proof.
  unfold executeMemoryOperation, try_catch.
  match goal with
  | |- context [match ?m mem with _ => _ end] => destruct (m mem) as [[r|e] mem']
  end; unfold ret; eauto.
Qed.

(** X23: what an error code of the backend means, for a command that is
    a string.  [E_PARSE_ERROR] is the empty string.  The memory
    operations, the file operations and the callback of the shell runner
    turn their own failures into results, so the error of a branch comes
    from the write of the command history, which threw, or, in the shell
    branch, from [exec], which threw when it was called.  The parser does
    not throw and returns no unknown type: there is no [E_SYSTEM_ERROR]
    and no [E_UNKNOWN_COMMAND] for a string.  A result with a code has
    [success: false]. *)
Theorem error_codes_of_the_backend
    (commandText : string) (w : Backend.World Mem) :
  let run := Backend.executeCommand homedir cwd exec dirSize mtimeDate
               localeCompare toLocaleString (JString commandText) w in
  exists r,
    run.1 = Returned r
    /\ match code r with
       | None => True
       | Some c =>
           success r = false
           /\ ((c = "E_PARSE_ERROR" /\ commandText = "")
               \/ (c = "E_SHELL_COMMAND_FAILED"
                   /\ Security.safe (Security.isCommandSafe (JString commandText))
                      = true
                   /\ exists e,
                        exec commandText = Throws e
                        /\ result r
                           = "Error executing shell command: " ++ message e)
               \/ (In c ["E_MEMORY_OPERATION_FAILED"; "E_FILE_OPERATION_FAILED";
                         "E_SHELL_COMMAND_FAILED"]
                   /\ exists done mem1 e mem2,
                        addCommandToHistory (JString commandText) done mem1
                        = (Thrown e, mem2)
                        /\ includes (result r) (message e) = true))
       end.
Proof.
  cbv zeta. unfold Backend.executeCommand, CommandUtils.executeCommand.
  unfold try_catch at 1. unfold bind at 1. unfold Backend.run_parseCommand at 1.
  unfold ret at 1.
  pose proof (parseCommand_shape (JString commandText)) as Hshape.
  destruct (CommandParser.parseCommand (JString commandText))
    as [err|fn args orig|fn args orig|command orig|t] eqn:Hp.
  - eexists. split; [reflexivity|]. cbn [code success]. split; [reflexivity|].
    left. split; [reflexivity|]. cbn in Hshape.
    apply negb_false_iff in Hshape. now apply String.eqb_eq in Hshape.
  - unfold memory_branch, try_catch, bind, ret, Backend.in_memory.
    destruct (executeMemoryOperation_returns fn args (Backend.memory w))
      as (r & m1 & ->).
    cbn [Backend.memory Backend.fs Backend.events].
    destruct (addCommandToHistory (JString commandText) (OfMemoryOp r) m1)
      as [[[]|e] m2] eqn:Hh; eexists; (split; [reflexivity|]); cbn [code]; [exact I|].
    split; [reflexivity|]. right. right. split; [cbn; auto|].
    exists (OfMemoryOp r), m1, e, m2. split; [exact Hh|].
    cbn [result]. apply includes_app_l, includes_self.
  - rename Hshape into Hmethod.
    unfold file_branch, try_catch, bind, ret, Backend.in_memory,
      Backend.run_fileOperation.
    destruct (FileOps.method (WORKING_DIR homedir) cwd dirSize mtimeDate
                localeCompare fn args) as [method|] eqn:Hm;
      [|now apply Hmethod in Hm].
    destruct (method (Backend.fs w)) as [r st'].
    cbn [Backend.memory Backend.fs Backend.events].
    destruct (addCommandToHistory (JString commandText) (OfFileOp r)
                (Backend.memory w))
      as [[[]|e] m2] eqn:Hh; eexists; (split; [reflexivity|]); cbn [code]; [exact I|].
    split; [reflexivity|]. right. right. split; [cbn; auto|].
    exists (OfFileOp r), (Backend.memory w), e, m2. split; [exact Hh|].
    cbn [result]. apply includes_app_l, includes_self.
  - assert (Hc : command = commandText).
    { pose proof (CommandUtilsFacts.parseCommand_shell_inv commandText) as Hs.
      rewrite Hp in Hs. specialize (Hs eq_refl). now injection Hs as ->. }
    subst command. rewrite run_shell. cbv zeta.
    destruct (Security.safe (Security.isCommandSafe (JString commandText)))
      eqn:Hsafe.
    + rewrite (CommandUtilsFacts.executeShellCommand_safe _ _ _ Hsafe). cbv zeta.
      destruct (exec commandText) as [e|o] eqn:Hexec; cbn [fst snd].
      * eexists. split; [reflexivity|]. cbn [code success result].
        split; [reflexivity|]. right. left. split; [reflexivity|].
        split; [reflexivity|]. now exists e.
      * destruct (addCommandToHistory (JString commandText)
                    (OfShell (on_exit commandText o).1) (Backend.memory w))
          as [[[]|e] m2] eqn:Hh; eexists; (split; [reflexivity|]); cbn [code];
          [exact I|].
        split; [reflexivity|]. right. right. split; [cbn; auto|].
        exists (OfShell (on_exit commandText o).1), (Backend.memory w), e, m2.
        split; [exact Hh|]. cbn [result]. apply includes_app_l, includes_self.
    + rewrite (CommandUtilsFacts.executeShellCommand_unsafe _ _ _ Hsafe).
      cbn [fst snd].
      match goal with
      | |- context [addCommandToHistory ?c ?d ?m] =>
          destruct (addCommandToHistory c d m) as [[[]|e] m2] eqn:Hh
      end; eexists; (split; [reflexivity|]); cbn [code]; [exact I|].
      split; [reflexivity|]. right. right. split; [cbn; auto|].
      eexists _, _, e, m2. split; [exact Hh|].
      cbn [result]. apply includes_app_l, includes_self.
  - destruct Hshape.
Qed.

(** X24: a result of the backend is never both successful and blocked, so
    the status the handler stores in the history, which looks at
    [success] first, is the status of the response, which looks at
    [blocked] first. *)
Theorem response_status_is_the_stored_status
    (commandText : JsValue) (w : Backend.World Mem) :
  let run := Backend.executeCommand homedir cwd exec dirSize mtimeDate
               localeCompare toLocaleString commandText w in
  exists r,
    run.1 = Returned r
    /\ (success r && Server.is_blocked r = false)
    /\ Server.status (Server.response commandText r) = Server.historyStatus r
    /\ toLowerCase (Server.logStatus r) = Server.historyStatus r.
Proof.
  cbv zeta.
  assert (Hgen : forall r, success r && Server.is_blocked r = false ->
            Server.status (Server.response commandText r) = Server.historyStatus r
            /\ toLowerCase (Server.logStatus r) = Server.historyStatus r).
  { intros r Hr. unfold Server.response, Server.historyStatus, Server.logStatus.
    destruct (success r), (Server.is_blocked r); try discriminate;
      split; reflexivity. }
  assert (Hexcl : exists r,
            (Backend.executeCommand homedir cwd exec dirSize mtimeDate
               localeCompare toLocaleString commandText w).1 = Returned r
            /\ success r && Server.is_blocked r = false).
  { unfold Backend.executeCommand, CommandUtils.executeCommand.
    unfold try_catch at 1. unfold bind at 1. unfold Backend.run_parseCommand at 1.
    unfold ret at 1.
    destruct (CommandParser.parseCommand commandText)
      as [err|fn args orig|fn args orig|command orig|t].
    - eexists. split; reflexivity.
    - unfold memory_branch, try_catch, bind, ret, Backend.in_memory.
      destruct (executeMemoryOperation toLocaleString fn args (Backend.memory w))
        as [[r|e] m1]; [|eexists; split; reflexivity].
      cbn [Backend.memory Backend.fs Backend.events].
      destruct (addCommandToHistory commandText (OfMemoryOp r) m1)
        as [[[]|e] m2]; eexists; (split; [reflexivity|]);
        unfold Server.is_blocked; cbn; first [reflexivity | apply andb_false_r].
    - unfold file_branch, try_catch, bind, ret, Backend.in_memory,
        Backend.run_fileOperation.
      destruct (FileOps.method _ _ _ _ _ fn args) as [method|];
        [|eexists; split; reflexivity].
      destruct (method (Backend.fs w)) as [r st'].
      cbn [Backend.memory Backend.fs Backend.events].
      destruct (addCommandToHistory commandText (OfFileOp r) (Backend.memory w))
        as [[[]|e] m2]; eexists; (split; [reflexivity|]);
        unfold Server.is_blocked; cbn; first [reflexivity | apply andb_false_r].
    - rewrite run_shell. cbv zeta.
      pose proof (executeShellCommand_not_both homedir exec (JString command))
        as Hsh.
      destruct (executeShellCommand homedir exec (JString command)).1 as [r|e];
        [|eexists; split; reflexivity].
      specialize (Hsh r eq_refl).
      destruct (addCommandToHistory commandText (OfShell r) (Backend.memory w))
        as [[[]|e] m2]; eexists; (split; [reflexivity|]);
        unfold Server.is_blocked; cbn; [|reflexivity].
      now rewrite orb_false_r.
    - eexists. split; reflexivity. }
  destruct Hexcl as (r & Hr & Hx). exists r. split; [exact Hr|].
  split; [exact Hx|]. now apply Hgen.
Qed.

(** X25: the class the runner gives to a failed subprocess does not reach the
    response.  For an error that [exec] hands to the callback, the runner
    chooses a code; [executeCommand] copies the text and drops the code,
    and the handler puts [E_COMMAND_FAILED] in its place, for a timeout, a
    shell that could not be started and an exit status alike. *)
Theorem failed_subprocess_is_reported_as_command_failed
    (cmd : string) (w : Backend.World Mem) (o : ExecOutcome) (error : ExecError)
    (mem' : Mem) :
  CommandParser.type (CommandParser.parseCommand (JString cmd)) = "shell" ->
  Security.safe (Security.isCommandSafe (JString cmd)) = true ->
  exec cmd = CallsBack o ->
  exec_error o = Some error ->
  code_is error "ENOTDIR" = false ->
  let shell := (on_exit cmd o).1 in
  addCommandToHistory (JString cmd) (OfShell shell) (Backend.memory w)
  = (Returned tt, mem') ->
  let run := Backend.executeCommand homedir cwd exec dirSize mtimeDate
               localeCompare toLocaleString (JString cmd) w in
  (executeShellCommand homedir exec (JString cmd)).1 = Returned shell
  /\ In (sh_code shell)
       [Some "E_COMMAND_NOT_FOUND"; Some "E_PERMISSION_DENIED";
        Some "E_COMMAND_TIMEOUT"; Some "E_COMMAND_FAILED"]
  /\ exists r,
       run.1 = Returned r
       /\ code r = None
       /\ Server.status (Server.response (JString cmd) r) = "error"
       /\ Server.code (Server.response (JString cmd) r) = "E_COMMAND_FAILED"
       /\ Server.message (Server.response (JString cmd) r)
          = or_else (output shell) "Command execution failed".
Proof.
  intros Hshell Hsafe Hexec Herr Hdir. cbv zeta. intros Hh.
  assert (Hrun : sh_success (on_exit cmd o).1 = false
                 /\ sh_blocked (on_exit cmd o).1 = false
                 /\ In (sh_code (on_exit cmd o).1)
                      [Some "E_COMMAND_NOT_FOUND"; Some "E_PERMISSION_DENIED";
                       Some "E_COMMAND_TIMEOUT"; Some "E_COMMAND_FAILED"]).
  { unfold on_exit. rewrite Herr, Hdir.
    destruct (code_is error "ENOENT"); [cbn; auto 10|].
    destruct (code_is error "EACCES"); [cbn; auto 10|].
    destruct (signal_is error "SIGTERM"); cbn; auto 10. }
  destruct Hrun as (Hs & Hb & Hc).
  assert (Hsh : executeShellCommand homedir exec (JString cmd)
                = (Returned (on_exit cmd o).1,
                   ([LogCommand cmd "SUCCESS" "Command passed security checks";
                     Exec cmd (WORKING_DIR homedir) 10000 (1024 * 1024)]
                    ++ (on_exit cmd o).2)%list)).
  { rewrite (CommandUtilsFacts.executeShellCommand_safe _ _ _ Hsafe), Hexec.
    reflexivity. }
  split; [now rewrite Hsh|]. split; [exact Hc|].
  unfold Backend.executeCommand, CommandUtils.executeCommand.
  unfold try_catch at 1. unfold bind at 1. unfold Backend.run_parseCommand at 1.
  unfold ret at 1.
  rewrite (CommandUtilsFacts.parseCommand_shell_inv cmd Hshell).
  rewrite run_shell. cbv zeta. rewrite Hsh. cbn [fst snd]. rewrite Hh.
  eexists. split; [reflexivity|]. split; [reflexivity|].
  unfold Server.response, Server.is_blocked. cbn [blocked success result code].
  rewrite Hs, Hb. cbn. auto.
Qed.

End Backend.

Section Wired.
(** The backend with [memory.js] as its memory module, with a memory file
    that can be written. *)
Variables (homedir cwd : string).
Variable exec : string -> ExecCall.
Variable dirSize : nat.
Variable mtimeDate : string -> string.
Variable localeCompare : string -> string -> Z.
Variable toLocaleString : string -> string.
Variable toISOString : nat -> string.
Variable stringifyLength : MemoryJs.Memory -> nat.

Lemma run_memoryOp (commandText : string) (w : Backend.World MemoryJs.Disk)
    (fn : string) (args : list string) (r : OpResult) (d1 : MemoryJs.Disk) :
  CommandParser.parseCommand (JString commandText)
  = CommandParser.MemoryOp fn args commandText ->
  executeMemoryOperation
    (H := MemoryJs.exports toISOString None stringifyLength)
    toLocaleString fn args (Backend.memory w) = (Returned r, d1) ->
  exists d2,
    Backend.executeCommand
      (H := MemoryJs.exports toISOString None stringifyLength)
      homedir cwd exec dirSize mtimeDate localeCompare toLocaleString
      (JString commandText) w
    = (Returned (mkExecutionResult (JString commandText) (op_action r)
                   (op_result r) (op_success r) None None),
       Backend.mkWorld (Backend.fs w) (Backend.events w) d2)
    /\ MemoryJs.userData (Notions.loaded toISOString d2)
       = MemoryJs.userData (Notions.loaded toISOString d1).
Proof.
  intros Hp Hm.
  destruct (exports_addCommandToHistory toISOString stringifyLength
              (JString commandText) (OfMemoryOp r) d1) as (d2 & Hh & Hu & _).
  exists d2. split; [|exact Hu]. unfold Backend.executeCommand.
  apply (executeCommand_memoryOp _ _ _ _ _ _ w w
           (Backend.mkWorld (Backend.fs w) (Backend.events w) d1)
           (Backend.mkWorld (Backend.fs w) (Backend.events w) d2)
           fn args commandText r).
  - unfold Backend.run_parseCommand, ret. now rewrite Hp.
  - unfold Backend.in_memory. now rewrite Hm.
  - unfold Backend.in_memory. cbn [Backend.memory Backend.fs Backend.events].
    now rewrite Hh.
Qed.

(** X26: said to the backend: [remember <key> is <value>], then
    [recall <key>], with a key and a value of ASCII characters.  The
    first command saves the value, the second returns it; neither calls
    [exec] or writes an audit record. *)
Theorem remember_then_recall (k v : string) (w : Backend.World MemoryJs.Disk) :
  ascii_text k = true -> ascii_text v = true ->
  word k = true -> k <> "__proto__" -> solid v = true -> one_line v = true ->
  let run :=
    Backend.executeCommand
      (H := MemoryJs.exports toISOString None stringifyLength)
      homedir cwd exec dirSize mtimeDate localeCompare toLocaleString in
  let first := run (JString ("remember " ++ k ++ " is " ++ v)) w in
  let second := run (JString ("recall " ++ k)) first.2 in
  first.1
  = Returned
      (mkExecutionResult (JString ("remember " ++ k ++ " is " ++ v))
         "Save Memory"
         ("Memory saved: " ++ dq ++ k ++ dq ++ " = " ++ dq ++ v ++ dq)
         true None None)
  /\ (exists t,
        second.1
        = Returned
            (mkExecutionResult (JString ("recall " ++ k)) "Recall Memory"
               (dq ++ k ++ dq ++ " = " ++ dq ++ v ++ dq
                ++ " (saved: " ++ toLocaleString t ++ ")")
               true None None))
  /\ Backend.events second.2 = Backend.events w.
Proof.
  intros _ _ Hk Hproto Hv Hline. cbv zeta.
  destruct (exports_saveMemory toISOString stringifyLength toLocaleString
              k v (Backend.memory w)) as (t & d1 & E1 & Hu1).
  destruct (run_memoryOp _ w _ _ _ d1 (parse_remember_is k v Hk Hv Hline) E1)
    as (d2 & -> & Hu2).
  cbn [fst snd op_action op_result op_success]. split; [reflexivity|].
  assert (Hown : JsObject.get_own k
                   (MemoryJs.userData (Notions.loaded toISOString d2))
                 = Some (MemoryJs.mkItem v t)).
  { rewrite Hu2, Hu1. now apply get_own_set. }
  destruct (exports_getMemory toISOString stringifyLength toLocaleString
              k _ d2 Hown) as (d3 & E3).
  destruct (run_memoryOp _ (Backend.mkWorld (Backend.fs w) (Backend.events w) d2)
              _ _ _ d3 (parse_recall k Hk) E3) as (d4 & -> & _).
  cbn [fst snd op_action op_result op_success Backend.fs Backend.events
       MemoryJs.value MemoryJs.timestamp].
  split; [exists t; reflexivity|]. reflexivity.
Qed.

(** X28: every memory command is recorded.  Whatever the operation and
    whatever comes of it ([clear memory], which empties the history, is
    one of them), the command is the first entry of the history
    afterwards, and the history holds at most ten. *)
Theorem every_memory_command_is_recorded (commandText : string)
    (w : Backend.World MemoryJs.Disk) :
  CommandParser.type (CommandParser.parseCommand (JString commandText))
  = "memoryOp" ->
  let run :=
    Backend.executeCommand
      (H := MemoryJs.exports toISOString None stringifyLength)
      homedir cwd exec dirSize mtimeDate localeCompare toLocaleString
      (JString commandText) w in
  exists entry rest,
    MemoryJs.commandHistory (Notions.loaded toISOString (Backend.memory run.2))
    = entry :: rest
    /\ MemoryJs.command entry = JString commandText
    /\ List.length (entry :: rest) <= 10
    /\ Backend.events run.2 = Backend.events w.
Proof.
  intros Hty. cbv zeta.
  pose proof (parseCommand_shape (JString commandText)) as Hshape.
  destruct (CommandParser.parseCommand (JString commandText))
    as [err|fn args orig|fn args orig|command orig|t] eqn:Hp;
    try discriminate; [|destruct Hshape].
  destruct (executeMemoryOperation_returns
              (H := MemoryJs.exports toISOString None stringifyLength)
              toLocaleString fn args (Backend.memory w)) as (r & m1 & Hm).
  destruct (exports_addCommandToHistory toISOString stringifyLength
              (JString commandText) (OfMemoryOp r) m1) as (d' & Ha & _ & t & Hh).
  unfold Backend.executeCommand.
  rewrite (executeCommand_memoryOp _ _ _ _ _ (JString commandText) w w
             (Backend.mkWorld (Backend.fs w) (Backend.events w) m1)
             (Backend.mkWorld (Backend.fs w) (Backend.events w) d')
             fn args orig r).
  - cbn [fst snd Backend.memory Backend.events].
    eexists _, _. split; [exact Hh|]. split; [reflexivity|].
    split; [|reflexivity]. cbn [List.length].
    pose proof (firstn_le_length 9
                  (MemoryJs.commandHistory (Notions.loaded toISOString m1))).
    lia.
  - unfold Backend.run_parseCommand, ret. now rewrite Hp.
  - unfold Backend.in_memory. now rewrite Hm.
  - unfold Backend.in_memory. cbn [Backend.memory Backend.fs Backend.events].
    now rewrite Ha.
Qed.

End Wired.

(** The laws at work in the world of the examples. *)
Lemma revisions_of_executeCommand_agree_witness :
  (CommandUtilsLegacy.executeCommand
     (W := unit) (fun c => ret (CommandParser.parseCommand c))
     (fun _ _ => ret (mkOpResult "Recall Memory" "Memory not found" false))
     (fun _ _ => throw Scenario.write_failed)
     (fun c w => ((CommandUtilsLegacy.executeShellCommand Scenario.homedir
                     Scenario.quiet_exec c).1, w))
     (fun _ _ => ret tt) (JString "recall name") tt).1
  = Returned (mkExecutionResult (JString "recall name") "Recall Memory"
                "Memory not found" false None None)
  /\ (CommandUtils.executeCommand
        (W := unit) (fun c => ret (CommandParser.parseCommand c))
        (fun _ _ => ret (mkOpResult "Recall Memory" "Memory not found" false))
        (fun _ _ => throw Scenario.write_failed)
        (fun c w => ((executeShellCommand Scenario.homedir Scenario.quiet_exec c).1,
                     w))
        (fun _ _ => ret tt) (JString "recall name") tt).1
     = Returned (mkExecutionResult (JString "recall name") "Recall Memory"
                   "Memory not found" false None None).
Proof.
  destruct (revisions_of_executeCommand_agree
              (W := unit) (fun c => ret (CommandParser.parseCommand c))
              (fun _ _ => ret (mkOpResult "Recall Memory" "Memory not found" false))
              (fun _ _ => throw Scenario.write_failed)
              (fun c w => ((CommandUtilsLegacy.executeShellCommand
                              Scenario.homedir Scenario.quiet_exec c).1, w))
              (fun c w => ((executeShellCommand Scenario.homedir
                              Scenario.quiet_exec c).1, w))
              (fun _ _ => ret tt) "recall name" tt tt
              (CommandParser.parseCommand (JString "recall name")) eq_refl)
    as (_ & r & r' & Hr & Hr' & _); [vm_compute; discriminate|].
  split; vm_compute; reflexivity.
Defined.

Lemma error_codes_of_the_backend_witness :
  exists r,
    (Scenario.run_with_history Scenario.enotdir_exec (JString "ls")).1 = Returned r
    /\ code r = Some "E_SHELL_COMMAND_FAILED"
    /\ result r = "Error executing shell command: spawn /bin/sh ENOTDIR".
Proof.
  destruct (error_codes_of_the_backend (H := Scenario.history_memory)
              Scenario.homedir Scenario.cwd Scenario.enotdir_exec 4096
              (fun _ => "2024-01-01") Scenario.collation (fun t => t)
              "ls" (Scenario.world0 [])) as (r & Hr & _).
  exists r. split; [exact Hr|].
  vm_compute in Hr. injection Hr as <-. split; reflexivity.
Defined.

Lemma remember_then_recall_witness :
  exists t,
    (Backend.executeCommand
       (H := MemoryJs.exports (fun _ => "2024-01-01T00:00:00.000Z") None (fun _ => 0))
       Scenario.homedir Scenario.cwd Scenario.quiet_exec 4096
       (fun _ => "2024-01-01") Scenario.collation (fun t => t)
       (JString "recall name")
       (Backend.executeCommand
          (H := MemoryJs.exports (fun _ => "2024-01-01T00:00:00.000Z") None (fun _ => 0))
          Scenario.homedir Scenario.cwd Scenario.quiet_exec 4096
          (fun _ => "2024-01-01") Scenario.collation (fun t => t)
          (JString "remember name is Ada Lovelace")
          (Scenario.world0 (MemoryJs.mkDisk None 0))).2).1
    = Returned
        (mkExecutionResult (JString "recall name") "Recall Memory"
           (dq ++ "name" ++ dq ++ " = " ++ dq ++ "Ada Lovelace" ++ dq
            ++ " (saved: " ++ t ++ ")") true None None).
Proof.
  exact (proj1 (proj2
           (remember_then_recall Scenario.homedir Scenario.cwd
              Scenario.quiet_exec 4096 (fun _ => "2024-01-01") Scenario.collation
              (fun t => t) (fun _ => "2024-01-01T00:00:00.000Z") (fun _ => 0)
              "name" "Ada Lovelace" (Scenario.world0 (MemoryJs.mkDisk None 0))
              eq_refl eq_refl eq_refl ltac:(discriminate) eq_refl eq_refl))).
Defined.

Lemma failed_subprocess_is_reported_as_command_failed_witness :
  (executeShellCommand Scenario.homedir Scenario.timeout_exec
     (JString "ping localhost")).1
  = Returned (mkShellResult false "Command timed out after 10 seconds" false
                (Some "E_COMMAND_TIMEOUT"))
  /\ exists r,
       (Scenario.run_with_history Scenario.timeout_exec (JString "ping localhost")).1
       = Returned r
       /\ Server.code (Server.response (JString "ping localhost") r)
          = "E_COMMAND_FAILED".
Proof.
  destruct (failed_subprocess_is_reported_as_command_failed
              (H := Scenario.history_memory)
              Scenario.homedir Scenario.cwd Scenario.timeout_exec 4096
              (fun _ => "2024-01-01") Scenario.collation (fun t => t)
              "ping localhost" (Scenario.world0 [])
              (mkExecOutcome
                 (Some (mkExecError NoCode (Some "SIGTERM")
                          ("Command failed: ping localhost" ++ nl))) "" "")
              (mkExecError NoCode (Some "SIGTERM")
                 ("Command failed: ping localhost" ++ nl))
              [JString "ping localhost"])
    as (Hsh & _ & r & Hr & _ & _ & Hc & _);
    [vm_compute; reflexivity | vm_compute; reflexivity | reflexivity
    | reflexivity | reflexivity | reflexivity |].
  split; [exact Hsh|]. exists r. split; [exact Hr | exact Hc].
Defined.

Lemma every_memory_command_is_recorded_witness :
  exists entry rest,
    MemoryJs.commandHistory
      (Notions.loaded (fun _ => "2024-01-01T00:00:00.000Z")
         (Backend.memory
            (Backend.executeCommand
               (H := MemoryJs.exports (fun _ => "2024-01-01T00:00:00.000Z") None
                       (fun _ => 0))
               Scenario.homedir Scenario.cwd Scenario.quiet_exec 4096
               (fun _ => "2024-01-01") Scenario.collation (fun t => t)
               (JString "clear memory")
               (Scenario.world0 (MemoryJs.mkDisk None 0))).2))
    = entry :: rest
    /\ MemoryJs.command entry = JString "clear memory".
Proof.
  destruct (every_memory_command_is_recorded Scenario.homedir Scenario.cwd
              Scenario.quiet_exec 4096 (fun _ => "2024-01-01") Scenario.collation
              (fun t => t) (fun _ => "2024-01-01T00:00:00.000Z") (fun _ => 0)
              "clear memory" (Scenario.world0 (MemoryJs.mkDisk None 0))
              eq_refl)
    as (entry & rest & Hh & Hc & _).
  exists entry, rest. split; [exact Hh | exact Hc].
Defined.

End ExecutorLaws.

(** ** The literal denylist at work *)

Module SecurityLaws.
Import JsString JsValue Security.

Lemma isCommandSafe_literal_blocks_witness :
  safe (isCommandSafe (JString "  echo hi | SHUTDOWN now ")) = false.
Proof.
  apply (SecurityFacts.isCommandSafe_literal_blocks _ "shutdown");
    [do 3 right; left; reflexivity | vm_compute; reflexivity].
Defined.

End SecurityLaws.

(** ** The audit log of security.js and its statistics *)

Module SecurityLogFacts.
Import JsString JsValue SpecWords Notions JsStringFacts NodePathFacts SecurityLog.
Import ParserLaws.

Lemma has_char_app (c : ascii) (a b : string) :
  has_char c (a ++ b) = has_char c a || has_char c b.
Proof.
  induction a as [|d a IH]; [reflexivity|].
  rewrite append_cons. cbn [has_char]. now rewrite IH, orb_assoc.
Qed.

Lemma trimStart_nonspace (c : ascii) (s : string) :
  is_space c = false -> trimStart (String c s) = String c s.
Proof. intros H. cbn [trimStart]. now rewrite H. Qed.

Lemma trimEnd_nonspace (c : ascii) (s : string) :
  is_space c = false -> exists s', trimEnd (String c s) = String c s'.
Proof.
  intros H. cbn [trimEnd]. destruct (trimEnd s); [|eauto].
  rewrite H. eauto.
Qed.

Lemma trimEnd_app_space (b : string) (c : ascii) :
  is_space c = true -> trimEnd (b ++ String c "") = trimEnd b.
Proof.
  intros Hc. induction b as [|d b IH].
  - rewrite append_nil. cbn. now rewrite Hc.
  - rewrite append_cons. cbn [trimEnd]. now rewrite IH.
Qed.

Lemma has_char_trimEnd (c : ascii) (s : string) :
  has_char c s = false -> has_char c (trimEnd s) = false.
Proof.
  induction s as [|d s IH]; [reflexivity|].
  cbn [has_char trimEnd]. intros H. apply orb_false_elim in H.
  destruct H as [Hd Hs]. specialize (IH Hs).
  destruct (trimEnd s) eqn:E.
  - destruct (is_space d); [reflexivity|]. cbn. now rewrite Hd.
  - cbn [has_char]. cbn [has_char] in IH. now rewrite Hd, IH.
Qed.

(** The text of a log that holds the lines [bs], each closed by a line
    feed, and what [split] finds in it. *)
Lemma split_log (bs : list string) (x : string) :
  Forall (fun b => has_char "010" b = false) bs ->
  has_char "010" x = false ->
  split "010" (fold_left (fun text b => text ++ b ++ nl) bs "" ++ x)
  = (bs ++ [x])%list.
Proof.
  revert x. induction bs as [|b bs IH] using rev_ind; intros x Hbs Hx.
  - cbn [fold_left app]. rewrite append_nil. now apply split_no_sep.
  - apply Forall_app in Hbs. destruct Hbs as [Hbs Hb].
    apply List.Forall_inv in Hb.
    rewrite fold_left_app. cbn [fold_left].
    rewrite !append_assoc. change (nl ++ x) with (String "010" x).
    rewrite <- append_assoc, split_app_sep.
    rewrite (IH b Hbs Hb), (split_no_sep _ _ Hx). reflexivity.
Qed.

Lemma fold_log_cons (c : ascii) (t : string) (bs : list string) :
  fold_left (fun text b => text ++ b ++ nl) bs (String c t)
  = String c (fold_left (fun text b => text ++ b ++ nl) bs t).
Proof.
  revert t. induction bs as [|b bs IH]; intros t; [reflexivity|].
  cbn [fold_left]. rewrite append_cons. apply IH.
Qed.

(** A log written line by line, each line without a line feed in it and
    starting with something other than white space, is read back as
    these lines; the last one has lost the white space at its end. *)
Lemma log_lines_of_log (bs : list string) (b : string) :
  Forall (fun x => has_char "010" x = false
                   /\ exists c x', x = String c x' /\ is_space c = false)
    (bs ++ [b]) ->
  log_lines (fold_left (fun text b => text ++ b ++ nl) (bs ++ [b]) "")
  = (bs ++ [trimEnd b])%list.
Proof.
  intros Hall. pose proof Hall as Hall'.
  apply Forall_app in Hall'. destruct Hall' as [Hbs Hb].
  apply List.Forall_inv in Hb. destruct Hb as (Hnl & d & b' & -> & Hd).
  destruct (trimEnd_nonspace d b' Hd) as [e He].
  assert (Hstart : exists c t,
            fold_left (fun text b => text ++ b ++ nl) (bs ++ [String d b']) ""
            = String c t /\ is_space c = false).
  { destruct bs as [|b1 bs1].
    - cbn [app fold_left]. rewrite append_nil, append_cons. eauto.
    - apply List.Forall_inv in Hbs. destruct Hbs as (_ & c & x' & -> & Hc).
      cbn [app fold_left]. rewrite append_nil, append_cons, fold_log_cons. eauto. }
  destruct Hstart as (c & t & Et & Hc).
  unfold log_lines, trim. rewrite Et, (trimStart_nonspace c t Hc), <- Et.
  rewrite fold_left_app. cbn [fold_left].
  assert (Hend : trimEnd (String d b' ++ nl) = trimEnd (String d b')).
  { apply trimEnd_app_space. reflexivity. }
  rewrite trimEnd_app_nonempty by (rewrite Hend, He; discriminate).
  rewrite Hend.
  rewrite split_log;
    [| apply List.Forall_forall; intros x Hx;
       rewrite List.Forall_forall in Hbs; now destruct (Hbs x Hx)
     | now apply has_char_trimEnd].
  rewrite List.filter_app. f_equal.
  - apply List.forallb_filter_id. apply forallb_forall. intros x Hx.
    rewrite List.Forall_forall in Hbs.
    destruct (Hbs x Hx) as (_ & cx & x' & -> & Hcx).
    unfold trim. rewrite (trimStart_nonspace cx x' Hcx).
    destruct (trimEnd_nonspace cx x' Hcx) as [s' ->]. reflexivity.
  - cbn [List.filter]. rewrite He. unfold trim.
    rewrite (trimStart_nonspace d e Hd).
    destruct (trimEnd_nonspace d e Hd) as [s' ->]. reflexivity.
Qed.

(** The loop of [getSecurityStats] counts a line once at most, and a
    line with the mark of a blocked command as blocked. *)
Lemma count_lines (lines : list string) (b0 s0 e0 : nat) (la : option string) :
  exists B S E la',
    fold_left count_line lines (b0, s0, e0, la) = (b0 + B, s0 + S, e0 + E, la')
    /\ B = List.length (List.filter (fun l => includes l "| BLOCKED |") lines)
    /\ B + S + E <= List.length lines.
Proof.
  revert b0 s0 e0 la. induction lines as [|l lines IH]; intros b0 s0 e0 la.
  - exists 0, 0, 0, la. cbn. rewrite !Nat.add_0_r. auto.
  - cbn [fold_left count_line List.filter].
    destruct (includes l "| BLOCKED |").
    + destruct (IH (S b0) s0 e0
                  (match match_at_start timestampPattern l with
                   | Some m => JsRegExp.get_cap 1 m
                   | None => la
                   end)) as (B & S' & E & la' & -> & HB & Hle).
      exists (S B), S', E, la'. split; [cbn [Nat.add]; rewrite ?Nat.add_succ_r; reflexivity|].
      cbn [List.length]. split; lia.
    + destruct (includes l "| SUCCESS |").
      * destruct (IH b0 (S s0) e0
                    (match match_at_start timestampPattern l with
                     | Some m => JsRegExp.get_cap 1 m
                     | None => la
                     end)) as (B & S' & E & la' & -> & HB & Hle).
        exists B, (S S'), E, la'. split; [cbn [Nat.add]; rewrite ?Nat.add_succ_r; reflexivity|].
        cbn [List.length]. split; lia.
      * destruct (includes l "| ERROR |").
        -- destruct (IH b0 s0 (S e0)
                       (match match_at_start timestampPattern l with
                        | Some m => JsRegExp.get_cap 1 m
                        | None => la
                        end)) as (B & S' & E & la' & -> & HB & Hle).
           exists B, S', (S E), la'. split; [cbn [Nat.add]; rewrite ?Nat.add_succ_r; reflexivity|].
           cbn [List.length]. split; lia.
        -- destruct (IH b0 s0 e0
                       (match match_at_start timestampPattern l with
                        | Some m => JsRegExp.get_cap 1 m
                        | None => la
                        end)) as (B & S' & E & la' & -> & HB & Hle).
           exists B, S', E, la'. split; [reflexivity|].
           cbn [List.length]. split; lia.
Qed.

Lemma spaceless_one_line (s : string) :
  spaceless s = true -> has_char "010" s = false.
Proof.
  unfold spaceless. induction s as [|c s IH]; [reflexivity|].
  cbn [all_chars has_char]. intros [Hc Hs]%andb_prop.
  rewrite (IH Hs), orb_false_r.
  destruct (Ascii.eqb c "010") eqn:E; [|reflexivity].
  apply Ascii.eqb_eq in E. subst c. discriminate.
Qed.

(** The text of the log after the entries [rs] have been written to a
    log that held [text]. *)
Lemma logCommand_appends (rs : list LogEntry) (text : string) :
  fold_left
    (fun log e => logCommand false (timestamp e) (command e) (status e) (reason e) log)
    rs (Some text)
  = Some (fold_left (fun text b => text ++ b ++ nl)
            (map (fun e => timestamp e ++ " | " ++ status e ++ " | "
                           ++ command e ++ " | " ++ reason e) rs)
            text).
Proof.
  revert text. induction rs as [|r rs IH]; intros text; [reflexivity|].
  cbn [fold_left map]. unfold logCommand at 2, logLine.
  cbn [timestamp command status reason].
  rewrite IH. do 2 f_equal. now rewrite !append_assoc.
Qed.

Lemma logCommand_writes (rs : list LogEntry) :
  rs <> [] ->
  fold_left
    (fun log e => logCommand false (timestamp e) (command e) (status e) (reason e) log)
    rs None
  = Some (fold_left (fun text b => text ++ b ++ nl)
            (map (fun e => timestamp e ++ " | " ++ status e ++ " | "
                           ++ command e ++ " | " ++ reason e) rs)
            "").
Proof.
  destruct rs as [|r rs]; [contradiction|]. intros _.
  cbn [fold_left map]. unfold logCommand at 2, logLine.
  cbn [timestamp command status reason].
  rewrite logCommand_appends. do 2 f_equal. now rewrite !append_assoc.
Qed.

(** The line of an entry, as it is written and with the white space at
    its end cut off, bears the mark of its status. *)
Lemma line_has_its_status (e : LogEntry) :
  includes (timestamp e ++ " | " ++ status e ++ " | " ++ command e ++ " | "
            ++ reason e) ("| " ++ status e ++ " |") = true.
Proof.
  change (timestamp e ++ " | " ++ status e ++ " | " ++ command e ++ " | " ++ reason e)
    with (timestamp e ++ " " ++ "| " ++ status e ++ " | " ++ command e ++ " | "
          ++ reason e).
  rewrite <- (append_assoc (timestamp e) " ").
  replace ("| " ++ status e ++ " | " ++ command e ++ " | " ++ reason e)
    with (("| " ++ status e ++ " |") ++ " " ++ command e ++ " | " ++ reason e)
    by (now rewrite !append_assoc).
  apply includes_app.
Qed.

Lemma blocked_lines_counted (rs : list LogEntry) :
  List.length (List.filter (fun e => String.eqb (status e) "BLOCKED") rs)
  <= List.length
       (List.filter (fun l => includes l "| BLOCKED |")
          (map (fun e => timestamp e ++ " | " ++ status e ++ " | "
                         ++ command e ++ " | " ++ reason e) rs)).
Proof.
  induction rs as [|r rs IH]; [reflexivity|].
  cbn [map List.filter].
  destruct (String.eqb (status r) "BLOCKED") eqn:E.
  - apply String.eqb_eq in E. pose proof (line_has_its_status r) as H.
    replace ("| " ++ status r ++ " |") with "| BLOCKED |" in H
      by (now rewrite E).
    rewrite H. cbn [List.length]. lia.
  - destruct (includes _ _); cbn [List.length]; lia.
Qed.

Section Log.
Variable homedir : string.

(** X30: when commands are logged with [logCommand], each at a time
    written without white space and with a command, a status and a
    reason that hold no line feed, [getSecurityStats] finds as many
    commands as were logged, counts every one logged as BLOCKED among
    the blocked ones, and counts no command twice. *)
Theorem getSecurityStats_counts_the_log (rs : list LogEntry) :
  rs <> [] ->
  Forall (fun e => word (timestamp e) = true
                   /\ has_char "010" (status e) = false
                   /\ has_char "010" (command e) = false
                   /\ has_char "010" (reason e) = false) rs ->
  exists stats,
    getSecurityStats homedir None
      (fold_left
         (fun log e =>
            logCommand false (timestamp e) (command e) (status e) (reason e) log)
         rs None)
    = inl stats
    /\ totalCommands stats = List.length rs
    /\ List.length (List.filter (fun e => String.eqb (status e) "BLOCKED") rs)
       <= blockedCommands stats
    /\ blockedCommands stats + successfulCommands stats + errorCommands stats
       <= totalCommands stats
    /\ logFile stats = Some (LOG_FILE homedir).
Proof.
  intros Hne Hall. rewrite (logCommand_writes rs Hne).
  destruct (exists_last Hne) as (rs' & r & ->).
  set (body := fun e => timestamp e ++ " | " ++ status e ++ " | "
                        ++ command e ++ " | " ++ reason e).
  rewrite map_app. change (map body [r]) with [body r].
  assert (Hbodies : Forall (fun x => has_char "010" x = false
                       /\ exists c x', x = String c x' /\ is_space c = false)
                      (map body rs' ++ [body r])).
  { change [body r] with (map body [r]). rewrite <- map_app.
    apply List.Forall_forall. intros x Hx. apply in_map_iff in Hx.
    destruct Hx as (e & <- & He).
    rewrite List.Forall_forall in Hall.
    destruct (Hall e He) as (Ht & Hs & Hc & Hr).
    destruct (word_inv _ Ht) as (c & a & Et & Hc' & Ha).
    split.
    - unfold body. rewrite !has_char_app, Hs, Hc, Hr.
      rewrite (spaceless_one_line _ (word_spaceless _ Ht)). reflexivity.
    - unfold body. rewrite Et, append_cons. eauto. }
  unfold getSecurityStats.
  rewrite (log_lines_of_log (map body rs') (body r) Hbodies).
  destruct (count_lines (map body rs' ++ [trimEnd (body r)]) 0 0 0 None)
    as (B & S & E & la & -> & HB & Hle).
  cbn [Nat.add]. eexists. split; [reflexivity|].
  cbn [totalCommands blockedCommands successfulCommands errorCommands logFile].
  rewrite !length_app, length_map in *. cbn [List.length] in *.
  repeat split; try lia.
  rewrite HB, !List.filter_app, !length_app.
  pose proof (blocked_lines_counted rs') as Hrs'. fold body in Hrs'.
  assert (Hr : List.length (List.filter (fun e => String.eqb (status e) "BLOCKED") [r])
               <= List.length
                    (List.filter (fun l => includes l "| BLOCKED |")
                       [trimEnd (body r)])).
  { cbn [List.filter]. destruct (String.eqb (status r) "BLOCKED") eqn:Es;
      [|cbn [List.length]; lia].
    apply String.eqb_eq in Es.
    assert (Hin : includes (trimEnd (body r)) "| BLOCKED |" = true).
    { apply List.Forall_app in Hbodies. destruct Hbodies as [_ Hb].
      apply List.Forall_inv in Hb. destruct Hb as (_ & c & x' & Ex & Hc).
      pose proof (includes_trim (body r) "| BLOCKED |" eq_refl) as Ht.
      unfold trim in Ht. rewrite Ex, (trimStart_nonspace c x' Hc), <- Ex in Ht.
      apply Ht. pose proof (line_has_its_status r) as H.
      replace ("| " ++ status r ++ " |") with "| BLOCKED |" in H
        by (now rewrite Es).
      exact H. }
    rewrite Hin. reflexivity. }
  lia.
Qed.

End Log.

Lemma getSecurityStats_counts_the_log_witness :
  exists stats,
    getSecurityStats Scenario.homedir None
      (logCommand false "2024-05-01T10:00:01.000Z" "ls -la" "SUCCESS" "done"
         (logCommand false "2024-05-01T10:00:00.000Z" "rm -rf /" "BLOCKED"
            "Command contains blocked operation: rm -rf" None))
    = inl stats
    /\ totalCommands stats = 2
    /\ 1 <= blockedCommands stats.
Proof.
  destruct (getSecurityStats_counts_the_log Scenario.homedir
              [mkLogEntry "2024-05-01T10:00:00.000Z" "rm -rf /" "BLOCKED"
                 "Command contains blocked operation: rm -rf";
               mkLogEntry "2024-05-01T10:00:01.000Z" "ls -la" "SUCCESS" "done"])
    as (stats & E & Ht & Hb & _).
  - discriminate.
  - repeat constructor.
  - exists stats. repeat split; assumption.
Defined.

End SecurityLogFacts.
